(** * CPP-color-token: the language server's detection and resolution core

    A shallow embedding of [server.ts] and [constants.ts]: the four
    patterns, the colour codec, the token cache and the request handlers,
    followed by the properties of the specification that concern them.

    Modelling conventions.
    - A JavaScript string is the list of its UTF-16 code units ([jsstring]).
    - A JavaScript number is a binary64 float (Rocq's primitive [float]);
      the results of [Math.floor] and [parseInt], which are integer valued,
      have the type [intnum].
    - A regular expression is a term of [regex], interpreted by a
      backtracking matcher with the priorities of ECMAScript (ordered
      alternation, greedy quantifiers).  The four patterns have no group
      inside a repetition or a lookahead, and no optional part that can
      match the empty string, so the matcher leaves out what ECMAScript
      does only there (resetting the captures of a repeated group,
      keeping those of a lookahead, refusing an empty optional match).
    - An object used as a dictionary is the list of its slots in the
      order of their creation: its own properties and, under the key
      [__proto__], the object that an assignment to that name has put in
      the place of its prototype.  [Object.keys] enumerates the array
      indices first, in increasing order; a read of [obj[name]] sees
      what the object inherits from [Object.prototype].  The keys of the
      token cache are document URIs, which hold a colon and are
      therefore neither array indices nor [__proto__].
    - The module level variables of the server are the fields of [Server];
      an [async] function is a state transformer over it. *)

From Stdlib Require Import Ascii String.
From Stdlib Require Import ZArith NArith List Bool Lia.
From Stdlib Require Import Floats.PrimFloat Floats.FloatOps Floats.SpecFloat.
Import ListNotations.

Set Warnings "-register-all".

(* ================================================================== *)
(** * Strings *)

Definition jsstring := list N.

Definition cu (a : ascii) : N := N_of_ascii a.

(** The code units of a literal. *)
Definition js (s : string) : jsstring := map cu (list_ascii_of_string s).

(** The double quote, which the literals of this file do not contain. *)
Definition dquote : N := 34%N.

Definition quoted (s : jsstring) : jsstring := dquote :: s ++ [dquote].

Fixpoint jsstring_eqb (a b : jsstring) : bool :=
  match a, b with
  | [], [] => true
  | x :: a', y :: b' => N.eqb x y && jsstring_eqb a' b'
  | _, _ => false
  end.

(** [s.slice(i, j)] for [0 <= i <= j]. *)
Definition slice (i j : nat) (s : jsstring) : jsstring :=
  firstn (j - i) (skipn i s).

(** [s.indexOf(x) >= 0] on an array of strings. *)
Definition includes (x : jsstring) (l : list jsstring) : bool :=
  existsb (jsstring_eqb x) l.

(** [!!s] for a string: only the empty string is falsy. *)
Definition truthy (s : jsstring) : bool :=
  match s with [] => false | _ :: _ => true end.

Definition in_range (lo hi : ascii) (c : N) : bool :=
  (N.leb (cu lo) c && N.leb c (cu hi))%bool.

(* ================================================================== *)
(** * Regular expressions *)

Module RegExp.

Inductive regex : Type :=
| Empty : regex
| Class : (N -> bool) -> regex
| Seq : regex -> regex -> regex
| Alt : regex -> regex -> regex
| Star : regex -> regex
| Group : nat -> regex -> regex
| LookAhead : regex -> regex
| PrecededBy : (N -> bool) -> regex.

(** A literal character, [r?] for an [r] that takes at least one code
    unit, and [r+]. *)
Definition Char (a : ascii) : regex := Class (N.eqb (cu a)).
Definition Opt (r : regex) : regex := Alt r Empty.
Definition Plus (r : regex) : regex := Seq r (Star r).

Fixpoint Rep (n : nat) (r : regex) : regex :=
  match n with
  | O => Empty
  | S n' => Seq r (Rep n' r)
  end.

Fixpoint Lit (s : jsstring) : regex :=
  match s with
  | [] => Empty
  | c :: s' => Seq (Class (N.eqb c)) (Lit s')
  end.

(** The state of one match attempt: the index reached, the code unit
    before it, the code units consumed since the innermost open group
    (the whole match, at top level) in reverse, the captures closed so
    far (latest first) and the input still ahead. *)
Record mstate : Type := MState {
  m_pos : nat;
  m_prev : option N;
  m_acc : jsstring;
  m_caps : list (nat * jsstring);
  m_rest : jsstring
}.

Definition advance (c : N) (s : jsstring) (st : mstate) : mstate :=
  MState (S (m_pos st)) (Some c) (c :: m_acc st) (m_caps st) s.

Definition open_group (st : mstate) : mstate :=
  MState (m_pos st) (m_prev st) [] (m_caps st) (m_rest st).

Definition close_group (g : nat) (outer inner : mstate) : mstate :=
  MState (m_pos inner) (m_prev inner) (m_acc inner ++ m_acc outer)
         ((g, rev (m_acc inner)) :: m_caps inner) (m_rest inner).

(** The matcher, in continuation passing style: [mt r st k] is the first
    success, in priority order, of [k] on a state reached by matching [r]
    from [st].  An iteration of [Star] that consumes nothing is rejected,
    as in ECMAScript's RepeatMatcher. *)
Fixpoint mt (r : regex) (st : mstate) (k : mstate -> option mstate)
  {struct r} : option mstate :=
  match r with
  | Empty => k st
  | Class p =>
      match m_rest st with
      | c :: s => if p c then k (advance c s st) else None
      | [] => None
      end
  | Seq a b => mt a st (fun st1 => mt b st1 k)
  | Alt a b =>
      match mt a st k with
      | Some res => Some res
      | None => mt b st k
      end
  | Star a =>
      (fix loop (n : nat) (st0 : mstate) {struct n} : option mstate :=
         match n with
         | O => k st0
         | S n' =>
             match mt a st0 (fun st1 =>
                     if Nat.ltb (m_pos st0) (m_pos st1)
                     then loop n' st1 else None) with
             | Some res => Some res
             | None => k st0
             end
         end) (length (m_rest st)) st
  | Group g a => mt a (open_group st) (fun st1 => k (close_group g st st1))
  | LookAhead a =>
      match mt a st Some with
      | Some _ => k st
      | None => None
      end
  | PrecededBy p =>
      match m_prev st with
      | Some c => if p c then k st else None
      | None => None
      end
  end.

(** The result of [exec]: [m.index], [m[0]] and the numbered groups. *)
Record Match : Type := MkMatch {
  index : nat;
  matched : jsstring;
  groups : list (nat * jsstring)
}.

Fixpoint assoc_nat (g : nat) (l : list (nat * jsstring)) : option jsstring :=
  match l with
  | [] => None
  | (h, s) :: l' => if Nat.eqb g h then Some s else assoc_nat g l'
  end.

(** [m[g]]: [None] is [undefined]. *)
Definition group (m : Match) (g : nat) : option jsstring :=
  assoc_nat g (groups m).

(** The index just after the match, the regex's next [lastIndex]. *)
Definition endIndex (m : Match) : nat := index m + length (matched m).

(** The leftmost match at or after index [p], where [s] is the input from
    [p] on and [prev] the code unit before it. *)
Fixpoint scan (r : regex) (p : nat) (prev : option N) (s : jsstring)
  {struct s} : option Match :=
  match mt r (MState p prev [] [] s) Some with
  | Some st => Some (MkMatch p (rev (m_acc st)) (m_caps st))
  | None =>
      match s with
      | [] => None
      | c :: s' => scan r (S p) (Some c) s'
      end
  end.

Definition prevChar (text : jsstring) (i : nat) : option N :=
  match i with
  | O => None
  | S j => nth_error text j
  end.

(** [regex.exec(text)] for a global regex whose [lastIndex] is
    [lastIndex]. *)
Definition exec (r : regex) (text : jsstring) (lastIndex : nat)
  : option Match :=
  if Nat.ltb (length text) lastIndex then None
  else scan r lastIndex (prevChar text lastIndex) (skipn lastIndex text).

(** The matches of [while ((m = regex.exec(text))) ...], at most [fuel]
    of them. *)
Fixpoint execAll (fuel : nat) (r : regex) (text : jsstring) (lastIndex : nat)
  : list Match :=
  match fuel with
  | O => []
  | S fuel' =>
      match exec r text lastIndex with
      | None => []
      | Some m => m :: execAll fuel' r text (endIndex m)
      end
  end.

(** [regex.test(s)] on a fresh regex. *)
Definition test (r : regex) (s : jsstring) : bool :=
  match exec r s 0 with Some _ => true | None => false end.

(** [r] matches the whole of [s], not a part of it. *)
Definition matchesWhole (r : regex) (s : jsstring) : bool :=
  match exec r s 0 with
  | Some m => Nat.eqb (index m) 0 && jsstring_eqb (matched m) s
  | None => false
  end.

End RegExp.
Import RegExp.

(* ================================================================== *)
(** * constants.ts *)

Definition hexDigit (c : N) : bool :=
  in_range "0" "9" c || in_range "a" "f" c || in_range "A" "F" c.

Definition digit (c : N) : bool := in_range "0" "9" c.

(** [\s]: the white space and line terminators of ECMAScript. *)
Definition whiteSpace (c : N) : bool :=
  (N.leb 9 c && N.leb c 13) || N.eqb c 32 || N.eqb c 160 || N.eqb c 5760
  || (N.leb 8192 c && N.leb c 8202) || N.eqb c 8232 || N.eqb c 8233
  || N.eqb c 8239 || N.eqb c 8287 || N.eqb c 12288 || N.eqb c 65279.

(** [colorTokenPattern]: a hash sign, then group 1: six hexadecimal
    digits and optionally two more (group 2), or else three hexadecimal
    digits and optionally one more (group 3). *)
Definition colorTokenPattern : regex :=
  Seq (Char "#")
      (Group 1
         (Alt (Seq (Rep 6 (Class hexDigit))
                   (Opt (Group 2 (Rep 2 (Class hexDigit)))))
              (Seq (Rep 3 (Class hexDigit))
                   (Opt (Group 3 (Rep 1 (Class hexDigit))))))).

(** One component of [rgbArrayPattern], four alternatives in this order:
    [25[0-5]], [2[0-4][0-9]], [1[0-9]{2}], [[1-9]?[0-9]]. *)
Definition rgbComponent : regex :=
  Alt (Seq (Char "2") (Seq (Char "5") (Class (in_range "0" "5"))))
      (Alt (Seq (Char "2") (Seq (Class (in_range "0" "4")) (Class digit)))
           (Alt (Seq (Char "1") (Rep 2 (Class digit)))
                (Seq (Opt (Class (in_range "1" "9"))) (Class digit)))).

(** [rgbArrayPattern]: an opening brace, then three times a group of
    white space, a group holding an [rgbComponent] and a group of white
    space, separated by commas, then a closing brace: nine groups, the
    components being groups 2, 5 and 8. *)
Definition rgbArrayPattern : regex :=
  Seq (Char "{")
 (Seq (Group 1 (Star (Class whiteSpace)))
 (Seq (Group 2 rgbComponent)
 (Seq (Group 3 (Star (Class whiteSpace)))
 (Seq (Char ",")
 (Seq (Group 4 (Star (Class whiteSpace)))
 (Seq (Group 5 rgbComponent)
 (Seq (Group 6 (Star (Class whiteSpace)))
 (Seq (Char ",")
 (Seq (Group 7 (Star (Class whiteSpace)))
 (Seq (Group 8 rgbComponent)
 (Seq (Group 9 (Star (Class whiteSpace)))
      (Char "}")))))))))))).

Definition cssVarChar (c : N) : bool :=
  in_range "a" "z" c || in_range "A" "Z" c || in_range "0" "9" c
  || N.eqb c (cu "-").

(** The number of the named group [cssVar]. *)
Definition cssVar : nat := 1.

(** [cssVariablePattern]: the text [var(--], the named group [cssVar] of
    one or more of [a-zA-Z0-9-], and a closing parenthesis. *)
Definition cssVariablePattern : regex :=
  Seq (Lit (js "var(--"))
      (Seq (Group cssVar (Plus (Class cssVarChar))) (Char ")")).

Definition jsonKeyChar (c : N) : bool :=
  in_range "a" "z" c || in_range "A" "Z" c || in_range "0" "9" c
  || N.eqb c (cu "-") || N.eqb c (cu "_").

(** The numbers of the named groups [varDoulbeQuote] and
    [varSingleQuote]. *)
Definition varDoulbeQuote : nat := 3.
Definition varSingleQuote : nat := 5.

(** [jsonKeyPattern]: group 1 is an alternation of group 2, a lookbehind
    for a double quote, the named group [varDoulbeQuote] of one or more
    of [a-zA-Z0-9-_] and a lookahead for a double quote, white space and
    a colon, and of group 4, the same with single quotes and the named
    group [varSingleQuote]. *)
Definition jsonKeyPattern : regex :=
  Group 1
    (Alt (Group 2
            (Seq (PrecededBy (N.eqb dquote))
            (Seq (Group varDoulbeQuote (Plus (Class jsonKeyChar)))
                 (LookAhead (Seq (Class (N.eqb dquote))
                            (Seq (Star (Class whiteSpace)) (Char ":")))))))
         (Group 4
            (Seq (PrecededBy (N.eqb (cu "'")))
            (Seq (Group varSingleQuote (Plus (Class jsonKeyChar)))
                 (LookAhead (Seq (Char "'")
                            (Seq (Star (Class whiteSpace)) (Char ":")))))))).

Definition maxNumberOfColorTokensNotificationNamespace : jsstring :=
  js "JSONCOLORTOKEN.maxNumberOfColorTokens".

Inductive Casing : Type := Uppercase | Lowercase.

Record JSONColorTokenSettings : Type := {
  maxNumberOfColorTokens : Z;
  colorTokenCasing : Casing;
  languages : list jsstring;
  cssLanguages : list jsstring
}.

Definition defaultSettings : JSONColorTokenSettings := {|
  maxNumberOfColorTokens := 1000;
  colorTokenCasing := Uppercase;
  languages := [js "json"; js "jsonc"; js "cpp"; js "c++"];
  cssLanguages := [js "css"; js "less"]
|}.

(* ================================================================== *)
(** * Numbers *)

Local Open Scope Z_scope.

(** The integer valued results of [Math.floor] and [parseInt]. *)
Inductive intnum : Type :=
| INaN : intnum
| IInf : bool -> intnum
| INegZero : intnum
| IInt : Z -> intnum.

Definition Z2float (z : Z) : float :=
  SF2Prim (binary_normalize prec emax z 0 false).

(** The number an [intnum] stands for, rounded to binary64. *)
Definition toNumber (i : intnum) : float :=
  match i with
  | INaN => nan
  | IInf neg => if neg then neg_infinity else infinity
  | INegZero => neg_zero
  | IInt z => Z2float z
  end.

(** [Math.floor(x)]. *)
Definition Math_floor (x : float) : intnum :=
  match Prim2SF x with
  | S754_nan => INaN
  | S754_infinity neg => IInf neg
  | S754_zero neg => if neg then INegZero else IInt 0
  | S754_finite neg m e =>
      let sm := if neg then Z.neg m else Z.pos m in
      IInt (if Z.leb 0 e then sm * 2 ^ e else sm / 2 ^ (- e))
  end.

Definition digitChar (d : Z) : N :=
  if Z.ltb d 10 then Z.to_N (d + 48) else Z.to_N (d - 10 + 97).

Fixpoint digitsOf (fuel : nat) (radix z : Z) (acc : jsstring) : jsstring :=
  match fuel with
  | O => acc
  | S fuel' =>
      let acc' := digitChar (z mod radix) :: acc in
      if Z.eqb (z / radix) 0 then acc'
      else digitsOf fuel' radix (z / radix) acc'
  end.

(** The digits of [z >= 0] in [radix], lower case, no padding. *)
Definition natToString (radix z : Z) : jsstring :=
  digitsOf (S (Z.to_nat (Z.log2 z))) radix z [].

(** [n.toString(radix)] for an integer valued [n].  (Decimal output
    switches to exponent notation from [1e21] on in JavaScript; the
    colour components rendered here stay below 256.) *)
Definition toStringRadix (radix : Z) (n : intnum) : jsstring :=
  match n with
  | INaN => js "NaN"
  | IInf neg => if neg then js "-Infinity" else js "Infinity"
  | INegZero => js "0"
  | IInt z =>
      if Z.ltb z 0 then cu "-" :: natToString radix (- z)
      else natToString radix z
  end.

Definition digitValue (c : N) : option Z :=
  if digit c then Some (Z.of_N c - 48)
  else if in_range "a" "z" c then Some (Z.of_N c - 97 + 10)
  else if in_range "A" "Z" c then Some (Z.of_N c - 65 + 10)
  else None.

(** The value of the longest prefix of [s] made of digits of [radix],
    [acc] being the value read so far ([None]: no digit yet). *)
Fixpoint readDigits (radix : Z) (s : jsstring) (acc : option Z) : option Z :=
  match s with
  | [] => acc
  | c :: s' =>
      match digitValue c with
      | Some d =>
          if Z.ltb d radix
          then readDigits radix s'
                 (Some (match acc with Some a => a * radix + d | None => d end))
          else acc
      | None => acc
      end
  end.

Fixpoint dropWhile (p : N -> bool) (s : jsstring) : jsstring :=
  match s with
  | [] => []
  | c :: s' => if p c then dropWhile p s' else s
  end.

Definition stripHexPrefix (s : jsstring) : jsstring :=
  match s with
  | z :: x :: s' =>
      if N.eqb z (cu "0") && (N.eqb x (cu "x") || N.eqb x (cu "X"))
      then s' else s
  | _ => s
  end.

(** [parseInt(s, radix)] for radix 10 or 16: leading white space, a sign,
    for radix 16 an optional [0x], then the longest run of digits. *)
Definition parseInt (s : jsstring) (radix : Z) : intnum :=
  let s1 := dropWhile whiteSpace s in
  let '(neg, s2) :=
    match s1 with
    | c :: t =>
        if N.eqb c (cu "-") then (true, t)
        else if N.eqb c (cu "+") then (false, t)
        else (false, s1)
    | [] => (false, s1)
    end in
  let s3 := if Z.eqb radix 16 then stripHexPrefix s2 else s2 in
  match readDigits radix s3 None with
  | None => INaN
  | Some v =>
      if neg then (if Z.eqb v 0 then INegZero else IInt (- v)) else IInt v
  end.

(** [s.padStart(2, '0')]. *)
Definition padStart2 (s : jsstring) : jsstring :=
  match s with
  | [] => [cu "0"; cu "0"]
  | [c] => [cu "0"; c]
  | _ => s
  end.

Definition upper (c : N) : N :=
  if in_range "a" "z" c then (c - 32)%N else c.

Definition lower (c : N) : N :=
  if in_range "A" "Z" c then (c + 32)%N else c.

(** [s.toUpperCase()] and [s.toLowerCase()], for the ASCII letters: the
    strings they are applied to hold nothing else that has a case. *)
Definition toUpperCase (s : jsstring) : jsstring := map upper s.

Definition toLowerCase (s : jsstring) : jsstring := map lower s.

(* ================================================================== *)
(** * The colour codec *)

(** The protocol's [Color]. *)
Record Color : Type := {
  red : float;
  green : float;
  blue : float;
  alpha : float
}.

Definition convertShortHexCodeToFullHexCode (color : jsstring) : jsstring :=
  let color := skipn 1 color in
  cu "#" :: flat_map (fun hex => [hex; hex]) color.

Definition parseColor (color : jsstring) : Color :=
  let color :=
    if Nat.ltb (length color) 6
    then convertShortHexCodeToFullHexCode color else color in
  let red := (toNumber (parseInt (slice 1 3 color) 16) / 255)%float in
  let green := (toNumber (parseInt (slice 3 5 color) 16) / 255)%float in
  let blue := (toNumber (parseInt (slice 5 7 color) 16) / 255)%float in
  let alpha :=
    if Nat.eqb (length color) 9
    then (toNumber (parseInt (slice 7 9 color) 16) / 255)%float
    else 1%float in
  {| red := red; green := green; blue := blue; alpha := alpha |}.

Definition valueToCode (val : float) : jsstring :=
  let result := toStringRadix 16 (Math_floor (val * 255)%float) in
  if Nat.eqb (length result) 1 then cu "0" :: result else result.

Definition stringifyColor (color : Color) (casing : Casing) : jsstring :=
  let result := [cu "#"] in
  let result := result ++ valueToCode (red color) in
  let result := result ++ valueToCode (green color) in
  let result := result ++ valueToCode (blue color) in
  let result :=
    if (alpha color <? 1)%float
    then result ++ valueToCode (alpha color) else result in
  match casing with
  | Lowercase => toLowerCase result
  | Uppercase => toUpperCase result
  end.

(** Converts a colour to the array format of C++ files. *)
Definition colorToRgbArray (color : Color) : jsstring :=
  let r := Math_floor (red color * 255)%float in
  let g := Math_floor (green color * 255)%float in
  let b := Math_floor (blue color * 255)%float in
  js "{" ++ toStringRadix 10 r ++ js "," ++ toStringRadix 10 g
    ++ js "," ++ toStringRadix 10 b ++ js "}".

(** The hexadecimal form the triplet loop of [findColorTokens] builds
    from a match of [rgbArrayPattern], whose groups 2, 5 and 8 hold the
    components. *)
Definition component (m : Match) (g : nat) : intnum :=
  match group m g with
  | Some s => parseInt s 10
  | None => INaN
  end.

Definition rgbMatchToHex (m : Match) : jsstring :=
  let r := component m 2 in
  let g := component m 5 in
  let b := component m 8 in
  cu "#" :: padStart2 (toStringRadix 16 r) ++ padStart2 (toStringRadix 16 g)
    ++ padStart2 (toStringRadix 16 b).

Local Close Scope Z_scope.

(* ================================================================== *)
(** * JSON.parse *)

Module JSON.

Inductive json : Type :=
| JNull : json
| JBool : bool -> json
| JNumber : jsstring -> json
| JString : jsstring -> json
| JArray : list json -> json
| JObject : list (jsstring * json) -> json.

(** A container under construction: the elements, or the members and the
    key read last, latest first. *)
Inductive frame : Type :=
| FArr : list json -> frame
| FObj : list (jsstring * json) -> option jsstring -> frame.

Inductive numstate : Type :=
| NSign | NZero | NInt | NDot | NFrac | NExp | NExpSign | NExpDigits.

Inductive mode : Type :=
| MValue : bool -> mode
| MKey : bool -> mode
| MColon : mode
| MAfter : mode
| MDone : json -> mode
| MString : bool -> jsstring -> mode
| MEscape : bool -> jsstring -> mode
| MUnicode : bool -> jsstring -> list Z -> mode
| MLiteral : jsstring -> json -> mode
| MNumber : numstate -> jsstring -> mode.

Definition pstate : Type := (mode * list frame)%type.

Definition jsonWhiteSpace (c : N) : bool :=
  N.eqb c 32 || N.eqb c 9 || N.eqb c 10 || N.eqb c 13.

(** A value is complete: it is the whole text, or goes into the container
    on top of the stack. *)
Definition complete (v : json) (stk : list frame) : option pstate :=
  match stk with
  | [] => Some (MDone v, [])
  | FArr es :: t => Some (MAfter, FArr (v :: es) :: t)
  | FObj ms (Some k) :: t => Some (MAfter, FObj ((k, v) :: ms) None :: t)
  | FObj _ None :: _ => None
  end.

Definition closeArray (stk : list frame) : option pstate :=
  match stk with
  | FArr es :: t => complete (JArray (rev es)) t
  | _ => None
  end.

Definition closeObject (stk : list frame) : option pstate :=
  match stk with
  | FObj ms None :: t => complete (JObject (rev ms)) t
  | _ => None
  end.

Definition endString (isKey : bool) (s : jsstring) (stk : list frame)
  : option pstate :=
  if isKey then
    match stk with
    | FObj ms None :: t => Some (MColon, FObj ms (Some s) :: t)
    | _ => None
    end
  else complete (JString s) stk.

(** A code unit between tokens, after a value or after the whole text. *)
Definition stepBetween (m : mode) (stk : list frame) (c : N)
  : option pstate :=
  match m with
  | MAfter =>
      if jsonWhiteSpace c then Some (MAfter, stk)
      else if N.eqb c (cu ",") then
        match stk with
        | FArr _ :: _ => Some (MValue false, stk)
        | FObj _ _ :: _ => Some (MKey false, stk)
        | [] => None
        end
      else if N.eqb c (cu "]") then closeArray stk
      else if N.eqb c (cu "}") then closeObject stk
      else None
  | MDone v => if jsonWhiteSpace c then Some (MDone v, stk) else None
  | _ => None
  end.

Definition endNumber (lexeme : jsstring) (stk : list frame) (c : N)
  : option pstate :=
  match complete (JNumber (rev lexeme)) stk with
  | Some (m, stk') => stepBetween m stk' c
  | None => None
  end.

Definition isExp (c : N) : bool := N.eqb c (cu "e") || N.eqb c (cu "E").

Definition stepNumber (ns : numstate) (lexeme : jsstring)
  (stk : list frame) (c : N) : option pstate :=
  let continue ns' := Some (MNumber ns' (c :: lexeme), stk) in
  match ns with
  | NSign =>
      if N.eqb c (cu "0") then continue NZero
      else if digit c then continue NInt else None
  | NZero =>
      if N.eqb c (cu ".") then continue NDot
      else if isExp c then continue NExp
      else endNumber lexeme stk c
  | NInt =>
      if digit c then continue NInt
      else if N.eqb c (cu ".") then continue NDot
      else if isExp c then continue NExp
      else endNumber lexeme stk c
  | NDot => if digit c then continue NFrac else None
  | NFrac =>
      if digit c then continue NFrac
      else if isExp c then continue NExp
      else endNumber lexeme stk c
  | NExp =>
      if N.eqb c (cu "+") || N.eqb c (cu "-") then continue NExpSign
      else if digit c then continue NExpDigits else None
  | NExpSign => if digit c then continue NExpDigits else None
  | NExpDigits =>
      if digit c then continue NExpDigits else endNumber lexeme stk c
  end.

Definition escapeChar (c : N) : option N :=
  if N.eqb c dquote then Some dquote
  else if N.eqb c 92 then Some 92%N
  else if N.eqb c (cu "/") then Some (cu "/")
  else if N.eqb c (cu "b") then Some 8%N
  else if N.eqb c (cu "f") then Some 12%N
  else if N.eqb c (cu "n") then Some 10%N
  else if N.eqb c (cu "r") then Some 13%N
  else if N.eqb c (cu "t") then Some 9%N
  else None.

Definition step (ps : pstate) (c : N) : option pstate :=
  let '(m, stk) := ps in
  match m with
  | MValue mayClose =>
      if jsonWhiteSpace c then Some (m, stk)
      else if N.eqb c (cu "{") then Some (MKey true, FObj [] None :: stk)
      else if N.eqb c (cu "[") then Some (MValue true, FArr [] :: stk)
      else if N.eqb c (cu "]") then
        if mayClose then closeArray stk else None
      else if N.eqb c dquote then Some (MString false [], stk)
      else if N.eqb c (cu "t") then Some (MLiteral (js "rue") (JBool true), stk)
      else if N.eqb c (cu "f")
      then Some (MLiteral (js "alse") (JBool false), stk)
      else if N.eqb c (cu "n") then Some (MLiteral (js "ull") JNull, stk)
      else if N.eqb c (cu "-") then Some (MNumber NSign [c], stk)
      else if N.eqb c (cu "0") then Some (MNumber NZero [c], stk)
      else if digit c then Some (MNumber NInt [c], stk)
      else None
  | MKey mayClose =>
      if jsonWhiteSpace c then Some (m, stk)
      else if N.eqb c dquote then Some (MString true [], stk)
      else if N.eqb c (cu "}") then
        if mayClose then closeObject stk else None
      else None
  | MColon =>
      if jsonWhiteSpace c then Some (m, stk)
      else if N.eqb c (cu ":") then Some (MValue false, stk)
      else None
  | MAfter | MDone _ => stepBetween m stk c
  | MString isKey acc =>
      if N.eqb c dquote then endString isKey (rev acc) stk
      else if N.eqb c 92 then Some (MEscape isKey acc, stk)
      else if N.ltb c 32 then None
      else Some (MString isKey (c :: acc), stk)
  | MEscape isKey acc =>
      if N.eqb c (cu "u") then Some (MUnicode isKey acc [], stk)
      else
        match escapeChar c with
        | Some e => Some (MString isKey (e :: acc), stk)
        | None => None
        end
  | MUnicode isKey acc ds =>
      if hexDigit c then
        match digitValue c, ds with
        | Some d, [d3; d2; d1] =>
            Some (MString isKey
                    (Z.to_N (((d1 * 16 + d2) * 16 + d3) * 16 + d) :: acc), stk)
        | Some d, _ => Some (MUnicode isKey acc (d :: ds), stk)
        | None, _ => None
        end
      else None
  | MLiteral rest v =>
      match rest with
      | [x] => if N.eqb c x then complete v stk else None
      | x :: rest' => if N.eqb c x then Some (MLiteral rest' v, stk) else None
      | [] => None
      end
  | MNumber ns lexeme => stepNumber ns lexeme stk c
  end.

Fixpoint run (ps : pstate) (text : jsstring) : option pstate :=
  match text with
  | [] => Some ps
  | c :: text' =>
      match step ps c with
      | Some ps' => run ps' text'
      | None => None
      end
  end.

(** What the end of the text makes of the state reached. *)
Definition finish (ps : pstate) : option json :=
  match ps with
  | (MDone v, []) => Some v
  | (MNumber (NZero | NInt | NFrac | NExpDigits) lexeme, []) =>
      Some (JNumber (rev lexeme))
  | _ => None
  end.

(** [JSON.parse(text)]; [None] is the SyntaxError it throws. *)
Definition parse (text : jsstring) : option json :=
  match run (MValue false, []) text with
  | Some ps => finish ps
  | None => None
  end.

Fixpoint lookupLast (name : jsstring) (ms : list (jsstring * json))
  (found : option json) : option json :=
  match ms with
  | [] => found
  | (k, v) :: ms' =>
      lookupLast name ms' (if jsstring_eqb k name then Some v else found)
  end.

(** The array index a property name denotes, if it is one in canonical
    form. *)
Definition arrayIndex (name : jsstring) : option nat :=
  match name with
  | [] => None
  | c :: rest =>
      if forallb digit name && (negb (N.eqb c (cu "0")) || (length rest =? 0)%nat)
      then option_map Z.to_nat (readDigits 10 name None)
      else None
  end.

Definition lengthValue (n : nat) : json :=
  JNumber (natToString 10 (Z.of_nat n)).

(** [jsonObj[name]] over the own properties of a parsed value: the outer
    [None] is the TypeError of a property read on [null], the inner one
    is [undefined]. *)
Definition getProp (jsonObj : json) (name : jsstring) : option (option json) :=
  match jsonObj with
  | JNull => None
  | JBool _ | JNumber _ => Some None
  | JString s =>
      if jsstring_eqb name (js "length") then Some (Some (lengthValue (length s)))
      else
        match arrayIndex name with
        | Some i => Some (option_map (fun c => JString [c]) (nth_error s i))
        | None => Some None
        end
  | JArray es =>
      if jsstring_eqb name (js "length") then Some (Some (lengthValue (length es)))
      else
        match arrayIndex name with
        | Some i => Some (nth_error es i)
        | None => Some None
        end
  | JObject ms => Some (lookupLast name ms None)
  end.

End JSON.
Import JSON.

(* ================================================================== *)
(** * Documents *)

Record Position : Type := { line : nat; character : nat }.

Record Range : Type := { start : Position; end_ : Position }.

(** A [TextDocument], by the part of its interface the server calls;
    [getTextIn] is [getText] with a range. *)
Record TextDocument : Type := {
  uri : jsstring;
  languageId : jsstring;
  getText : jsstring;
  positionAt : nat -> Position;
  getTextIn : Range -> jsstring
}.

Definition isEOL (c : N) : bool := N.eqb c 10 || N.eqb c 13.

(** The offsets at which the lines after the first start, latest first:
    a line ends with a line feed, a carriage return or the two in a
    row. *)
Fixpoint lineStarts (text : jsstring) (i : nat) (acc : list nat) : list nat :=
  match text with
  | [] => acc
  | c :: text' =>
      let acc' :=
        if N.eqb c 13 then
          match text' with
          | d :: _ => if N.eqb d 10 then acc else S i :: acc
          | [] => S i :: acc
          end
        else if N.eqb c 10 then S i :: acc
        else acc in
      lineStarts text' (S i) acc'
  end.

Definition lineOffsets (text : jsstring) : list nat :=
  0 :: rev (lineStarts text 0 []).

Fixpoint locate (offsets : list nat) (offset ln start0 : nat) : Position :=
  match offsets with
  | [] => {| line := ln; character := offset - start0 |}
  | o :: offsets' =>
      if Nat.ltb offset o then {| line := ln; character := offset - start0 |}
      else locate offsets' offset (S ln) o
  end.

Definition textPositionAt (text : jsstring) (offset : nat) : Position :=
  locate (tl (lineOffsets text)) (Nat.min offset (length text)) 0 0.

Definition textOffsetAt (text : jsstring) (p : Position) : nat :=
  let offsets := lineOffsets text in
  match nth_error offsets (line p) with
  | None => length text
  | Some lineOffset =>
      let next := nth (S (line p)) offsets (length text) in
      Nat.min (lineOffset + character p) next
  end.

(** The document a text makes, with the line arithmetic of the
    text-document library. *)
Definition mkTextDocument (u lang text : jsstring) : TextDocument := {|
  uri := u;
  languageId := lang;
  getText := text;
  positionAt := textPositionAt text;
  getTextIn := fun r =>
    slice (textOffsetAt text (start r)) (textOffsetAt text (end_ r)) text
|}.

(* ================================================================== *)
(** * The server's state *)

Record CachedVariable : Type := {
  color : jsstring;
  range : Range
}.

(** [IColors]; the colour of a token can be [undefined], which is
    [None]: the interface is only checked at compile time. *)
Record IColors : Type := {
  ic_range : Range;
  ic_color : option jsstring
}.

Record Notification : Type := {
  method : jsstring;
  count : Z
}.

Definition VariableMap : Type := list (jsstring * CachedVariable).
Definition TokenCache : Type := list (jsstring * VariableMap).

(** The module level variables, the open documents, the answer of the
    client to a [workspace/configuration] request and the notifications
    sent so far, latest last. *)
Record Server : Type := {
  colorTokenCache : TokenCache;
  hasConfigurationCapability : bool;
  cachedLanguages : option (list jsstring);
  cachedCSSLanguages : option (list jsstring);
  documents : list TextDocument;
  remoteConfiguration : JSONColorTokenSettings;
  sent : list Notification
}.

Definition globalSettings : JSONColorTokenSettings := defaultSettings.

(** ** Objects as dictionaries

    An object is the list of its slots in the order of their creation:
    the own properties, each under its name, and under [__proto__] the
    object that an assignment to [obj["__proto__"]] has made the
    prototype, for that assignment creates no property (it calls the
    setter every object inherits). *)

(** The array index a property name denotes, if it is one in canonical
    form: at most [2^32 - 2]. *)
Definition integerIndex (key : jsstring) : option Z :=
  match key with
  | [] => None
  | c :: rest =>
      if forallb digit key
         && (negb (N.eqb c (cu "0")) || Nat.eqb (length rest) 0)
      then
        match readDigits 10 key None with
        | Some i => if Z.leb i 4294967294 then Some i else None
        | None => None
        end
      else None
  end.

(** The array indices among the names, by increasing index. *)
Fixpoint insertIndex (i : Z) (key : jsstring) (l : list (Z * jsstring))
  : list (Z * jsstring) :=
  match l with
  | [] => [(i, key)]
  | (j, key') :: l' =>
      if Z.leb i j then (i, key) :: l else (j, key') :: insertIndex i key l'
  end.

Fixpoint indexKeys (names : list jsstring) : list (Z * jsstring) :=
  match names with
  | [] => []
  | key :: names' =>
      match integerIndex key with
      | Some i => insertIndex i key (indexKeys names')
      | None => indexKeys names'
      end
  end.

Definition isIndex (key : jsstring) : bool :=
  match integerIndex key with Some _ => true | None => false end.

Section Dictionary.
Context {V : Type}.

(** The slot of [key]: an own property for every key but [__proto__];
    [None] when there is none. *)
Fixpoint lookup (key : jsstring) (obj : list (jsstring * V)) : option V :=
  match obj with
  | [] => None
  | (k, v) :: obj' => if jsstring_eqb key k then Some v else lookup key obj'
  end.

(** [obj[key] = v]: an existing slot keeps its place, a new one goes
    last.  Under [__proto__] the assignment of an object fills the slot
    of the prototype and creates no property. *)
Fixpoint assign (key : jsstring) (v : V) (obj : list (jsstring * V))
  : list (jsstring * V) :=
  match obj with
  | [] => [(key, v)]
  | (k, w) :: obj' =>
      if jsstring_eqb key k then (k, v) :: obj'
      else (k, w) :: assign key v obj'
  end.

(** [delete obj[key]]. *)
Fixpoint remove (key : jsstring) (obj : list (jsstring * V))
  : list (jsstring * V) :=
  match obj with
  | [] => []
  | (k, w) :: obj' =>
      if jsstring_eqb key k then remove key obj'
      else (k, w) :: remove key obj'
  end.

(** The keys of the slots, in the order of their creation. *)
Definition names (obj : list (jsstring * V)) : list jsstring :=
  map fst obj.

(** [Object.keys(obj)]: the array indices by increasing index, then the
    other names in the order of their creation. *)
Definition keys (obj : list (jsstring * V)) : list jsstring :=
  map snd (indexKeys (names obj))
    ++ filter (fun key => negb (isIndex key)) (names obj).

Definition has (key : jsstring) (obj : list (jsstring * V)) : bool :=
  match lookup key obj with Some _ => true | None => false end.
End Dictionary.

(** ** The state monad of the handlers *)

Definition M (A : Type) : Type := Server -> A * Server.

Definition ret {A : Type} (a : A) : M A := fun st => (a, st).

Definition bind {A B : Type} (m : M A) (k : A -> M B) : M B :=
  fun st => let '(a, st') := m st in k a st'.

Notation "x <- m ;; k" := (bind m (fun x => k))
  (at level 61, m at next level, right associativity).
Notation "m ;;; k" := (bind m (fun _ => k))
  (at level 61, right associativity).

Definition get : M Server := fun st => (st, st).

Definition setCachedLanguages (l : list jsstring) : M unit := fun st =>
  (tt, {| colorTokenCache := colorTokenCache st;
          hasConfigurationCapability := hasConfigurationCapability st;
          cachedLanguages := Some l;
          cachedCSSLanguages := cachedCSSLanguages st;
          documents := documents st;
          remoteConfiguration := remoteConfiguration st;
          sent := sent st |}).

Definition setCachedCSSLanguages (l : list jsstring) : M unit := fun st =>
  (tt, {| colorTokenCache := colorTokenCache st;
          hasConfigurationCapability := hasConfigurationCapability st;
          cachedLanguages := cachedLanguages st;
          cachedCSSLanguages := Some l;
          documents := documents st;
          remoteConfiguration := remoteConfiguration st;
          sent := sent st |}).

Definition setColorTokenCache (c : TokenCache) : M unit := fun st =>
  (tt, {| colorTokenCache := c;
          hasConfigurationCapability := hasConfigurationCapability st;
          cachedLanguages := cachedLanguages st;
          cachedCSSLanguages := cachedCSSLanguages st;
          documents := documents st;
          remoteConfiguration := remoteConfiguration st;
          sent := sent st |}).

(** [connection.sendNotification(method, { count })]. *)
Definition sendNotification (m : jsstring) (c : Z) : M unit := fun st =>
  (tt, {| colorTokenCache := colorTokenCache st;
          hasConfigurationCapability := hasConfigurationCapability st;
          cachedLanguages := cachedLanguages st;
          cachedCSSLanguages := cachedCSSLanguages st;
          documents := documents st;
          remoteConfiguration := remoteConfiguration st;
          sent := sent st ++ [{| method := m; count := c |}] |}).

Definition getRemoteConfiguration : M JSONColorTokenSettings :=
  fun st => (remoteConfiguration st, st).

Definition getGlobalSettings : M JSONColorTokenSettings :=
  st <- get ;;
  if negb (hasConfigurationCapability st) then ret globalSettings
  else getRemoteConfiguration.

(** An array is truthy even when empty, so [!cached] tests for
    [undefined]. *)
Definition undefined {A : Type} (o : option A) : bool :=
  match o with Some _ => false | None => true end.

Definition orEmpty (o : option (list jsstring)) : list jsstring :=
  match o with Some l => l | None => [] end.

Definition isColorLanguage (languageId : jsstring) : M bool :=
  st <- get ;;
  (if undefined (cachedLanguages st) || undefined (cachedCSSLanguages st)
   then
     settings <- getRemoteConfiguration ;;
     setCachedLanguages (languages settings) ;;;
     setCachedCSSLanguages (cssLanguages settings)
   else ret tt) ;;;
  st <- get ;;
  ret (negb (includes languageId (orEmpty (cachedCSSLanguages st)))
       && includes languageId (orEmpty (cachedLanguages st))).

Definition isCSSLanguage (languageId : jsstring) : M bool :=
  st <- get ;;
  (if undefined (cachedCSSLanguages st)
   then
     settings <- getRemoteConfiguration ;;
     setCachedCSSLanguages (cssLanguages settings)
   else ret tt) ;;;
  st <- get ;;
  ret (includes languageId (orEmpty (cachedCSSLanguages st))).

(** [documents.get(uri)]. *)
Definition documentsGet (u : jsstring) : M (option TextDocument) :=
  st <- get ;;
  ret (find (fun d => jsstring_eqb (uri d) u) (documents st)).

(* ================================================================== *)
(** * The token cache *)

(** The outcome of a block that may throw. *)
Inductive completion (A : Type) : Type :=
| Normal : A -> completion A
| Throw : completion A.
Arguments Normal {A} _.
Arguments Throw {A}.

(** [try { body } catch (error) { handler }]. *)
Definition tryCatch {A : Type} (body : completion A) (handler : A) : A :=
  match body with
  | Normal a => a
  | Throw => handler
  end.

Definition isColorToken (token : option json) : bool :=
  match token with
  | Some (JString s) => test colorTokenPattern s
  | _ => false
  end.

(** A value that [isColorToken] accepts is a string. *)
Definition stringValue (token : option json) : jsstring :=
  match token with
  | Some (JString s) => s
  | _ => []
  end.

Definition isJson (languageId : jsstring) : bool :=
  jsstring_eqb languageId (js "json") || jsstring_eqb languageId (js "jsonc").

Definition isCpp (languageId : jsstring) : bool :=
  jsstring_eqb languageId (js "cpp") || jsstring_eqb languageId (js "c++").

(** [a ?? b]. *)
Definition nullish {A : Type} (a b : option A) : option A :=
  match a with Some _ => a | None => b end.

(** The loop over the keys of [updateColorTokenCache], from [lastIndex]
    on; a property read on [null] throws. *)
Fixpoint keyLoop (fuel : nat) (textDocument : TextDocument) (text : jsstring)
  (jsonObj : json) (lastIndex : nat) (colorTokenObj : VariableMap)
  : completion VariableMap :=
  match fuel with
  | O => Normal colorTokenObj
  | S fuel' =>
      match exec jsonKeyPattern text lastIndex with
      | None => Normal colorTokenObj
      | Some m =>
          let next := keyLoop fuel' textDocument text jsonObj (endIndex m) in
          match nullish (group m varDoulbeQuote) (group m varSingleQuote) with
          | Some variableName =>
              if truthy variableName then
                match getProp jsonObj variableName with
                | None => Throw
                | Some token =>
                    if isColorToken token then
                      next (assign variableName
                              {| color := stringValue token;
                                 range :=
                                   {| start := positionAt textDocument (index m);
                                      end_ := positionAt textDocument
                                                (index m + length variableName) |} |}
                              colorTokenObj)
                    else next colorTokenObj
                end
              else next colorTokenObj
          | None => next colorTokenObj
          end
      end
  end.

(** The body of the [try] of [updateColorTokenCache], up to the
    assignment that ends it and cannot throw: the new entry of the
    document, if it is a JSON document. *)
Definition updateBody (textDocument : TextDocument)
  : completion (option VariableMap) :=
  let text := getText textDocument in
  if isJson (languageId textDocument) then
    match JSON.parse text with
    | None => Throw
    | Some jsonObj =>
        match keyLoop (S (length text)) textDocument text jsonObj 0 [] with
        | Normal colorTokenObj => Normal (Some colorTokenObj)
        | Throw => Throw
        end
    end
  else Normal None.

Definition updateColorTokenCache (textDocument : TextDocument)
  : M (completion unit) :=
  colorLanguage <- isColorLanguage (languageId textDocument) ;;
  (if colorLanguage then
     match tryCatch (updateBody textDocument) None with
     | Some colorTokenObj =>
         st <- get ;;
         setColorTokenCache
           (assign (uri textDocument) colorTokenObj (colorTokenCache st))
     | None => ret tt
     end
   else ret tt) ;;;
  ret (Normal tt).

(** [documents.onDidChangeContent]. *)
Definition onDidChangeContent (document : TextDocument)
  : M (completion unit) :=
  updateColorTokenCache document.

(** [documents.onDidClose]. *)
Definition onDidClose (document : TextDocument) : M unit :=
  st <- get ;;
  if has (uri document) (colorTokenCache st)
  then setColorTokenCache (remove (uri document) (colorTokenCache st))
  else ret tt.

(** The variable that the table cached for [u] records under
    [variableName]: a slot of [colorTokenCache[u]]. *)
Definition cached (cache : TokenCache) (u variableName : jsstring)
  : option CachedVariable :=
  match lookup u cache with
  | Some variables => lookup variableName variables
  | None => None
  end.

(** ** Reading a table

    A table is created as [{}]: what it does not hold itself it inherits
    from [Object.prototype], or from the object that the key
    [__proto__] of a JSON text has made its prototype. *)

(** The properties of [Object.prototype]: eleven functions and the
    accessor [__proto__], which gives the prototype; all of them are
    truthy and none has a property [color] or [range]. *)
Definition objectPrototypeNames : list jsstring :=
  [js "constructor"; js "__defineGetter__"; js "__defineSetter__";
   js "hasOwnProperty"; js "__lookupGetter__"; js "__lookupSetter__";
   js "isPrototypeOf"; js "propertyIsEnumerable"; js "toString";
   js "valueOf"; js "__proto__"; js "toLocaleString"].

Definition inherited (name : jsstring) : bool :=
  includes name objectPrototypeNames.

Definition protoKey : jsstring := js "__proto__".

(** What [table[name]] is when it is truthy: a variable of the table, or
    a value that the table inherits and that has neither a [color] nor a
    [range]. *)
Inductive Member : Type :=
| Own : CachedVariable -> Member
| Inherited : Member.

(** [variables[name]], [None] being a falsy value.  A slot is read as it
    is, the one of [__proto__] being the prototype, which has the colour
    and the range of a variable; then come the properties of
    [Object.prototype]; and when the prototype has been replaced by a
    variable, its [color], a string, and its [range]. *)
Definition member (variables : VariableMap) (name : jsstring)
  : option Member :=
  match lookup name variables with
  | Some v => Some (Own v)
  | None =>
      if inherited name then Some Inherited
      else
        match lookup protoKey variables with
        | Some prototype =>
            if jsstring_eqb name (js "color")
            then if truthy (color prototype) then Some Inherited else None
            else if jsstring_eqb name (js "range") then Some Inherited
            else None
        | None => None
        end
  end.

(** [colorTokenCache[uri][variableName]], for a key [uri] of the
    cache. *)
Definition cacheMember (cache : TokenCache) (u variableName : jsstring)
  : option Member :=
  match lookup u cache with
  | Some variables => member variables variableName
  | None => None
  end.

(** [!!colorTokenCache[uri][variableName]]. *)
Definition hasMember (cache : TokenCache) (variableName u : jsstring)
  : bool :=
  match cacheMember cache u variableName with
  | Some _ => true
  | None => false
  end.

(** [colorTokenCache[uri][variableName].color], read once the member
    has been seen: [None] is [undefined]. *)
Definition cachedColor (cache : TokenCache) (u variableName : jsstring)
  : option jsstring :=
  match cacheMember cache u variableName with
  | Some (Own v) => Some (color v)
  | _ => None
  end.

(** [colorTokenCache[uri][variableName].range], read once the member
    has been seen: [None] is [undefined]. *)
Definition cachedRange (cache : TokenCache) (u variableName : jsstring)
  : option Range :=
  match cacheMember cache u variableName with
  | Some (Own v) => Some (range v)
  | _ => None
  end.

(* ================================================================== *)
(** * Detection *)

Definition tokenAt (textDocument : TextDocument) (i len : nat)
  (c : jsstring) : IColors :=
  {| ic_range := {| start := positionAt textDocument i;
                    end_ := positionAt textDocument (i + len) |};
     ic_color := Some c |}.

(** The loop over the hexadecimal tokens. *)
Fixpoint hexLoop (fuel : nat) (textDocument : TextDocument) (text : jsstring)
  (maxNumberOfColorTokens : Z) (lastIndex : nat) (numTokens : Z)
  (colors : list IColors) : Z * list IColors :=
  match fuel with
  | O => (numTokens, colors)
  | S fuel' =>
      match exec colorTokenPattern text lastIndex with
      | None => (numTokens, colors)
      | Some m =>
          if Z.ltb numTokens maxNumberOfColorTokens then
            let color := matched m in
            hexLoop fuel' textDocument text maxNumberOfColorTokens
              (endIndex m) (numTokens + 1)
              (colors ++ [tokenAt textDocument (index m) (length color) color])
          else (numTokens, colors)
      end
  end.

(** The loop over the arrays of a C++ document. *)
Fixpoint rgbLoop (fuel : nat) (textDocument : TextDocument) (text : jsstring)
  (maxNumberOfColorTokens : Z) (lastIndex : nat) (numTokens : Z)
  (colors : list IColors) : Z * list IColors :=
  match fuel with
  | O => (numTokens, colors)
  | S fuel' =>
      match exec rgbArrayPattern text lastIndex with
      | None => (numTokens, colors)
      | Some rgbMatch =>
          if Z.ltb numTokens maxNumberOfColorTokens then
            let hexColor := rgbMatchToHex rgbMatch in
            rgbLoop fuel' textDocument text maxNumberOfColorTokens
              (endIndex rgbMatch) (numTokens + 1)
              (colors ++ [tokenAt textDocument (index rgbMatch)
                            (length (matched rgbMatch)) hexColor])
          else (numTokens, colors)
      end
  end.

(** [m.groups?.cssVar || ""]. *)
Definition cssVarOf (m : Match) : jsstring :=
  match group m cssVar with
  | Some s => s
  | None => []
  end.

(** [Object.keys(colorTokenCache).find(...)]: the first key of the
    cache whose table yields something truthy for [variableName]. *)
Definition findDocument (cache : TokenCache) (variableName : jsstring)
  : option jsstring :=
  find (hasMember cache variableName) (keys cache).

(** The loop over the references of a style sheet. *)
Fixpoint cssLoop (fuel : nat) (textDocument : TextDocument) (text : jsstring)
  (cache : TokenCache) (lastIndex : nat) (colors : list IColors)
  : list IColors :=
  match fuel with
  | O => colors
  | S fuel' =>
      match exec cssVariablePattern text lastIndex with
      | None => colors
      | Some m =>
          let variableName := cssVarOf m in
          let next := cssLoop fuel' textDocument text cache (endIndex m) in
          match findDocument cache variableName with
          | Some documentUri =>
              if truthy documentUri then
                next (colors ++
                        [{| ic_range :=
                              {| start := positionAt textDocument (index m);
                                 end_ := positionAt textDocument
                                           (index m + length (matched m)) |};
                            ic_color :=
                              cachedColor cache documentUri variableName |}])
              else next colors
          | None => next colors
          end
      end
  end.

Definition findColorTokens (textDocument : TextDocument) : M (list IColors) :=
  let text := getText textDocument in
  settings <- getGlobalSettings ;;
  let maxNumberOfColorTokens := maxNumberOfColorTokens settings in
  colorLanguage <- isColorLanguage (languageId textDocument) ;;
  if colorLanguage then
    let '(numTokens, colors) :=
      hexLoop (S (length text)) textDocument text maxNumberOfColorTokens
        0 0%Z [] in
    let '(numTokens, colors) :=
      if isCpp (languageId textDocument)
      then rgbLoop (S (length text)) textDocument text maxNumberOfColorTokens
             0 numTokens colors
      else (numTokens, colors) in
    (if Z.eqb numTokens maxNumberOfColorTokens
     then sendNotification maxNumberOfColorTokensNotificationNamespace
            maxNumberOfColorTokens
     else ret tt) ;;;
    ret colors
  else
    cssLanguage <- isCSSLanguage (languageId textDocument) ;;
    if cssLanguage then
      st <- get ;;
      ret (cssLoop (S (length text)) textDocument text (colorTokenCache st) 0 [])
    else ret [].

(* ================================================================== *)
(** * Requests *)

(** A location; its range can be [undefined], which is [None]. *)
Record Location : Type := {
  loc_uri : jsstring;
  loc_range : option Range
}.

Record ColorInformation : Type := {
  ci_range : Range;
  ci_color : Color
}.

(** [connection.onDefinition]; [None] is the [undefined] of a handler
    that returns nothing. *)
Definition onDefinition (textDocumentUri : jsstring) (position : Position)
  : M (option (list Location)) :=
  textDocumentObj <- documentsGet textDocumentUri ;;
  match textDocumentObj with
  | None => ret None
  | Some textDocumentObj =>
      cssLanguage <- isCSSLanguage (languageId textDocumentObj) ;;
      if cssLanguage then
        let lineText := getTextIn textDocumentObj
          {| start := {| line := line position; character := 0 |};
             end_ := {| line := line position + 1; character := 0 |} |} in
        match exec cssVariablePattern lineText 0 with
        | Some m =>
            let variableName := cssVarOf m in
            st <- get ;;
            let cache := colorTokenCache st in
            let documentUris :=
              filter (hasMember cache variableName) (keys cache) in
            ret (Some (map (fun u => {| loc_uri := u;
                                        loc_range := cachedRange cache u variableName |})
                           documentUris))
        | None => ret None
        end
      else ret None
  end.

(** [colors.map(...)] in [onDocumentColor]: [parseColor] reads the
    length of the colour first, which throws a TypeError when the colour
    is [undefined]. *)
Fixpoint colorInformationArray (colors : list IColors)
  : completion (list ColorInformation) :=
  match colors with
  | [] => Normal []
  | colorObj :: colors' =>
      match ic_color colorObj with
      | None => Throw
      | Some c =>
          match colorInformationArray colors' with
          | Normal informations =>
              Normal ({| ci_range := ic_range colorObj;
                         ci_color := parseColor c |} :: informations)
          | Throw => Throw
          end
      end
  end.

(** [connection.onDocumentColor]; [Throw] is the rejection of the
    promise the handler returns. *)
Definition onDocumentColor (textDocumentUri : jsstring)
  : M (completion (list ColorInformation)) :=
  document <- documentsGet textDocumentUri ;;
  match document with
  | None => ret (Normal [])
  | Some document =>
      colors <- findColorTokens document ;;
      ret (colorInformationArray colors)
  end.

(** [connection.onColorPresentation]: the labels offered. *)
Definition onColorPresentation (textDocumentUri : jsstring) (c : Color)
  : M (list jsstring) :=
  document <- documentsGet textDocumentUri ;;
  match document with
  | None => ret []
  | Some document =>
      colorLanguage <- isColorLanguage (languageId document) ;;
      if colorLanguage then
        settings <- getGlobalSettings ;;
        if isCpp (languageId document) then ret [colorToRgbArray c]
        else ret [stringifyColor c (colorTokenCasing settings)]
      else ret []
  end.

(* ================================================================== *)
(** * The matcher, relationally *)

(** [reach r st st']: matching [r] from the state [st] can end in the
    state [st']. *)
Inductive reach : regex -> mstate -> mstate -> Prop :=
| reach_Empty : forall st, reach Empty st st
| reach_Class : forall p c s st,
    m_rest st = c :: s -> p c = true -> reach (Class p) st (advance c s st)
| reach_Seq : forall a b st st1 st2,
    reach a st st1 -> reach b st1 st2 -> reach (Seq a b) st st2
| reach_AltL : forall a b st st1, reach a st st1 -> reach (Alt a b) st st1
| reach_AltR : forall a b st st1, reach b st st1 -> reach (Alt a b) st st1
| reach_StarDone : forall a st, reach (Star a) st st
| reach_StarStep : forall a st st1 st2,
    reach a st st1 -> m_pos st < m_pos st1 -> reach (Star a) st1 st2 ->
    reach (Star a) st st2
| reach_Group : forall g a st st1,
    reach a (open_group st) st1 -> reach (Group g a) st (close_group g st st1)
| reach_LookAhead : forall a st st1,
    reach a st st1 -> reach (LookAhead a) st st
| reach_PrecededBy : forall p c st,
    m_prev st = Some c -> p c = true -> reach (PrecededBy p) st st.

(** Every match of [r] takes at least one code unit, by the shape of
    [r]. *)
Fixpoint consuming (r : regex) : bool :=
  match r with
  | Class _ => true
  | Seq a b => consuming a || consuming b
  | Alt a b => consuming a && consuming b
  | Group _ a => consuming a
  | Empty | Star _ | LookAhead _ | PrecededBy _ => false
  end.

(** [r] has no capturing group. *)
Fixpoint groupFree (r : regex) : bool :=
  match r with
  | Empty | Class _ | PrecededBy _ => true
  | Seq a b | Alt a b => groupFree a && groupFree b
  | Star a | LookAhead a => groupFree a
  | Group _ _ => false
  end.

(* ================================================================== *)
(** * Notions of the specification *)

(** The token a match of [colorTokenPattern] stands for. *)
Definition hexToken (textDocument : TextDocument) (m : Match) : IColors :=
  tokenAt textDocument (index m) (length (matched m)) (matched m).

(** The token a match of [rgbArrayPattern] stands for. *)
Definition rgbToken (textDocument : TextDocument) (m : Match) : IColors :=
  tokenAt textDocument (index m) (length (matched m)) (rgbMatchToHex m).

(** The matches of a pattern in the text of a document, in text order. *)
Definition matchesIn (r : regex) (textDocument : TextDocument) : list Match :=
  execAll (S (length (getText textDocument))) r (getText textDocument) 0.

(** The cap in force for a request. *)
Definition capOf (st : Server) : Z :=
  maxNumberOfColorTokens (fst (getGlobalSettings st)).

(** The document is classified as a colour language by a request
    received in state [st]. *)
Definition colorDocument (st : Server) (textDocument : TextDocument) : bool :=
  fst (isColorLanguage (languageId textDocument) st).

(** The document is classified as a reference language: the second test
    of [findColorTokens], made once the first has filled the cached
    language lists. *)
Definition referenceDocument (st : Server) (textDocument : TextDocument)
  : bool :=
  fst (isCSSLanguage (languageId textDocument)
         (snd (isColorLanguage (languageId textDocument) st))).


(** The cap bounds the tokens detected. *)
Definition capBoundsOutput (st : Server) (textDocument : TextDocument) : Prop :=
  (Z.of_nat (length (fst (findColorTokens textDocument st))) <= capOf st)%Z.

(** The advisory notification for a cap. *)
Definition capNotification (cap : Z) : Notification :=
  {| method := maxNumberOfColorTokensNotificationNamespace; count := cap |}.

(** What is left of the cap after [n] tokens. *)
Definition budget (cap n : Z) : nat := Z.to_nat (cap - n).

(** The string is a colour token, from its first code unit to its last. *)
Definition validColorToken (s : jsstring) : bool :=
  matchesWhole colorTokenPattern s.

(** What the key loop maintains of every variable it records: the
    parsed value maps the name, at its top level, to a string that holds
    a colour token, and that string is the colour recorded. *)
Definition topLevelColor (jsonObj : json) (name : jsstring)
  (v : CachedVariable) : Prop :=
  exists s,
    getProp jsonObj name = Some (Some (JString s))
    /\ test colorTokenPattern s = true
    /\ color v = s.

(** The cached document [u] holds the variable. *)
Definition defines (variableName : jsstring) (cache : TokenCache)
  (u : jsstring) : bool :=
  match cached cache u variableName with
  | Some _ => true
  | None => false
  end.

(** Token Cache [lookup] of the specification: the first cached document,
    in the order of the cache, that holds the variable, with what it
    holds. *)
Fixpoint specLookup (cache : TokenCache) (variableName : jsstring)
  : option (jsstring * CachedVariable) :=
  match cache with
  | [] => None
  | (u, variables) :: cache' =>
      match lookup variableName variables with
      | Some v => Some (u, v)
      | None => specLookup cache' variableName
      end
  end.

(** The token the specification gives a reference: the cached colour at
    the range of the reference itself, or nothing when no document
    defines the name. *)
Definition resolveReference (cache : TokenCache) (textDocument : TextDocument)
  (m : Match) : list IColors :=
  match specLookup cache (cssVarOf m) with
  | Some (_, v) =>
      [{| ic_range := {| start := positionAt textDocument (index m);
                         end_ := positionAt textDocument (endIndex m) |};
          ic_color := Some (color v) |}]
  | None => []
  end.

(** The definitions of a variable: one location per cached document that
    holds it, in the order of the cache. *)
Fixpoint specDefinitions (cache : TokenCache) (variableName : jsstring)
  : list Location :=
  match cache with
  | [] => []
  | (u, variables) :: cache' =>
      match lookup variableName variables with
      | Some v => {| loc_uri := u; loc_range := Some (range v) |}
                    :: specDefinitions cache' variableName
      | None => specDefinitions cache' variableName
      end
  end.




(** A colour component that is [k / 255]. *)
Definition channel (k : Z) : float := (Z2float k / 255)%float.

(** The colour of three bytes, opaque. *)
Definition rgb (r g b : Z) : Color :=
  {| red := channel r; green := channel g; blue := channel b;
     alpha := 1%float |}.

(** The specification's [decodeTriplet], on the text of a triplet: the
    colour the triplet loop and then [parseColor] make of its match. *)
Definition decodeTriplet (text : jsstring) : option Color :=
  match exec rgbArrayPattern text 0 with
  | Some rgbMatch => Some (parseColor (rgbMatchToHex rgbMatch))
  | None => None
  end.

(** The byte a decimal literal denotes. *)
Definition decimalValue (w : jsstring) : Z :=
  match readDigits 10 w None with
  | Some v => v
  | None => 0%Z
  end.

(** [w] starts with a zero that another code unit follows. *)
Definition leadingZero (w : jsstring) : bool :=
  match w with
  | z :: _ :: _ => N.eqb z (cu "0")
  | _ => false
  end.

(** [w] is the decimal literal of a byte, written with no leading zero,
    and [parseInt] reads it as that byte. *)
Definition byteLiteral (w : jsstring) : Prop :=
  (0 <= decimalValue w <= 255)%Z
  /\ leadingZero w = false
  /\ w = toStringRadix 10 (IInt (decimalValue w))
  /\ parseInt w 10 = IInt (decimalValue w).

(* ================================================================== *)
(** * The 256 bytes *)

(** The values of a byte. *)
Definition bytes : list Z := map Z.of_nat (seq 0 256).

(** The two hexadecimal digits of a byte. *)
Definition hexDigits (k : Z) : jsstring :=
  [digitChar (k / 16); digitChar (k mod 16)].

(** What the codec does with the component [k / 255]: scaled and
    floored it is [k] again; its code is the two hexadecimal digits of
    [k], which in either case are read back as the same component; and
    it is below one unless [k] is 255. *)
Definition hexByteFacts (k : Z) : Prop :=
  Math_floor (channel k * 255)%float = IInt k
  /\ valueToCode (channel k) = hexDigits k
  /\ (toNumber (parseInt (toUpperCase (hexDigits k)) 16) / 255)%float
     = channel k
  /\ (toNumber (parseInt (toLowerCase (hexDigits k)) 16) / 255)%float
     = channel k
  /\ (channel k <? 1)%float = (k <? 255)%Z.

(** What the triplet path does with the byte [k]: its decimal form is
    read back as [k], and its padded hexadecimal form, the two digits of
    [k], as the component [k / 255]. *)
Definition tripletByteFacts (k : Z) : Prop :=
  parseInt (toStringRadix 10 (IInt k)) 10 = IInt k
  /\ padStart2 (toStringRadix 16 (IInt k)) = hexDigits k
  /\ (toNumber (parseInt (hexDigits k) 16) / 255)%float = channel k
  /\ forallb digit (toStringRadix 10 (IInt k)) = true.

(** The state of the matcher once a component [w], with no white space
    around it, has been matched by groups [g1], [g2] and [g3], [sep]
    being the separator that follows. *)
Definition afterComponent (g1 g2 g3 : nat) (w : jsstring) (sep : N)
  (tail : jsstring) (st : mstate) : mstate :=
  MState (length w + m_pos st) (Some (last w 0%N)) (rev w ++ m_acc st)
    ((g3, []) :: (g2, w) :: (g1, []) :: m_caps st) (sep :: tail).

(** The three groups of a component match the decimal form of the byte
    [k] when a comma or a closing brace follows, and this is the first
    way of matching that the continuation accepts. *)
Definition componentMatches (k : Z) : Prop :=
  forall g1 g2 g3 p pv acc caps sep tail K res,
    (sep = cu "," \/ sep = cu "}") ->
    let w := toStringRadix 10 (IInt k) in
    let st := MState p pv acc caps (w ++ sep :: tail) in
    K (afterComponent g1 g2 g3 w sep tail st) = Some res ->
    mt (Group g1 (Star (Class whiteSpace))) st
       (fun s1 => mt (Group g2 rgbComponent) s1
          (fun s2 => mt (Group g3 (Star (Class whiteSpace))) s2 K))
    = Some res.

(* ================================================================== *)
(** * Example documents *)

(** A server that has just started, with [docs] open and [settings] the
    client's configuration. *)
Definition startServer (capability : bool) (settings : JSONColorTokenSettings)
  (docs : list TextDocument) : Server := {|
  colorTokenCache := [];
  hasConfigurationCapability := capability;
  cachedLanguages := None;
  cachedCSSLanguages := None;
  documents := docs;
  remoteConfiguration := settings;
  sent := []
|}.

Definition capOne : JSONColorTokenSettings := {|
  maxNumberOfColorTokens := 1;
  colorTokenCasing := Uppercase;
  languages := languages defaultSettings;
  cssLanguages := cssLanguages defaultSettings
|}.

Definition capMinusOne : JSONColorTokenSettings := {|
  maxNumberOfColorTokens := -1;
  colorTokenCasing := Uppercase;
  languages := languages defaultSettings;
  cssLanguages := cssLanguages defaultSettings
|}.

(** A colour table with one entry, [primary], of value [#336699]. *)
Definition themeJson : TextDocument :=
  mkTextDocument (js "file:///theme.json") (js "json")
    (js "{" ++ quoted (js "primary") ++ js ": " ++ quoted (js "#336699")
       ++ js "}").

(** Its next version, cut short. *)
Definition themeJsonBroken : TextDocument :=
  mkTextDocument (js "file:///theme.json") (js "json")
    (js "{" ++ quoted (js "primary") ++ js ": " ++ quoted (js "#00ff00")
       ++ js ",").

(** A style sheet with two references to [primary] and one to a name
    that nothing defines. *)
Definition styleCss : TextDocument :=
  mkTextDocument (js "file:///style.css") (js "css")
    (js "a { color: var(--primary); }" ++ [10%N]
       ++ js "b { color: var(--missing); border-color: var(--primary); }").

(** A table whose value holds a colour inside other text. *)
Definition borderJson : TextDocument :=
  mkTextDocument (js "file:///border.json") (js "json")
    (js "{" ++ quoted (js "border") ++ js ": "
       ++ quoted (js "1px solid #fff") ++ js "}").

(** A table whose colours sit one level down. *)
Definition nestedJson : TextDocument :=
  mkTextDocument (js "file:///nested.json") (js "json")
    (js "{" ++ quoted (js "palette") ++ js ": {" ++ quoted (js "accent")
       ++ js ": " ++ quoted (js "#ff0000") ++ js "}}").

(** A table of three colours. *)
Definition paletteJson : TextDocument :=
  mkTextDocument (js "file:///palette.json") (js "json")
    (js "{" ++ quoted (js "a") ++ js ": " ++ quoted (js "#112233") ++ js ", "
       ++ quoted (js "b") ++ js ": " ++ quoted (js "#abc") ++ js ", "
       ++ quoted (js "c") ++ js ": " ++ quoted (js "#44556677") ++ js "}").

(** A second table that defines [primary]. *)
Definition otherJson : TextDocument :=
  mkTextDocument (js "file:///other.json") (js "jsonc")
    (js "{" ++ quoted (js "primary") ++ js ": " ++ quoted (js "#fff") ++ js "}").

(** The state once [themeJson] has been opened. *)
Definition themeLoaded : Server :=
  snd (onDidChangeContent themeJson
         (startServer true capOne [themeJson; styleCss])).


(** The state once [borderJson] has been opened. *)
Definition borderLoaded : Server :=
  snd (onDidChangeContent borderJson
         (startServer false defaultSettings [borderJson])).

(** A server with a cap of one and [paletteJson] open. *)
Definition paletteServer : Server := startServer true capOne [paletteJson].

(** Three positions in [styleCss]: in the first line before its
    reference, in the first line inside its reference, and in the second
    line inside the reference to [primary], which is the second of that
    line. *)
Definition beforeReference : Position := {| line := 0; character := 0 |}.

(** Where [themeJson] and [otherJson] define [primary]: the key, without
    its quotes. *)
Definition primaryKey : Range :=
  {| start := {| line := 0; character := 2 |};
     end_ := {| line := 0; character := 9 |} |}.

(** A colour with components [51 / 255], [102 / 255] and [153 / 255],
    half transparent. *)
Definition steelBlue : Color :=
  {| red := channel 51; green := channel 102; blue := channel 153;
     alpha := channel 128 |}.

(** A colour whose red is not a multiple of [1 / 255]. *)
Definition halfRed : Color :=
  {| red := 0.5%float; green := 0%float; blue := 0%float;
     alpha := 1%float |}.

(* ================================================================== *)
(** * Further notions and example documents *)

(** The string has the form of a document URI, as the client sends
    them: it holds the colon that ends the scheme. *)
Definition documentUri (u : jsstring) : bool :=
  existsb (N.eqb (cu ":")) u.

(** The keys of the cache are distinct document URIs. *)
Definition documentCache (cache : TokenCache) : Prop :=
  NoDup (names cache) /\ Forall (fun u => documentUri u = true) (names cache).

(** No table of the cache yields, for [variableName], something that it
    inherits: each yields the variable it records under that name, or
    nothing. *)
Definition ownReads (cache : TokenCache) (variableName : jsstring) : Prop :=
  Forall (fun entry =>
            member (snd entry) variableName
            = option_map Own (lookup variableName (snd entry))) cache.

(** What the loop over the references makes of one reference. *)
Definition referenceTokens (cache : TokenCache) (textDocument : TextDocument)
  (m : Match) : list IColors :=
  match findDocument cache (cssVarOf m) with
  | Some documentUri =>
      if truthy documentUri then
        [{| ic_range :=
              {| start := positionAt textDocument (index m);
                 end_ := positionAt textDocument
                           (index m + length (matched m)) |};
            ic_color := cachedColor cache documentUri (cssVarOf m) |}]
      else []
  | None => []
  end.

(** A style sheet that refers to a name every object inherits. *)
Definition constructorCss : TextDocument :=
  mkTextDocument (js "file:///constructor.css") (js "css")
    (js "a { color: var(--constructor); }").

(** The state once [themeJson] has been opened, [constructorCss] being
    open too. *)
Definition constructorLoaded : Server :=
  snd (onDidChangeContent themeJson
         (startServer true defaultSettings [themeJson; constructorCss])).

(** A later version of [themeJson], with another colour. *)
Definition themeJsonV2 : TextDocument :=
  mkTextDocument (js "file:///theme.json") (js "json")
    (js "{" ++ quoted (js "primary") ++ js ": " ++ quoted (js "#00ff00")
       ++ js "}").

(** A table whose key [accent] is met again in a nested object. *)
Definition shadowedJson : TextDocument :=
  mkTextDocument (js "file:///shadowed.json") (js "json")
    (js "{" ++ quoted (js "accent") ++ js ": " ++ quoted (js "#ff0000")
       ++ js ", " ++ quoted (js "dark") ++ js ": {" ++ quoted (js "accent")
       ++ js ": " ++ quoted (js "#000000") ++ js "}}").

(** The client's configuration changes: what [getRemoteConfiguration]
    answers from now on. *)
Definition reconfigure (settings : JSONColorTokenSettings) (st : Server)
  : Server := {|
  colorTokenCache := colorTokenCache st;
  hasConfigurationCapability := hasConfigurationCapability st;
  cachedLanguages := cachedLanguages st;
  cachedCSSLanguages := cachedCSSLanguages st;
  documents := documents st;
  remoteConfiguration := settings;
  sent := sent st
|}.

(** Settings that list [json] among the colour languages and among the
    reference languages. *)
Definition collidingSettings : JSONColorTokenSettings := {|
  maxNumberOfColorTokens := 1000;
  colorTokenCasing := Uppercase;
  languages := [js "json"; js "cpp"];
  cssLanguages := [js "css"; js "json"]
|}.

(** A C++ file with two arrays, each followed by a hexadecimal token in
    a comment. *)
Definition paletteCpp : TextDocument :=
  mkTextDocument (js "file:///palette.cpp") (js "cpp")
    (js "a = {255, 0, 0}; // #f00" ++ [10%N]
       ++ js "b = { 0,128,255 }; // #0080ff").

(** The cap set to three. *)
Definition capThree : JSONColorTokenSettings := {|
  maxNumberOfColorTokens := 3;
  colorTokenCasing := Lowercase;
  languages := languages defaultSettings;
  cssLanguages := cssLanguages defaultSettings
|}.

(** The value of a hexadecimal digit. *)
Definition hexValue (c : N) : Z :=
  match digitValue c with
  | Some d => d
  | None => 0%Z
  end.

(** A colour of four bytes. *)
Definition rgba (r g b a : Z) : Color :=
  {| red := channel r; green := channel g; blue := channel b;
     alpha := channel a |}.

(** A colour whose four components are bytes over 255; opaque is the
    byte 255. *)
Definition byteColor (c : Color) : Prop :=
  exists r g b a,
    (0 <= r <= 255)%Z /\ (0 <= g <= 255)%Z /\ (0 <= b <= 255)%Z
    /\ (0 <= a <= 255)%Z /\ c = rgba r g b a.

(** The code unit is not a letter of the other case. *)
Definition inCase (casing : Casing) (c : N) : bool :=
  match casing with
  | Uppercase => negb (in_range "a" "z" c)
  | Lowercase => negb (in_range "A" "Z" c)
  end.

(** [s.toUpperCase()] or [s.toLowerCase()], as the setting says. *)
Definition toCase (casing : Casing) (s : jsstring) : jsstring :=
  match casing with
  | Lowercase => toLowerCase s
  | Uppercase => toUpperCase s
  end.

(** What a presentation writes for the byte [k]: in either case its two
    digits are hexadecimal digits, with no letter of the other case. *)
Definition presentationByteFacts (k : Z) : Prop :=
  forallb hexDigit (toUpperCase (hexDigits k)) = true
  /\ forallb hexDigit (toLowerCase (hexDigits k)) = true
  /\ forallb (inCase Uppercase) (toUpperCase (hexDigits k)) = true
  /\ forallb (inCase Lowercase) (toLowerCase (hexDigits k)) = true.

(** A C++ file that is exactly one array. *)
Definition redCpp : TextDocument :=
  mkTextDocument (js "file:///red.cpp") (js "cpp") (js "{255,0,0}").

(** Every code unit a match of [r] takes satisfies [P], by the shape of
    [r]. *)
Fixpoint within (P : N -> Prop) (r : regex) : Prop :=
  match r with
  | Class q => forall c, q c = true -> P c
  | Seq a b | Alt a b => within P a /\ within P b
  | Star a | Group _ a => within P a
  | Empty | LookAhead _ | PrecededBy _ => True
  end.

(** The number of hexadecimal digits [s] starts with. *)
Fixpoint hexRun (s : jsstring) : nat :=
  match s with
  | c :: s' => if hexDigit c then S (hexRun s') else 0
  | [] => 0
  end.

(** The number of digits of the token that [colorTokenPattern] finds at
    a hash sign that [n] hexadecimal digits follow, three at least. *)
Definition tokenDigits (n : nat) : nat :=
  if Nat.leb 8 n then 8
  else if Nat.leb 6 n then 6
  else if Nat.leb 4 n then 4
  else 3.

(** The token [stringifyColor] writes for the colour of a token, up to
    case: the short forms spelled out, and an alpha of [ff], which is
    opaque, left out. *)
Definition normalForm (color : jsstring) : jsstring :=
  let full :=
    if Nat.ltb (length color) 6
    then convertShortHexCodeToFullHexCode color else color in
  match skipn 7 full with
  | [g; h] =>
      if Z.eqb (hexValue g) 15 && Z.eqb (hexValue h) 15
      then firstn 7 full else full
  | _ => full
  end.

(** The byte two hexadecimal digits write. *)
Definition hexPair (h l : N) : Z := (16 * hexValue h + hexValue l)%Z.

(** A table with a key that is not made of key characters only. *)
Definition dottedJson : TextDocument :=
  mkTextDocument (js "file:///dotted.json") (js "json")
    (js "{" ++ quoted (js "brand.primary") ++ js ": " ++ quoted (js "#336699")
       ++ js ", " ++ quoted (js "accent") ++ js ": " ++ quoted (js "#ff0000")
       ++ js "}").


(* ================================================================== *)
(** * Basic facts *)

Lemma jsstring_eqb_eq (a b : jsstring) : jsstring_eqb a b = true <-> a = b.
Proof.
  revert b; induction a as [|x a IH]; intros [|y b]; simpl;
    try (split; [discriminate | congruence]); try tauto.
  rewrite andb_true_iff, N.eqb_eq, IH. split.
  - intros [-> ->]; reflexivity.
  - intros H; inversion H; auto.
Qed.

Lemma jsstring_eqb_refl (a : jsstring) : jsstring_eqb a a = true.
Proof. apply jsstring_eqb_eq; reflexivity. Qed.

Lemma lookup_assign {V : Type} (key k : jsstring) (v : V) obj :
  lookup key (assign k v obj) =
  if jsstring_eqb key k then Some v else lookup key obj.
Proof.
  induction obj as [|[k' w] obj IH]; simpl.
  - reflexivity.
  - destruct (jsstring_eqb k k') eqn:Ek; simpl.
    + apply jsstring_eqb_eq in Ek; subst k'.
      destruct (jsstring_eqb key k); reflexivity.
    + destruct (jsstring_eqb key k') eqn:Ek'.
      * apply jsstring_eqb_eq in Ek'; subst k'.
        destruct (jsstring_eqb key k) eqn:E; [|reflexivity].
        apply jsstring_eqb_eq in E; subst k.
        rewrite jsstring_eqb_refl in Ek; discriminate.
      * exact IH.
Qed.

(** ** The matcher returns matches only *)

Lemma mt_sound (r : regex) :
  forall st k res,
    mt r st k = Some res ->
    exists st', reach r st st' /\ k st' = Some res.
Proof.
  induction r as [|p|a IHa b IHb|a IHa b IHb|a IHa|g a IHa|a IHa|p];
    intros st k res; simpl.
  - intros H. exists st. split; [constructor | exact H].
  - destruct (m_rest st) as [|c s] eqn:Erest; [discriminate|].
    destruct (p c) eqn:Ep; [|discriminate].
    intros H. exists (advance c s st). split; [|exact H].
    apply reach_Class; assumption.
  - intros H. apply IHa in H. destruct H as (st1 & Ha & H).
    apply IHb in H. destruct H as (st2 & Hb & H).
    exists st2. split; [|exact H]. eapply reach_Seq; eassumption.
  - destruct (mt a st k) eqn:Ea.
    + intros [= <-]. apply IHa in Ea. destruct Ea as (st1 & Ha & H).
      exists st1. split; [|exact H]. apply reach_AltL; exact Ha.
    + intros H. apply IHb in H. destruct H as (st1 & Hb & H).
      exists st1. split; [|exact H]. apply reach_AltR; exact Hb.
  - generalize (length (m_rest st)). intros n. revert st.
    induction n as [|n IHn]; intros st.
    + intros H. exists st. split; [apply reach_StarDone | exact H].
    + destruct (mt a st _) eqn:Ea.
      * intros [= <-]. apply IHa in Ea. destruct Ea as (st1 & Ha & H).
        destruct (Nat.ltb (m_pos st) (m_pos st1)) eqn:Elt; [|discriminate].
        apply Nat.ltb_lt in Elt.
        apply IHn in H. destruct H as (st2 & Hs & H).
        exists st2. split; [|exact H].
        eapply reach_StarStep; eassumption.
      * intros H. exists st. split; [apply reach_StarDone | exact H].
  - intros H. apply IHa in H. destruct H as (st1 & Ha & H).
    exists (close_group g st st1). split; [|exact H].
    apply reach_Group; exact Ha.
  - destruct (mt a st Some) eqn:Ea; [|discriminate].
    intros H. apply IHa in Ea. destruct Ea as (st1 & Ha & _).
    exists st. split; [|exact H]. eapply reach_LookAhead; exact Ha.
  - destruct (m_prev st) as [c|] eqn:Eprev; [|discriminate].
    destruct (p c) eqn:Ep; [|discriminate].
    intros H. exists st. split; [|exact H].
    eapply reach_PrecededBy; eassumption.
Qed.

(** A match consumes a prefix of the input, counts it in the position and
    keeps it, reversed, in the accumulator. *)
Lemma reach_consumes (r : regex) (st st' : mstate) :
  reach r st st' ->
  exists w,
    m_rest st = w ++ m_rest st'
    /\ m_pos st' = length w + m_pos st
    /\ m_acc st' = rev w ++ m_acc st.
Proof.
  induction 1 as
    [st|p c s st Hrest Hp|a b st st1 st2 _ IH1 _ IH2
    |a b st st1 _ IH|a b st st1 _ IH|a st
    |a st st1 st2 _ IH1 _ _ IH2|g a st st1 _ IH|a st st1 _ _|p c st _ _].
  - exists []. auto.
  - exists [c]. simpl. auto.
  - destruct IH1 as (w1 & R1 & P1 & A1). destruct IH2 as (w2 & R2 & P2 & A2).
    exists (w1 ++ w2). rewrite R1, R2, P2, P1, A2, A1.
    rewrite length_app, rev_app_distr, <- !app_assoc. repeat split; lia.
  - exact IH.
  - exact IH.
  - exists []. auto.
  - destruct IH1 as (w1 & R1 & P1 & A1). destruct IH2 as (w2 & R2 & P2 & A2).
    exists (w1 ++ w2). rewrite R1, R2, P2, P1, A2, A1.
    rewrite length_app, rev_app_distr, <- !app_assoc. repeat split; lia.
  - destruct IH as (w & R & P & A). simpl in R, P, A.
    exists w. simpl. rewrite R, P, A, app_nil_r. auto.
  - exists []. auto.
  - exists []. auto.
Qed.

Lemma reach_progress (r : regex) (st st' : mstate) :
  reach r st st' -> consuming r = true -> m_pos st < m_pos st'.
Proof.
  induction 1 as
    [st|p c s st Hrest Hp|a b st st1 st2 H1 IH1 H2 IH2
    |a b st st1 _ IH|a b st st1 _ IH|a st
    |a st st1 st2 _ IH1 _ _ IH2|g a st st1 _ IH|a st st1 _ _|p c st _ _];
    simpl; try discriminate.
  - intros _. lia.
  - intros Hc. apply orb_true_iff in Hc.
    destruct (reach_consumes _ _ _ H1) as (w1 & _ & P1 & _).
    destruct (reach_consumes _ _ _ H2) as (w2 & _ & P2 & _).
    destruct Hc as [Hc|Hc]; [apply IH1 in Hc | apply IH2 in Hc]; lia.
  - intros Hc. apply andb_true_iff in Hc. apply IH, Hc.
  - intros Hc. apply andb_true_iff in Hc. apply IH, Hc.
  - intros Hc. apply IH in Hc. simpl in Hc. exact Hc.
Qed.

(** Where a match found by [scan] lies. *)
Lemma scan_bounds (r : regex) (s : jsstring) :
  forall p prev m,
    scan r p prev s = Some m ->
    p <= index m
    /\ endIndex m <= p + length s
    /\ (consuming r = true -> index m < endIndex m).
Proof.
  assert (Hhead : forall p prev s st,
    mt r (MState p prev [] [] s) Some = Some st ->
    let m := MkMatch p (rev (m_acc st)) (m_caps st) in
    p <= index m /\ endIndex m <= p + length s
    /\ (consuming r = true -> index m < endIndex m)).
  { intros p prev s0 st H. apply mt_sound in H.
    destruct H as (st' & Hreach & [= ->]).
    pose proof (reach_progress _ _ _ Hreach) as Hprog.
    destruct (reach_consumes _ _ _ Hreach) as (w & R & P & A).
    simpl in R, P, A. unfold endIndex; simpl.
    rewrite A, app_nil_r, rev_involutive.
    assert (length s0 = length w + length (m_rest st))
      by (rewrite R, length_app; reflexivity).
    repeat split; try lia. intros Hc. apply Hprog in Hc. simpl in Hc. lia. }
  induction s as [|c s IH]; intros p prev m; simpl.
  - destruct (mt r _ Some) as [st|] eqn:E; [|discriminate].
    intros [= <-]. exact (Hhead _ _ _ _ E).
  - destruct (mt r _ Some) as [st|] eqn:E.
    + intros [= <-]. exact (Hhead _ _ _ _ E).
    + intros H. apply IH in H. destruct H as (H1 & H2 & H3).
      repeat split; [lia | lia | exact H3].
Qed.

Lemma exec_bounds (r : regex) (text : jsstring) (i : nat) (m : Match) :
  exec r text i = Some m ->
  i <= index m
  /\ endIndex m <= length text
  /\ (consuming r = true -> i < endIndex m).
Proof.
  unfold exec. destruct (Nat.ltb (length text) i) eqn:E; [discriminate|].
  apply Nat.ltb_ge in E. intros H. apply scan_bounds in H.
  rewrite length_skipn in H. destruct H as (H1 & H2 & H3).
  repeat split; try lia. intros Hc. apply H3 in Hc. lia.
Qed.

(** ** Enough fuel

    The loops over the matches of a pattern are given as many steps as
    the text has code units, and one more; since every match of the four
    patterns takes at least one code unit, no loop needs more. *)

Lemma patterns_consuming :
  consuming colorTokenPattern = true
  /\ consuming rgbArrayPattern = true
  /\ consuming cssVariablePattern = true
  /\ consuming jsonKeyPattern = true.
Proof. repeat split; reflexivity. Qed.

Lemma execAll_fuel (r : regex) (text : jsstring) :
  consuming r = true ->
  forall fuel1 fuel2 i,
    length text - i < fuel1 -> length text - i < fuel2 ->
    execAll fuel1 r text i = execAll fuel2 r text i.
Proof.
  intros Hc. induction fuel1 as [|fuel1 IH]; intros [|fuel2] i H1 H2;
    try lia. simpl.
  destruct (exec r text i) as [m|] eqn:E; [|reflexivity].
  destruct (exec_bounds _ _ _ _ E) as (Hi & He & Hp). specialize (Hp Hc).
  f_equal. apply IH; lia.
Qed.

(** The matches of a loop come in text order and do not overlap. *)
Lemma execAll_from (r : regex) (text : jsstring) (fuel : nat) :
  forall i, Forall (fun m => i <= index m) (execAll fuel r text i).
Proof.
  induction fuel as [|fuel IH]; intros i; simpl; [constructor|].
  destruct (exec r text i) as [m|] eqn:E; [|constructor].
  destruct (exec_bounds _ _ _ _ E) as (Hi & _ & _).
  constructor; [exact Hi|].
  eapply Forall_impl; [|apply IH]. unfold endIndex. simpl. intros; lia.
Qed.

Lemma execAll_ordered (r : regex) (text : jsstring) (fuel : nat) :
  forall i,
    ForallOrdPairs (fun m m' => endIndex m <= index m')
      (execAll fuel r text i).
Proof.
  induction fuel as [|fuel IH]; intros i; simpl; [constructor|].
  destruct (exec r text i) as [m|]; [|constructor].
  constructor; [apply execAll_from | apply IH].
Qed.

Ltac loop_fuel IH E :=
  simpl;
  match goal with
  | |- context [exec ?r ?text ?i] =>
      destruct (exec r text i) as [?m|] eqn:E; [|reflexivity]
  end;
  match type of E with
  | exec _ _ _ = Some ?m =>
      let Hp := fresh "Hp" in
      destruct (exec_bounds _ _ _ _ E) as (_ & ? & Hp);
      specialize (Hp eq_refl)
  end;
  repeat match goal with
         | |- context [match ?x with _ => _ end] => destruct x
         end;
  try reflexivity; apply IH; lia.

Lemma hexLoop_fuel (textDocument : TextDocument) (text : jsstring) (cap : Z) :
  forall fuel1 fuel2 i n colors,
    length text - i < fuel1 -> length text - i < fuel2 ->
    hexLoop fuel1 textDocument text cap i n colors
    = hexLoop fuel2 textDocument text cap i n colors.
Proof.
  induction fuel1 as [|fuel1 IH]; intros [|fuel2] i n colors H1 H2; try lia.
  loop_fuel IH E.
Qed.

Lemma rgbLoop_fuel (textDocument : TextDocument) (text : jsstring) (cap : Z) :
  forall fuel1 fuel2 i n colors,
    length text - i < fuel1 -> length text - i < fuel2 ->
    rgbLoop fuel1 textDocument text cap i n colors
    = rgbLoop fuel2 textDocument text cap i n colors.
Proof.
  induction fuel1 as [|fuel1 IH]; intros [|fuel2] i n colors H1 H2; try lia.
  loop_fuel IH E.
Qed.

Lemma cssLoop_fuel (textDocument : TextDocument) (text : jsstring)
  (cache : TokenCache) :
  forall fuel1 fuel2 i colors,
    length text - i < fuel1 -> length text - i < fuel2 ->
    cssLoop fuel1 textDocument text cache i colors
    = cssLoop fuel2 textDocument text cache i colors.
Proof.
  induction fuel1 as [|fuel1 IH]; intros [|fuel2] i colors H1 H2; try lia.
  loop_fuel IH E.
Qed.

Lemma keyLoop_fuel (textDocument : TextDocument) (text : jsstring)
  (jsonObj : json) :
  forall fuel1 fuel2 i obj,
    length text - i < fuel1 -> length text - i < fuel2 ->
    keyLoop fuel1 textDocument text jsonObj i obj
    = keyLoop fuel2 textDocument text jsonObj i obj.
Proof.
  induction fuel1 as [|fuel1 IH]; intros [|fuel2] i obj H1 H2; try lia.
  loop_fuel IH E.
Qed.

(** The steps the loops are given are enough: more of them change
    nothing. *)
Theorem loops_have_enough_fuel (textDocument : TextDocument)
  (text : jsstring) (extra : nat) :
  (forall cap n colors,
     hexLoop (S (length text) + extra) textDocument text cap 0 n colors
     = hexLoop (S (length text)) textDocument text cap 0 n colors)
  /\ (forall cap n colors,
       rgbLoop (S (length text) + extra) textDocument text cap 0 n colors
       = rgbLoop (S (length text)) textDocument text cap 0 n colors)
  /\ (forall cache colors,
       cssLoop (S (length text) + extra) textDocument text cache 0 colors
       = cssLoop (S (length text)) textDocument text cache 0 colors)
  /\ (forall jsonObj obj,
       keyLoop (S (length text) + extra) textDocument text jsonObj 0 obj
       = keyLoop (S (length text)) textDocument text jsonObj 0 obj).
Proof.
  repeat split; intros.
  - apply hexLoop_fuel; lia.
  - apply rgbLoop_fuel; lia.
  - apply cssLoop_fuel; lia.
  - apply keyLoop_fuel; lia.
Qed.

(** ** The keys of the cache *)

Lemma names_assign {V : Type} (k : jsstring) (v : V) (obj : list (jsstring * V)) :
  names (assign k v obj)
  = if has k obj then names obj else names obj ++ [k].
Proof.
  unfold has, names. induction obj as [|[k' w] obj IH]; simpl; [reflexivity|].
  destruct (jsstring_eqb k k') eqn:E; simpl; [reflexivity|].
  rewrite IH. destruct (lookup k obj); reflexivity.
Qed.

Lemma lookup_None_names {V : Type} (k : jsstring) (obj : list (jsstring * V)) :
  lookup k obj = None -> ~ In k (names obj).
Proof.
  unfold names. induction obj as [|[k' w] obj IH]; simpl; [tauto|].
  destruct (jsstring_eqb k k') eqn:E; [discriminate|].
  intros H [Hk|Hin]; [|exact (IH H Hin)].
  subst k'. rewrite jsstring_eqb_refl in E. discriminate.
Qed.

Lemma names_remove_incl {V : Type} (k : jsstring) (obj : list (jsstring * V)) :
  forall u, In u (names (remove k obj)) -> In u (names obj).
Proof.
  unfold names. induction obj as [|[k' w] obj IH]; simpl; [tauto|].
  destruct (jsstring_eqb k k'); simpl; intros u H; [right; auto|].
  destruct H as [H|H]; [left; exact H | right; auto].
Qed.

Lemma NoDup_assign {V : Type} (k : jsstring) (v : V) (obj : list (jsstring * V)) :
  NoDup (names obj) -> NoDup (names (assign k v obj)).
Proof.
  intros H. rewrite names_assign. unfold has.
  destruct (lookup k obj) eqn:E; [exact H|].
  apply NoDup_app; [exact H | repeat constructor; intros [] |].
  intros x Hx [Hk|[]]. subst x. exact (lookup_None_names _ _ E Hx).
Qed.

Lemma NoDup_remove {V : Type} (k : jsstring) (obj : list (jsstring * V)) :
  NoDup (names obj) -> NoDup (names (remove k obj)).
Proof.
  unfold names.
  induction obj as [|[k' w] obj IH]; simpl; intros H; [constructor|].
  inversion H as [|? ? Hnotin Hnd]; subst.
  destruct (jsstring_eqb k k'); simpl; [auto|].
  constructor; [|auto]. intros Hin. apply Hnotin.
  exact (names_remove_incl _ _ _ Hin).
Qed.

(** A document URI is not an array index, not the empty string and not
    [__proto__]. *)
Lemma documentUri_facts (u : jsstring) :
  documentUri u = true ->
  isIndex u = false /\ truthy u = true /\ u <> protoKey.
Proof.
  unfold documentUri. intros H. split; [|split].
  - assert (Hd : forallb digit u = false).
    { induction u as [|c u IH]; [discriminate|].
      cbn [existsb forallb] in H |- *. apply orb_true_iff in H.
      destruct H as [H|H].
      - apply N.eqb_eq in H. subst c. reflexivity.
      - rewrite (IH H). apply andb_false_r. }
    unfold isIndex, integerIndex. destruct u as [|c u]; [reflexivity|].
    rewrite Hd. reflexivity.
  - destruct u; [discriminate | reflexivity].
  - intros ->. vm_compute in H. discriminate H.
Qed.

(** [Object.keys] enumerates names that are not array indices in the
    order of their creation. *)
Lemma indexKeys_ordinary (l : list jsstring) :
  Forall (fun u => isIndex u = false) l -> indexKeys l = [].
Proof.
  induction 1 as [|u l Hu _ IH]; simpl; [reflexivity|].
  unfold isIndex in Hu. destruct (integerIndex u); [discriminate | exact IH].
Qed.

Lemma keys_ordinary {V : Type} (obj : list (jsstring * V)) :
  Forall (fun u => isIndex u = false) (names obj) -> keys obj = names obj.
Proof.
  intros H. unfold keys. rewrite (indexKeys_ordinary _ H). simpl.
  induction H as [|u l Hu _ IH]; simpl; [reflexivity|].
  rewrite Hu. simpl. rewrite IH. reflexivity.
Qed.

Lemma keys_documentCache (cache : TokenCache) :
  documentCache cache -> keys cache = names cache.
Proof.
  intros [_ H]. apply keys_ordinary.
  apply Forall_impl with (2 := H). intros u Hu.
  exact (proj1 (documentUri_facts u Hu)).
Qed.

Lemma In_insertIndex (i : Z) (k : jsstring) (l : list (Z * jsstring))
  (x : Z * jsstring) :
  In x (insertIndex i k l) -> x = (i, k) \/ In x l.
Proof.
  induction l as [|[j k'] l IH]; simpl.
  - intros [H|[]]; auto.
  - destruct (Z.leb i j); simpl.
    + intros [H|H]; auto.
    + intros [H|H]; [auto|]. destruct (IH H); auto.
Qed.

Lemma In_indexKeys (l : list jsstring) (x : Z * jsstring) :
  In x (indexKeys l) -> In (snd x) l.
Proof.
  induction l as [|k l IH]; simpl; [tauto|].
  destruct (integerIndex k); [|auto].
  intros H. apply In_insertIndex in H. destruct H as [->|H]; [left; reflexivity|].
  right. exact (IH H).
Qed.

(** [Object.keys] gives keys of the object only. *)
Lemma In_keys_names {V : Type} (obj : list (jsstring * V)) (u : jsstring) :
  In u (keys obj) -> In u (names obj).
Proof.
  unfold keys. intros H. apply in_app_or in H. destruct H as [H|H].
  - apply in_map_iff in H. destruct H as (x & <- & Hx).
    exact (In_indexKeys _ _ Hx).
  - apply filter_In in H. exact (proj1 H).
Qed.

Lemma indexKeys_app_ordinary (l : list jsstring) (k : jsstring) :
  isIndex k = false -> indexKeys (l ++ [k]) = indexKeys l.
Proof.
  unfold isIndex. intros Hk. induction l as [|u l IH]; simpl.
  - destruct (integerIndex k); [discriminate | reflexivity].
  - rewrite IH. reflexivity.
Qed.

(** A new key that is not an array index comes last. *)
Lemma keys_app_ordinary {V : Type} (obj : list (jsstring * V)) (k : jsstring)
  (v : V) :
  isIndex k = false -> keys (obj ++ [(k, v)]) = keys obj ++ [k].
Proof.
  intros Hk. unfold keys, names. rewrite map_app. cbn [map fst].
  rewrite (indexKeys_app_ordinary _ _ Hk), filter_app. cbn [filter].
  rewrite Hk. cbn [negb]. rewrite app_assoc. reflexivity.
Qed.

(** ** What the classification of a language leaves alone *)

Lemma isColorLanguage_frame (l : jsstring) (st : Server) :
  let st' := snd (isColorLanguage l st) in
  colorTokenCache st' = colorTokenCache st
  /\ sent st' = sent st
  /\ documents st' = documents st
  /\ remoteConfiguration st' = remoteConfiguration st
  /\ hasConfigurationCapability st' = hasConfigurationCapability st.
Proof.
  unfold isColorLanguage, bind, get, ret, getRemoteConfiguration,
    setCachedLanguages, setCachedCSSLanguages.
  destruct (undefined (cachedLanguages st) || undefined (cachedCSSLanguages st));
    simpl; repeat split; reflexivity.
Qed.

Lemma isCSSLanguage_frame (l : jsstring) (st : Server) :
  let st' := snd (isCSSLanguage l st) in
  colorTokenCache st' = colorTokenCache st
  /\ sent st' = sent st
  /\ documents st' = documents st
  /\ remoteConfiguration st' = remoteConfiguration st
  /\ hasConfigurationCapability st' = hasConfigurationCapability st.
Proof.
  unfold isCSSLanguage, bind, get, ret, getRemoteConfiguration,
    setCachedCSSLanguages.
  destruct (undefined (cachedCSSLanguages st)); simpl; repeat split; reflexivity.
Qed.

Lemma getGlobalSettings_state (st : Server) :
  snd (getGlobalSettings st) = st.
Proof.
  unfold getGlobalSettings, bind, get, ret, getRemoteConfiguration.
  destruct (negb (hasConfigurationCapability st)); reflexivity.
Qed.

(** The cache is an object: its keys stay distinct, and stay document
    URIs as long as the documents that come in have one. *)
Theorem cache_keys_invariant (textDocument : TextDocument) (st : Server) :
  documentUri (uri textDocument) = true ->
  documentCache (colorTokenCache st) ->
  documentCache (colorTokenCache (snd (onDidChangeContent textDocument st)))
  /\ documentCache (colorTokenCache (snd (onDidClose textDocument st))).
Proof.
  unfold documentCache. intros Huri [Hnd Hne]. split.
  - unfold onDidChangeContent, updateColorTokenCache, bind.
    destruct (isColorLanguage_frame (languageId textDocument) st) as (Hc & _).
    destruct (isColorLanguage (languageId textDocument) st) as [b st1].
    simpl in Hc. destruct b; [|simpl; rewrite Hc; split; assumption].
    destruct (tryCatch (updateBody textDocument) None) as [obj|];
      [|simpl; rewrite Hc; split; assumption].
    simpl. rewrite Hc. split; [apply NoDup_assign; exact Hnd|].
    rewrite names_assign. destruct (has _ _); [exact Hne|].
    apply Forall_app. split; [exact Hne | repeat constructor; exact Huri].
  - unfold onDidClose, bind, get. simpl.
    destruct (has (uri textDocument) (colorTokenCache st));
      [|simpl; split; assumption].
    simpl. split; [apply NoDup_remove; exact Hnd|].
    rewrite Forall_forall in *. intros u Hu.
    apply Hne. exact (names_remove_incl _ _ _ Hu).
Qed.

(* ================================================================== *)
(** * The token cache: parse failures *)

(** C3. When the text of a json or jsonc document fails [JSON.parse],
    [updateColorTokenCache] completes normally and the token cache is
    the one it started from: the entry of the document, if there was
    one, is kept as it was. *)
Theorem updateColorTokenCache_parse_failure
  (textDocument : TextDocument) (st : Server) :
  isJson (languageId textDocument) = true ->
  JSON.parse (getText textDocument) = None ->
  exists st',
    updateColorTokenCache textDocument st = (Normal tt, st')
    /\ colorTokenCache st' = colorTokenCache st.
Proof.
  intros Hjson Hparse.
  pose proof (isColorLanguage_frame (languageId textDocument) st) as Hframe.
  unfold updateColorTokenCache, bind.
  destruct (isColorLanguage (languageId textDocument) st) as [b st1].
  simpl in Hframe. destruct Hframe as [Hcache _].
  destruct b.
  - unfold updateBody. rewrite Hjson, Hparse. simpl.
    exists st1. split; [reflexivity | exact Hcache].
  - simpl. exists st1. split; [reflexivity | exact Hcache].
Qed.

(** The second version of [themeJson] does not parse: the cache keeps
    [primary] at [#336699], the colour of the first version. *)
Lemma updateColorTokenCache_parse_failure_witness :
  exists st',
    updateColorTokenCache themeJsonBroken themeLoaded = (Normal tt, st')
    /\ colorTokenCache st' = colorTokenCache themeLoaded
    /\ option_map color
         (cached (colorTokenCache st') (uri themeJsonBroken) (js "primary"))
       = Some (js "#336699").
Proof.
  destruct (updateColorTokenCache_parse_failure themeJsonBroken themeLoaded)
    as (st' & Hrun & Hcache); [vm_compute; reflexivity ..|].
  exists st'. split; [exact Hrun|]. split; [exact Hcache|].
  rewrite Hcache. vm_compute. reflexivity.
Defined.

(* ================================================================== *)
(** * The token cache: what an update records *)

Section KeyLoop.
Variable textDocument : TextDocument.
Variable text : jsstring.
Variable jsonObj : json.

Lemma isColorToken_string (token : option json) :
  isColorToken token = true ->
  exists s, token = Some (JString s) /\ test colorTokenPattern s = true.
Proof.
  destruct token as [[ | | |s| | ]|]; simpl; try discriminate.
  intros H; exists s; auto.
Qed.

Lemma keyLoop_records (fuel : nat) :
  forall lastIndex obj res,
    (forall name v, lookup name obj = Some v -> topLevelColor jsonObj name v) ->
    keyLoop fuel textDocument text jsonObj lastIndex obj = Normal res ->
    forall name v, lookup name res = Some v -> topLevelColor jsonObj name v.
Proof.
  induction fuel as [|fuel IH]; intros lastIndex obj res Hobj; simpl.
  - intros [= <-]; exact Hobj.
  - destruct (exec jsonKeyPattern text lastIndex) as [m|];
      [|intros [= <-]; exact Hobj].
    destruct (nullish (group m varDoulbeQuote) (group m varSingleQuote))
      as [variableName|]; [|apply IH; exact Hobj].
    destruct (truthy variableName); [|apply IH; exact Hobj].
    destruct (getProp jsonObj variableName) as [token|] eqn:Eprop;
      [|discriminate].
    destruct (isColorToken token) eqn:Etok; [|apply IH; exact Hobj].
    apply IH. intros name v. rewrite lookup_assign.
    destruct (jsstring_eqb name variableName) eqn:Ename; [|apply Hobj].
    apply jsstring_eqb_eq in Ename; subst name. intros [= <-].
    destruct (isColorToken_string _ Etok) as (s & -> & Hs).
    exists s; auto.
Qed.
End KeyLoop.

(** C10. After an update that succeeds, the entry of the document holds
    a variable only if the value parsed from the text maps that very
    name, at its top level, to a string that [isColorToken] accepts, and
    the colour recorded is that string.  So a key met only in a nested
    object, which [jsonKeyPattern] does match, is not recorded. *)
Theorem updateColorTokenCache_records_top_level
  (textDocument : TextDocument) (st : Server) (entry : VariableMap) :
  colorDocument st textDocument = true ->
  updateBody textDocument = Normal (Some entry) ->
  exists st' jsonObj,
    updateColorTokenCache textDocument st = (Normal tt, st')
    /\ JSON.parse (getText textDocument) = Some jsonObj
    /\ lookup (uri textDocument) (colorTokenCache st') = Some entry
    /\ forall name v,
         lookup name entry = Some v ->
         exists s,
           getProp jsonObj name = Some (Some (JString s))
           /\ isColorToken (Some (JString s)) = true
           /\ color v = s.
Proof.
  unfold colorDocument. intros Hcolor Hbody.
  unfold updateColorTokenCache, bind.
  destruct (isColorLanguage (languageId textDocument) st) as [b st1].
  simpl in Hcolor; subst b. rewrite Hbody. simpl.
  unfold updateBody in Hbody.
  destruct (isJson (languageId textDocument)); [|discriminate].
  destruct (JSON.parse (getText textDocument)) as [jsonObj|]; [|discriminate].
  destruct (keyLoop _ _ _ _ _ _) as [obj|] eqn:Eloop; [|discriminate].
  injection Hbody as <-.
  eexists; exists jsonObj. split; [reflexivity|]. split; [reflexivity|].
  split.
  - simpl. rewrite lookup_assign, jsstring_eqb_refl. reflexivity.
  - intros name v Hv.
    change (topLevelColor jsonObj name v).
    eapply keyLoop_records; [|exact Eloop|exact Hv].
    simpl; discriminate.
Qed.

(** In [nestedJson] the key [accent] sits in a nested object: the
    pattern matches it, the update succeeds and records nothing. *)
Lemma updateColorTokenCache_records_top_level_witness :
  map matched (matchesIn jsonKeyPattern nestedJson)
    = [js "palette"; js "accent"]
  /\ exists st' jsonObj,
    updateColorTokenCache nestedJson (startServer false defaultSettings [])
      = (Normal tt, st')
    /\ JSON.parse (getText nestedJson) = Some jsonObj
    /\ lookup (uri nestedJson) (colorTokenCache st') = Some []
    /\ forall name v,
         lookup name (@nil (jsstring * CachedVariable)) = Some v ->
         exists s,
           getProp jsonObj name = Some (Some (JString s))
           /\ isColorToken (Some (JString s)) = true
           /\ color v = s.
Proof.
  split; [vm_compute; reflexivity|].
  apply (updateColorTokenCache_records_top_level nestedJson
           (startServer false defaultSettings []) []);
    vm_compute; reflexivity.
Defined.

(** C6. The value of [border] in [borderJson] is not a colour token, it
    only holds one; the update records it all the same, with the whole
    value as its colour, because [isColorToken] tests for a match
    anywhere in the string. *)
Theorem updateColorTokenCache_caches_containing_value :
  validColorToken (js "1px solid #fff") = false
  /\ isColorToken (Some (JString (js "1px solid #fff"))) = true
  /\ option_map color
       (cached (colorTokenCache borderLoaded) (uri borderJson) (js "border"))
     = Some (js "1px solid #fff").
Proof. vm_compute. repeat split; reflexivity. Qed.

(* ================================================================== *)
(** * Detection: the cap *)

Section Loops.
Variable textDocument : TextDocument.
Variable text : jsstring.
Variable cap : Z.

Lemma budget_zero (n : Z) : (n <? cap)%Z = false -> budget cap n = 0.
Proof. unfold budget; intros H; apply Z.ltb_ge in H; lia. Qed.

Lemma budget_succ (n : Z) :
  (n <? cap)%Z = true -> budget cap n = S (budget cap (n + 1)).
Proof. unfold budget; intros H; apply Z.ltb_lt in H; lia. Qed.

(** Both loops take the matches in order, as many as the budget
    allows. *)
Lemma hexLoop_firstn (fuel : nat) :
  forall lastIndex n colors,
    let ms := execAll fuel colorTokenPattern text lastIndex in
    hexLoop fuel textDocument text cap lastIndex n colors
    = ((n + Z.of_nat (Nat.min (budget cap n) (length ms)))%Z,
       colors ++ map (hexToken textDocument) (firstn (budget cap n) ms)).
Proof.
  induction fuel as [|fuel IH]; intros lastIndex n colors; simpl.
  - rewrite Nat.min_0_r, Z.add_0_r, firstn_nil, app_nil_r. reflexivity.
  - destruct (exec colorTokenPattern text lastIndex) as [m|].
    + destruct (n <? cap)%Z eqn:E.
      * rewrite IH, (budget_succ _ E). simpl.
        rewrite <- app_assoc. f_equal. lia.
      * rewrite (budget_zero _ E). simpl.
        rewrite Z.add_0_r, app_nil_r. reflexivity.
    + rewrite Nat.min_0_r, Z.add_0_r, firstn_nil, app_nil_r. reflexivity.
Qed.

Lemma rgbLoop_firstn (fuel : nat) :
  forall lastIndex n colors,
    let ms := execAll fuel rgbArrayPattern text lastIndex in
    rgbLoop fuel textDocument text cap lastIndex n colors
    = ((n + Z.of_nat (Nat.min (budget cap n) (length ms)))%Z,
       colors ++ map (rgbToken textDocument) (firstn (budget cap n) ms)).
Proof.
  induction fuel as [|fuel IH]; intros lastIndex n colors; simpl.
  - rewrite Nat.min_0_r, Z.add_0_r, firstn_nil, app_nil_r. reflexivity.
  - destruct (exec rgbArrayPattern text lastIndex) as [m|].
    + destruct (n <? cap)%Z eqn:E.
      * rewrite IH, (budget_succ _ E). simpl.
        rewrite <- app_assoc. f_equal. lia.
      * rewrite (budget_zero _ E). simpl.
        rewrite Z.add_0_r, app_nil_r. reflexivity.
    + rewrite Nat.min_0_r, Z.add_0_r, firstn_nil, app_nil_r. reflexivity.
Qed.
End Loops.

(** The tokens a colour-language document yields and the count the loops
    end with. *)
Lemma findColorTokens_color_language (textDocument : TextDocument)
  (st : Server) :
  colorDocument st textDocument = true ->
  let cap := capOf st in
  let hex := firstn (budget cap 0) (matchesIn colorTokenPattern textDocument) in
  let n1 := Z.of_nat (length hex) in
  let rgb :=
    if isCpp (languageId textDocument)
    then firstn (budget cap n1) (matchesIn rgbArrayPattern textDocument)
    else [] in
  let n2 := (n1 + Z.of_nat (length rgb))%Z in
  let st1 := snd (isColorLanguage (languageId textDocument) st) in
  findColorTokens textDocument st
  = (map (hexToken textDocument) hex ++ map (rgbToken textDocument) rgb,
     if (n2 =? cap)%Z
     then snd (sendNotification maxNumberOfColorTokensNotificationNamespace
                 cap st1)
     else st1).
Proof.
  unfold colorDocument, capOf, matchesIn. intros Hcolor. cbv zeta.
  unfold findColorTokens, bind.
  pose proof (getGlobalSettings_state st) as Hst.
  destruct (getGlobalSettings st) as [settings st0]. simpl in Hst; subst st0.
  simpl fst.
  destruct (isColorLanguage (languageId textDocument) st) as [b st1].
  simpl in Hcolor; subst b. cbn [fst snd].
  generalize (S (length (getText textDocument))); intros fuel.
  rewrite hexLoop_firstn. cbn [app].
  rewrite length_firstn, Z.add_0_l.
  destruct (isCpp (languageId textDocument)).
  - rewrite rgbLoop_firstn, length_firstn.
    destruct (_ =? _)%Z; reflexivity.
  - cbn [length]. rewrite app_nil_r, Z.add_0_r.
    destruct (_ =? _)%Z; reflexivity.
Qed.

(** C1, as stated, fails: [styleCss] refers twice to a cached variable,
    and with a cap of one [findColorTokens] returns both tokens.  (It
    fails for a negative cap as well, which no list can respect.) *)
Lemma findColorTokens_reference_document_exceeds_cap :
  referenceDocument themeLoaded styleCss = true
  /\ capOf themeLoaded = 1%Z
  /\ length (fst (findColorTokens styleCss themeLoaded)) = 2
  /\ ~ capBoundsOutput themeLoaded styleCss
  /\ ~ capBoundsOutput (startServer true capMinusOne [themeJson]) themeJson.
Proof.
  repeat split; try (vm_compute; reflexivity);
    unfold capBoundsOutput; vm_compute; intros H; apply H; reflexivity.
Qed.

(** C1, amended. For a document that is not classified as a reference
    language, and a cap that is not negative, [findColorTokens] returns
    at most as many tokens as the cap; the branch of the reference
    languages does not consult the cap. *)
Theorem findColorTokens_capped (textDocument : TextDocument) (st : Server) :
  (0 <= capOf st)%Z ->
  referenceDocument st textDocument = false ->
  capBoundsOutput st textDocument.
Proof.
  intros Hcap Href. unfold capBoundsOutput.
  destruct (colorDocument st textDocument) eqn:Hcolor.
  - rewrite (findColorTokens_color_language textDocument st Hcolor).
    cbn [fst]. rewrite length_app, !length_map.
    set (hex := firstn _ (matchesIn colorTokenPattern textDocument)).
    assert (Hhex : length hex <= budget (capOf st) 0)
      by apply firstn_le_length.
    assert (Hrgb :
      length (if isCpp (languageId textDocument)
              then firstn (budget (capOf st) (Z.of_nat (length hex)))
                     (matchesIn rgbArrayPattern textDocument)
              else []) <= budget (capOf st) (Z.of_nat (length hex))).
    { destruct (isCpp _); [apply firstn_le_length | simpl; lia]. }
    unfold budget in *. lia.
  - unfold colorDocument in Hcolor. unfold referenceDocument in Href.
    unfold findColorTokens, bind.
    destruct (getGlobalSettings st) as [settings st0] eqn:Eset.
    pose proof (getGlobalSettings_state st) as Hst.
    rewrite Eset in Hst; simpl in Hst; subst st0.
    destruct (isColorLanguage (languageId textDocument) st) as [b st1].
    simpl in Hcolor, Href; subst b.
    destruct (isCSSLanguage (languageId textDocument) st1) as [c st2].
    simpl in Href; subst c. simpl. exact Hcap.
Qed.

(** [themeJson] holds one colour; the default cap is 1000. *)
Lemma findColorTokens_capped_witness :
  capBoundsOutput (startServer false defaultSettings []) themeJson.
Proof.
  apply (findColorTokens_capped themeJson (startServer false defaultSettings []));
    vm_compute; [discriminate | reflexivity].
Defined.

(** C5. When the text of a colour-language document holds [cap + k]
    matches of [colorTokenPattern], with [k >= 1] and [cap] the cap in
    force, [findColorTokens] returns exactly [cap] tokens, those of the
    first [cap] matches, and sends the cap notification, carrying the
    cap, exactly once. *)
Theorem findColorTokens_cap_reached (textDocument : TextDocument)
  (st : Server) (k : Z) :
  colorDocument st textDocument = true ->
  (0 <= capOf st)%Z ->
  (1 <= k)%Z ->
  Z.of_nat (length (matchesIn colorTokenPattern textDocument))
    = (capOf st + k)%Z ->
  let colors := fst (findColorTokens textDocument st) in
  let st' := snd (findColorTokens textDocument st) in
  Z.of_nat (length colors) = capOf st
  /\ colors = map (hexToken textDocument)
                (firstn (Z.to_nat (capOf st))
                   (matchesIn colorTokenPattern textDocument))
  /\ sent st' = sent st ++ [capNotification (capOf st)].
Proof.
  intros Hcolor Hcap Hk Hlen. cbv zeta.
  rewrite (findColorTokens_color_language textDocument st Hcolor).
  cbn [fst snd].
  assert (Hb0 : budget (capOf st) 0 = Z.to_nat (capOf st))
    by (unfold budget; f_equal; lia).
  rewrite Hb0.
  assert (Hhex : length (firstn (Z.to_nat (capOf st))
                           (matchesIn colorTokenPattern textDocument))
                 = Z.to_nat (capOf st))
    by (apply firstn_length_le; lia).
  rewrite Hhex, Z2Nat.id by exact Hcap.
  assert (Hb1 : budget (capOf st) (capOf st) = 0)
    by (unfold budget; lia).
  rewrite Hb1.
  assert (Hrgb : (if isCpp (languageId textDocument)
                  then firstn 0 (matchesIn rgbArrayPattern textDocument)
                  else []) = []) by (destruct (isCpp _); reflexivity).
  rewrite Hrgb. cbn [map length]. rewrite app_nil_r, Z.add_0_r, Z.eqb_refl.
  rewrite length_map, Hhex, Z2Nat.id by exact Hcap.
  split; [reflexivity|]. split; [reflexivity|].
  cbn [sendNotification snd sent].
  destruct (isColorLanguage_frame (languageId textDocument) st)
    as (_ & Hsent & _).
  cbv zeta in Hsent. rewrite Hsent. reflexivity.
Qed.

(** Three colours and a cap of one. *)
Lemma findColorTokens_cap_reached_witness :
  Z.of_nat (length (fst (findColorTokens paletteJson paletteServer)))
    = capOf paletteServer
  /\ fst (findColorTokens paletteJson paletteServer)
     = map (hexToken paletteJson)
         (firstn (Z.to_nat (capOf paletteServer))
            (matchesIn colorTokenPattern paletteJson))
  /\ sent (snd (findColorTokens paletteJson paletteServer))
     = sent paletteServer ++ [capNotification (capOf paletteServer)].
Proof.
  apply (findColorTokens_cap_reached paletteJson paletteServer 2);
    vm_compute; try reflexivity; discriminate.
Defined.

(* ================================================================== *)
(** * Reference resolution *)

Lemma classification (l : jsstring) (st : Server) :
  let st1 := snd (isColorLanguage l st) in
  exists langs css,
    fst (isColorLanguage l st) = negb (includes l css) && includes l langs
    /\ isCSSLanguage l st1 = (includes l css, st1).
Proof.
  unfold isColorLanguage, isCSSLanguage, bind, get, ret,
    getRemoteConfiguration, setCachedLanguages, setCachedCSSLanguages.
  destruct (cachedLanguages st) as [langs|] eqn:El;
    destruct (cachedCSSLanguages st) as [css|] eqn:Ec; simpl;
    rewrite ?El, ?Ec; simpl; rewrite ?El, ?Ec; simpl; eauto.
Qed.

Lemma referenceDocument_not_color (st : Server) (textDocument : TextDocument) :
  referenceDocument st textDocument = true ->
  colorDocument st textDocument = false.
Proof.
  unfold referenceDocument, colorDocument.
  destruct (classification (languageId textDocument) st)
    as (langs & css & -> & ->).
  simpl. intros ->. reflexivity.
Qed.

Lemma find_ext_in {A : Type} (f g : A -> bool) (l : list A) :
  (forall x, In x l -> f x = g x) -> find f l = find g l.
Proof.
  induction l as [|a l IH]; intros H; simpl; [reflexivity|].
  rewrite (H a (or_introl eq_refl)).
  destruct (g a); [reflexivity|]. apply IH. intros x Hx; apply H; right; exact Hx.
Qed.

Section CacheLookup.
Variable variableName : jsstring.

Lemma cached_head (u : jsstring) (variables : VariableMap)
  (cache : TokenCache) :
  cached ((u, variables) :: cache) u variableName
  = lookup variableName variables.
Proof. unfold cached; simpl. rewrite jsstring_eqb_refl. reflexivity. Qed.

Lemma cacheMember_head (u : jsstring) (variables : VariableMap)
  (cache : TokenCache) :
  cacheMember ((u, variables) :: cache) u variableName
  = member variables variableName.
Proof. unfold cacheMember; simpl. rewrite jsstring_eqb_refl. reflexivity. Qed.

Lemma cacheMember_tail (u u0 : jsstring) (variables : VariableMap)
  (cache : TokenCache) :
  u <> u0 ->
  cacheMember ((u0, variables) :: cache) u variableName
  = cacheMember cache u variableName.
Proof.
  intros Hne. unfold cacheMember; simpl.
  destruct (jsstring_eqb u u0) eqn:E; [|reflexivity].
  apply jsstring_eqb_eq in E; contradiction.
Qed.

Lemma cacheMember_tail_in (u0 : jsstring) (variables : VariableMap)
  (cache : TokenCache) :
  ~ In u0 (names cache) ->
  forall u, In u (names cache) ->
    cacheMember ((u0, variables) :: cache) u variableName
    = cacheMember cache u variableName.
Proof.
  intros Hnotin u Hu. apply cacheMember_tail. intros ->; contradiction.
Qed.

(** With distinct keys, and when no table yields something inherited
    for the name, the first key whose table yields something is the
    document of the specification's lookup. *)
Lemma find_specLookup (cache : TokenCache) :
  NoDup (names cache) ->
  ownReads cache variableName ->
  match specLookup cache variableName with
  | Some (u, v) =>
      find (hasMember cache variableName) (names cache) = Some u
      /\ cacheMember cache u variableName = Some (Own v)
  | None => find (hasMember cache variableName) (names cache) = None
  end.
Proof.
  induction cache as [|[u0 variables] cache IH]; intros Hnd Hown; simpl;
    [reflexivity|].
  inversion Hnd as [|? ? Hnotin Hnd']; subst.
  inversion Hown as [|? ? Hhead Hown']; subst. cbn [snd] in Hhead.
  assert (Hh : hasMember ((u0, variables) :: cache) variableName u0
               = match lookup variableName variables with
                 | Some _ => true
                 | None => false
                 end).
  { unfold hasMember. rewrite cacheMember_head, Hhead.
    destruct (lookup variableName variables); reflexivity. }
  rewrite Hh.
  destruct (lookup variableName variables) as [v|] eqn:Ev.
  - split; [reflexivity | rewrite cacheMember_head, Hhead; reflexivity].
  - specialize (IH Hnd' Hown').
    rewrite (find_ext_in _ (hasMember cache variableName) (names cache)).
    2:{ intros x Hx. unfold hasMember.
        rewrite (cacheMember_tail_in u0 variables cache Hnotin x Hx).
        reflexivity. }
    destruct (specLookup cache variableName) as [[u v]|].
    + destruct IH as [Hfind Hc]. split; [exact Hfind|].
      rewrite cacheMember_tail; [exact Hc|].
      apply find_some in Hfind. destruct Hfind as [Hin _].
      intros ->; contradiction.
    + exact IH.
Qed.

Lemma findDocument_specLookup (cache : TokenCache) :
  documentCache cache ->
  ownReads cache variableName ->
  match specLookup cache variableName with
  | Some (u, v) =>
      findDocument cache variableName = Some u
      /\ cacheMember cache u variableName = Some (Own v)
      /\ truthy u = true
  | None => findDocument cache variableName = None
  end.
Proof.
  intros Hcache Hown. unfold findDocument.
  rewrite (keys_documentCache cache Hcache).
  pose proof (find_specLookup cache (proj1 Hcache) Hown) as H.
  destruct (specLookup cache variableName) as [[u v]|]; [|exact H].
  destruct H as [Hfind Hc]. split; [exact Hfind|]. split; [exact Hc|].
  apply find_some in Hfind. destruct Hfind as [Hin _].
  destruct Hcache as [_ Huris]. rewrite Forall_forall in Huris.
  exact (proj1 (proj2 (documentUri_facts u (Huris u Hin)))).
Qed.
End CacheLookup.

(** The loop over the references, reference by reference. *)
Lemma cssLoop_flat_map (textDocument : TextDocument) (text : jsstring)
  (cache : TokenCache) (fuel : nat) :
  forall lastIndex colors,
    cssLoop fuel textDocument text cache lastIndex colors
    = colors ++ flat_map (referenceTokens cache textDocument)
                  (execAll fuel cssVariablePattern text lastIndex).
Proof.
  induction fuel as [|fuel IH]; intros lastIndex colors; simpl.
  - rewrite app_nil_r; reflexivity.
  - destruct (exec cssVariablePattern text lastIndex) as [m|];
      [|rewrite app_nil_r; reflexivity].
    simpl. unfold referenceTokens at 1.
    destruct (findDocument cache (cssVarOf m)) as [u|];
      [|rewrite IH; reflexivity].
    destruct (truthy u); rewrite IH; [|reflexivity].
    rewrite <- app_assoc. reflexivity.
Qed.

(** For a name that no table inherits, the loop makes of a reference
    what the specification does. *)
Lemma referenceTokens_resolveReference (cache : TokenCache)
  (textDocument : TextDocument) (m : Match) :
  documentCache cache ->
  ownReads cache (cssVarOf m) ->
  referenceTokens cache textDocument m
  = resolveReference cache textDocument m.
Proof.
  intros Hcache Hown. unfold referenceTokens, resolveReference.
  pose proof (findDocument_specLookup (cssVarOf m) cache Hcache Hown) as H.
  destruct (specLookup cache (cssVarOf m)) as [[u v]|].
  - destruct H as (-> & Hc & ->). unfold cachedColor. rewrite Hc.
    reflexivity.
  - rewrite H. reflexivity.
Qed.

(** What [findColorTokens] does for a reference document. *)
Lemma findColorTokens_reference_tokens (textDocument : TextDocument)
  (st : Server) :
  referenceDocument st textDocument = true ->
  fst (findColorTokens textDocument st)
  = flat_map (referenceTokens (colorTokenCache st) textDocument)
      (matchesIn cssVariablePattern textDocument)
  /\ sent (snd (findColorTokens textDocument st)) = sent st
  /\ colorTokenCache (snd (findColorTokens textDocument st))
     = colorTokenCache st.
Proof.
  intros Href.
  pose proof (referenceDocument_not_color st textDocument Href) as Hcolor.
  unfold referenceDocument in Href. unfold colorDocument in Hcolor.
  unfold findColorTokens, bind, matchesIn.
  destruct (getGlobalSettings st) as [settings st0] eqn:Eset.
  pose proof (getGlobalSettings_state st) as Hst.
  rewrite Eset in Hst; simpl in Hst; subst st0.
  destruct (isColorLanguage_frame (languageId textDocument) st)
    as (Hc1 & Hs1 & _).
  destruct (isColorLanguage (languageId textDocument) st) as [b st1].
  simpl in Hcolor, Href, Hc1, Hs1; subst b.
  destruct (isCSSLanguage_frame (languageId textDocument) st1)
    as (Hc2 & Hs2 & _).
  destruct (isCSSLanguage (languageId textDocument) st1) as [c st2].
  simpl in Href, Hc2, Hs2; subst c.
  generalize (S (length (getText textDocument))); intros fuel.
  cbn [get ret fst snd].
  rewrite Hc2, Hc1, Hs2, Hs1, cssLoop_flat_map.
  repeat split; reflexivity.
Qed.

(** C4. The claim fails on the code by a slip: the loop takes for a
    definition whatever [colorTokenCache[uri][variableName]] yields,
    and every table yields something for the names that objects
    inherit.  With [themeJson] cached, which defines [primary] only, the
    reference [var(--constructor)] of [constructorCss] names a variable
    that no cached document defines, so that the specification gives it
    no token; [findColorTokens] returns a token for it all the same,
    whose colour is [undefined], and [onDocumentColor] throws on that
    token. *)
Theorem findColorTokens_inherited_name :
  referenceDocument constructorLoaded constructorCss = true
  /\ map cssVarOf (matchesIn cssVariablePattern constructorCss)
     = [js "constructor"]
  /\ specLookup (colorTokenCache constructorLoaded) (js "constructor") = None
  /\ flat_map (resolveReference (colorTokenCache constructorLoaded)
                 constructorCss)
       (matchesIn cssVariablePattern constructorCss) = []
  /\ fst (findColorTokens constructorCss constructorLoaded)
     = [{| ic_range := {| start := {| line := 0; character := 11 |};
                          end_ := {| line := 0; character := 29 |} |};
           ic_color := None |}]
  /\ fst (onDocumentColor (uri constructorCss) constructorLoaded) = Throw.
Proof. vm_compute. repeat split; reflexivity. Qed.

(** X25. For a document classified as a reference language,
    [findColorTokens] returns, for the matches of [cssVariablePattern] in
    text order, one token per match whose name some cached document
    defines, with the colour cached by the first such document and the
    range of the match itself, and nothing for a match whose name no
    cached document defines; it sends no notification and leaves the
    cache as it is.  This holds when no reference of the document names
    something that a cached table inherits rather than records.  (The
    keys of the cache are distinct document URIs.) *)
Theorem findColorTokens_resolves_own_names (textDocument : TextDocument)
  (st : Server) :
  referenceDocument st textDocument = true ->
  documentCache (colorTokenCache st) ->
  Forall (fun m => ownReads (colorTokenCache st) (cssVarOf m))
    (matchesIn cssVariablePattern textDocument) ->
  let colors := fst (findColorTokens textDocument st) in
  let st' := snd (findColorTokens textDocument st) in
  colors = flat_map (resolveReference (colorTokenCache st) textDocument)
             (matchesIn cssVariablePattern textDocument)
  /\ sent st' = sent st
  /\ colorTokenCache st' = colorTokenCache st.
Proof.
  intros Href Hcache Hown. cbv zeta.
  destruct (findColorTokens_reference_tokens textDocument st Href)
    as (-> & Hs & Hc).
  split; [|split; assumption].
  induction Hown as [|m ms Hm _ IH]; [reflexivity|].
  cbn [flat_map]. rewrite IH.
  rewrite (referenceTokens_resolveReference _ _ _ Hcache Hm). reflexivity.
Qed.

(** In [styleCss] the two references to [primary] resolve to [#336699],
    each at its own place, and the reference to [missing] yields
    nothing. *)
Lemma findColorTokens_resolves_own_names_witness :
  (fst (findColorTokens styleCss themeLoaded)
   = flat_map (resolveReference (colorTokenCache themeLoaded) styleCss)
       (matchesIn cssVariablePattern styleCss)
   /\ sent (snd (findColorTokens styleCss themeLoaded)) = sent themeLoaded
   /\ colorTokenCache (snd (findColorTokens styleCss themeLoaded))
      = colorTokenCache themeLoaded)
  /\ map cssVarOf (matchesIn cssVariablePattern styleCss)
     = [js "primary"; js "missing"; js "primary"]
  /\ map ic_color (fst (findColorTokens styleCss themeLoaded))
     = [Some (js "#336699"); Some (js "#336699")]
  /\ map ic_range (fst (findColorTokens styleCss themeLoaded))
     = [ {| start := {| line := 0; character := 11 |};
            end_ := {| line := 0; character := 25 |} |};
         {| start := {| line := 1; character := 41 |};
            end_ := {| line := 1; character := 55 |} |} ]
  /\ option_map range
       (cached (colorTokenCache themeLoaded) (uri themeJson) (js "primary"))
     = Some primaryKey.
Proof.
  split.
  - apply (findColorTokens_resolves_own_names styleCss themeLoaded).
    + vm_compute; reflexivity.
    + split; vm_compute; repeat constructor. intros [].
    + vm_compute. repeat constructor.
  - vm_compute. repeat split; reflexivity.
Defined.

(* ================================================================== *)
(** * Go to definition *)





(** Without an open document there is nothing to return either. *)
Lemma onDefinition_closed_document (textDocumentUri : jsstring)
  (position : Position) (st : Server) :
  fst (documentsGet textDocumentUri st) = None ->
  fst (onDefinition textDocumentUri position st) = None.
Proof.
  unfold onDefinition, bind, documentsGet, get, ret. simpl.
  intros ->. reflexivity.
Qed.


(** The handler takes what a table inherits for a definition: with
    [themeJson] cached, the reference to [constructor] gets a location
    in [themeJson], whose range is [undefined]. *)
Lemma onDefinition_inherited_name :
  specDefinitions (colorTokenCache constructorLoaded) (js "constructor") = []
  /\ fst (onDefinition (uri constructorCss) beforeReference constructorLoaded)
     = Some [ {| loc_uri := uri themeJson; loc_range := None |} ].
Proof. vm_compute. split; reflexivity. Qed.

(* ================================================================== *)
(** * The triplet pattern *)

Lemma scan_index (r : regex) (s : jsstring) :
  forall p prev m, scan r p prev s = Some m -> p <= index m.
Proof.
  induction s as [|c s IH]; intros p prev m; simpl.
  - destruct (mt r _ Some); [|discriminate]. intros [= <-]; simpl; lia.
  - destruct (mt r _ Some).
    + intros [= <-]; simpl; lia.
    + intros H. apply IH in H. lia.
Qed.

Lemma scan_cons_fail (r : regex) (p : nat) (prev : option N) (c : N)
  (s : jsstring) :
  mt r (MState p prev [] [] (c :: s)) Some = None ->
  scan r p prev (c :: s) = scan r (S p) (Some c) s.
Proof. intros H. simpl. rewrite H. reflexivity. Qed.

Lemma digit_cases (d : N) :
  digit d = true ->
  (d = 48 \/ d = 49 \/ d = 50 \/ d = 51 \/ d = 52
   \/ d = 53 \/ d = 54 \/ d = 55 \/ d = 56 \/ d = 57)%N.
Proof.
  unfold digit, in_range. rewrite andb_true_iff, !N.leb_le.
  change (cu "0") with 48%N. change (cu "9") with 57%N. lia.
Qed.

(** C8, as stated, fails: [{025,0,0}] has no match, so no component is
    captured as [025]. *)
Lemma rgbArrayPattern_leading_zero_counterexample :
  ~ exists m,
      exec rgbArrayPattern (js "{025,0,0}") 0 = Some m
      /\ group m 2 = Some (js "025")
      /\ component m 2 = IInt 25.
Proof.
  intros (m & Hm & _). vm_compute in Hm. discriminate Hm.
Qed.

(** A first component written with a leading zero: in a text that
    starts with an opening brace, a zero and another digit, no match
    starts at the brace. *)
Lemma rgbArrayPattern_zero_prefix (d : N) (rest : jsstring) (m : Match) :
  digit d = true ->
  exec rgbArrayPattern (js "{0" ++ d :: rest) 0 = Some m -> index m <> 0.
Proof.
  intros Hd. unfold exec.
  cbn [length js app Nat.ltb Nat.leb skipn prevChar].
  assert (Hfail :
    mt rgbArrayPattern
       (MState 0 None [] [] (js "{0" ++ d :: rest)) Some = None).
  { destruct (digit_cases d Hd) as [->|[->|[->|[->|[->|[->|[->|[->|[->| ->]]]]]]]]];
      vm_compute; reflexivity. }
  change (js "{0" ++ d :: rest) with (cu "{" :: cu "0" :: d :: rest) in *.
  rewrite (scan_cons_fail _ _ _ _ _ Hfail).
  intros H. apply scan_index in H. lia.
Qed.

Ltac inv H := inversion H; subst; clear H.

Lemma reach_groupFree (r : regex) (st st' : mstate) :
  reach r st st' -> groupFree r = true -> m_caps st' = m_caps st.
Proof.
  induction 1; simpl; intros Hg; try reflexivity; try discriminate;
    try (apply andb_true_iff in Hg; destruct Hg as [Ha Hb]).
  - rewrite IHreach2, IHreach1; auto.
  - auto.
  - auto.
  - rewrite IHreach2, IHreach1; auto.
Qed.

Lemma in_range_In (lo hi : ascii) (c : N) :
  in_range lo hi c = true ->
  In c (map N.of_nat (seq (N.to_nat (cu lo))
                          (S (N.to_nat (cu hi)) - N.to_nat (cu lo)))).
Proof.
  unfold in_range. rewrite andb_true_iff, !N.leb_le. intros [H1 H2].
  rewrite <- (N2Nat.id c). apply in_map, in_seq. lia.
Qed.

Ltac enum H :=
  apply in_range_In in H; simpl in H;
  repeat (destruct H as [H|H]; [symmetry in H|]); try contradiction.

Ltac invert_reach :=
  repeat match goal with
         | H : reach (Alt _ _) _ _ |- _ => inv H
         | H : reach (Seq _ _) _ _ |- _ => inv H
         | H : reach (Class _) _ _ |- _ => inv H
         | H : reach Empty _ _ |- _ => inv H
         end.

Ltac pick_word :=
  match goal with
  | |- exists w, _ /\ m_rest _ = w ++ m_rest
         (advance ?c ?s (advance ?c0 ?s0 (advance ?c1 ?s1 _))) /\ _ =>
      exists [c1; c0; c]
  | |- exists w, _ /\ m_rest _ = w ++ m_rest
         (advance ?c ?s (advance ?c0 ?s0 _)) /\ _ =>
      exists [c0; c]
  | |- exists w, _ /\ m_rest _ = w ++ m_rest (advance ?c ?s _) /\ _ =>
      exists [c]
  end.

(** What a component of the pattern can match: the 256 literals, found
    by going through the four alternatives. *)
Lemma reach_rgbComponent (st st' : mstate) :
  reach rgbComponent st st' ->
  exists w,
    byteLiteral w
    /\ m_rest st = w ++ m_rest st'
    /\ m_acc st' = rev w ++ m_acc st
    /\ m_caps st' = m_caps st.
Proof.
  unfold rgbComponent, Char, Opt, digit. cbn [Rep]. intros H.
  invert_reach; pick_word;
    repeat match goal with
           | H : N.eqb _ _ = true |- _ => apply N.eqb_eq in H; subst
           end;
    simpl in *; subst;
    (split; [|repeat split; assumption]).
  all: repeat match goal with
              | H : in_range _ _ _ = true |- _ => enum H; subst
              end.
  all: (split; [vm_compute; split; discriminate | repeat split; reflexivity]).
Qed.

Lemma reach_component_group (g : nat) (st st' : mstate) :
  reach (Group g rgbComponent) st st' ->
  exists w, byteLiteral w /\ m_caps st' = (g, w) :: m_caps st.
Proof.
  intros H. inv H.
  match goal with H : reach rgbComponent _ _ |- _ =>
    apply reach_rgbComponent in H; destruct H as (w & Hw & _ & Hacc & Hcaps)
  end.
  exists w. split; [exact Hw|]. simpl in *.
  rewrite Hacc, Hcaps, app_nil_r, rev_involutive. reflexivity.
Qed.

Lemma reach_space_group (g : nat) (st st' : mstate) :
  reach (Group g (Star (Class whiteSpace))) st st' ->
  exists w, m_caps st' = (g, w) :: m_caps st.
Proof.
  intros H. inv H.
  match goal with H : reach (Star _) _ _ |- _ =>
    apply reach_groupFree in H; [|reflexivity];
    eexists; simpl in *; rewrite H; reflexivity
  end.
Qed.

Lemma reach_Char (a : ascii) (st st' : mstate) :
  reach (Char a) st st' -> m_caps st' = m_caps st.
Proof. intros H. apply reach_groupFree in H; [exact H | reflexivity]. Qed.

Lemma scan_sound (r : regex) (s : jsstring) :
  forall p prev m,
    scan r p prev s = Some m ->
    exists st0 st,
      m_caps st0 = [] /\ reach r st0 st /\ groups m = m_caps st.
Proof.
  assert (Hhead : forall p prev s st,
    mt r (MState p prev [] [] s) Some = Some st ->
    exists st0 st1,
      m_caps st0 = [] /\ reach r st0 st1 /\ m_caps st = m_caps st1).
  { intros p prev s0 st H. apply mt_sound in H.
    destruct H as (st' & Hreach & Heq). injection Heq as <-.
    exists (MState p prev [] [] s0), st'. auto. }
  induction s as [|c s IH]; intros p prev m; simpl.
  - destruct (mt r _ Some) as [st|] eqn:E; [|discriminate].
    intros [= <-]. exact (Hhead _ _ _ _ E).
  - destruct (mt r _ Some) as [st|] eqn:E.
    + intros [= <-]. exact (Hhead _ _ _ _ E).
    + apply IH.
Qed.

(** C8, amended. Leading zeros are not matched: each of the three
    components that a match of [rgbArrayPattern] captures, in groups 2,
    5 and 8, is the decimal literal of an integer from 0 to 255 written
    with no leading zero, and [parseInt] reads it as that integer.
    (So [{025,0,0}] has no match, while [{25,0,0}] matches with its
    first component captured as [25] and read as the value 25.) *)
Theorem rgbArrayPattern_components (text : jsstring) (lastIndex : nat)
  (m : Match) :
  exec rgbArrayPattern text lastIndex = Some m ->
  exists w1 w2 w3,
    group m 2 = Some w1 /\ group m 5 = Some w2 /\ group m 8 = Some w3
    /\ byteLiteral w1 /\ byteLiteral w2 /\ byteLiteral w3.
Proof.
  unfold exec. destruct (Nat.ltb _ _); [discriminate|].
  intros H. apply scan_sound in H.
  destruct H as (st0 & st & Hcaps0 & Hreach & Hgroups).
  unfold rgbArrayPattern in Hreach.
  repeat match goal with
         | H : reach (Seq _ _) _ _ |- _ => inv H
         end.
  repeat match goal with
         | H : reach (Char _) _ _ |- _ => apply reach_Char in H
         | H : reach (Group _ rgbComponent) _ _ |- _ =>
             apply reach_component_group in H;
             let w := fresh "w" in
             let Hw := fresh "Hw" in
             destruct H as (w & Hw & H)
         | H : reach (Group _ (Star _)) _ _ |- _ =>
             apply reach_space_group in H; destruct H as (? & H)
         end.
  unfold group. rewrite Hgroups.
  repeat match goal with
         | H : m_caps _ = _ |- _ => rewrite H; clear H
         end.
  do 3 eexists.
  split; [reflexivity|]. split; [reflexivity|]. split; [reflexivity|].
  split; [eassumption|]. split; eassumption.
Qed.

Lemma rgbArrayPattern_components_witness :
  exec rgbArrayPattern (js "{025,0,0}") 0 = None
  /\ exists m,
    exec rgbArrayPattern (js "{25,0,0}") 0 = Some m
    /\ group m 2 = Some (js "25")
    /\ component m 2 = IInt 25
    /\ exists w1 w2 w3,
         group m 2 = Some w1 /\ group m 5 = Some w2 /\ group m 8 = Some w3
         /\ byteLiteral w1 /\ byteLiteral w2 /\ byteLiteral w3.
Proof.
  split; [vm_compute; reflexivity|].
  eexists. split; [vm_compute; reflexivity|].
  split; [reflexivity|]. split; [reflexivity|].
  apply (rgbArrayPattern_components (js "{25,0,0}") 0).
  vm_compute; reflexivity.
Defined.

(* ================================================================== *)
(** * The colour codec: bytes *)

Ltac byte_table solve_one :=
  unfold bytes;
  repeat (apply Forall_cons; [solve_one|]);
  apply Forall_nil.

Lemma in_bytes (k : Z) : (0 <= k <= 255)%Z -> In k bytes.
Proof.
  intros Hk. unfold bytes.
  rewrite <- (Z2Nat.id k) by lia.
  apply in_map, in_seq. lia.
Qed.

Lemma hexByte_table : Forall hexByteFacts bytes.
Proof. byte_table ltac:(vm_compute; repeat split; reflexivity). Qed.

Lemma hexByte (k : Z) : (0 <= k <= 255)%Z -> hexByteFacts k.
Proof.
  intros Hk. pose proof hexByte_table as H.
  rewrite Forall_forall in H. apply H, in_bytes, Hk.
Qed.

Lemma tripletByte_table : Forall tripletByteFacts bytes.
Proof. byte_table ltac:(vm_compute; repeat split; reflexivity). Qed.

Lemma tripletByte (k : Z) : (0 <= k <= 255)%Z -> tripletByteFacts k.
Proof.
  intros Hk. pose proof tripletByte_table as H.
  rewrite Forall_forall in H. apply H, in_bytes, Hk.
Qed.

(** [parseColor] on the seven and on the nine code units of a full
    form. *)
Lemma parseColor_7 (x a b c d e f : N) :
  parseColor [x; a; b; c; d; e; f]
  = {| red := (toNumber (parseInt [a; b] 16) / 255)%float;
       green := (toNumber (parseInt [c; d] 16) / 255)%float;
       blue := (toNumber (parseInt [e; f] 16) / 255)%float;
       alpha := 1%float |}.
Proof. reflexivity. Qed.

Lemma parseColor_9 (x a b c d e f g h : N) :
  parseColor [x; a; b; c; d; e; f; g; h]
  = {| red := (toNumber (parseInt [a; b] 16) / 255)%float;
       green := (toNumber (parseInt [c; d] 16) / 255)%float;
       blue := (toNumber (parseInt [e; f] 16) / 255)%float;
       alpha := (toNumber (parseInt [g; h] 16) / 255)%float |}.
Proof. reflexivity. Qed.

Lemma Color_eq (c : Color) (r g b a : float) :
  red c = r -> green c = g -> blue c = b -> alpha c = a ->
  {| red := r; green := g; blue := b; alpha := a |} = c.
Proof. destruct c; simpl; intros; subst; reflexivity. Qed.

(** C2. For a colour whose red, green and blue are [k / 255] for bytes
    [k], and whose alpha is 1 or [k / 255] for a byte [k] below 255,
    [parseColor] gives back the colour that [stringifyColor] encoded,
    with either casing; an alpha of 1 is left out of the text and
    restored by [parseColor]. *)
Theorem parseColor_stringifyColor (c : Color) (casing : Casing)
  (r g b : Z) :
  (0 <= r <= 255)%Z -> (0 <= g <= 255)%Z -> (0 <= b <= 255)%Z ->
  red c = channel r -> green c = channel g -> blue c = channel b ->
  (alpha c = 1%float
   \/ exists k, (0 <= k < 255)%Z /\ alpha c = channel k) ->
  parseColor (stringifyColor c casing) = c
  /\ (alpha c = 1%float -> length (stringifyColor c casing) = 7).
Proof.
  intros Hr Hg Hb Er Eg Eb Ea.
  destruct (hexByte r Hr) as (_ & C1 & U1 & L1 & _).
  destruct (hexByte g Hg) as (_ & C2 & U2 & L2 & _).
  destruct (hexByte b Hb) as (_ & C3 & U3 & L3 & _).
  unfold stringifyColor. rewrite Er, Eg, Eb, C1, C2, C3.
  unfold hexDigits in *. cbn [toUpperCase toLowerCase map] in *.
  destruct Ea as [Ea | (k & Hk & Ea)].
  - rewrite Ea. change (1 <? 1)%float with false. cbn [app].
    split; [|intros _; destruct casing; reflexivity].
    destruct casing; cbn [toUpperCase toLowerCase map];
      rewrite parseColor_7; apply Color_eq; congruence.
  - destruct (hexByte k ltac:(lia)) as (_ & C4 & U4 & L4 & Hlt).
    assert (Hlt1 : (channel k <? 1)%float = true)
      by (rewrite Hlt; apply Z.ltb_lt; lia).
    rewrite Ea, Hlt1, C4.
    unfold hexDigits in *. cbn [toUpperCase toLowerCase map app] in *.
    split.
    + destruct casing; cbn [toUpperCase toLowerCase map];
        rewrite parseColor_9; apply Color_eq; congruence.
    + intros H1. rewrite H1 in Hlt1. discriminate Hlt1.
Qed.

Lemma parseColor_stringifyColor_witness :
  parseColor (stringifyColor steelBlue Lowercase) = steelBlue
  /\ (alpha steelBlue = 1%float
      -> length (stringifyColor steelBlue Lowercase) = 7).
Proof.
  apply (parseColor_stringifyColor steelBlue Lowercase 51 102 153);
    try lia; try reflexivity.
  right. exists 128%Z. split; [lia | reflexivity].
Defined.

(* ================================================================== *)
(** * The colour codec: triplets *)

Lemma component_table : Forall componentMatches bytes.
Proof.
  byte_table ltac:(
    intros g1 g2 g3 p pv acc caps sep tail K res Hsep w st H;
    destruct Hsep as [-> | ->]; cbv in H |- *; rewrite H; reflexivity).
Qed.

Lemma component_matches (k : Z) :
  (0 <= k <= 255)%Z -> componentMatches k.
Proof.
  intros Hk. pose proof component_table as H.
  rewrite Forall_forall in H. apply H, in_bytes, Hk.
Qed.

Lemma scan_head_match (r : regex) (p : nat) (prev : option N)
  (s : jsstring) (st : mstate) :
  mt r (MState p prev [] [] s) Some = Some st ->
  scan r p prev s = Some (MkMatch p (rev (m_acc st)) (m_caps st)).
Proof. intros H. destruct s; simpl; rewrite H; reflexivity. Qed.

Lemma mt_Char_seq (a : ascii) (R : regex) (p : nat) (pv : option N)
  (acc : jsstring) (caps : list (nat * jsstring)) (rest : jsstring)
  (K : mstate -> option mstate) :
  mt (Seq (Char a) R) (MState p pv acc caps (cu a :: rest)) K
  = mt R (MState (S p) (Some (cu a)) (cu a :: acc) caps rest) K.
Proof. simpl. rewrite N.eqb_refl. reflexivity. Qed.

Lemma mt_Char_end (a : ascii) (p : nat) (pv : option N)
  (acc : jsstring) (caps : list (nat * jsstring)) (rest : jsstring) :
  mt (Char a) (MState p pv acc caps (cu a :: rest)) Some
  = Some (MState (S p) (Some (cu a)) (cu a :: acc) caps rest).
Proof. simpl. rewrite N.eqb_refl. reflexivity. Qed.

(** A component inside the sequence of the pattern. *)
Lemma mt_component_seq (k : Z) (g1 g2 g3 : nat) (R : regex) (p : nat)
  (pv : option N) (acc : jsstring) (caps : list (nat * jsstring))
  (sep : N) (tail : jsstring) (K : mstate -> option mstate)
  (res : mstate) :
  (0 <= k <= 255)%Z ->
  (sep = cu "," \/ sep = cu "}") ->
  let w := toStringRadix 10 (IInt k) in
  let st := MState p pv acc caps (w ++ sep :: tail) in
  mt R (afterComponent g1 g2 g3 w sep tail st) K = Some res ->
  mt (Seq (Group g1 (Star (Class whiteSpace)))
        (Seq (Group g2 rgbComponent)
           (Seq (Group g3 (Star (Class whiteSpace))) R))) st K
  = Some res.
Proof.
  intros Hk Hsep w st H.
  exact (component_matches k Hk g1 g2 g3 p pv acc caps sep tail
           (fun s3 => mt R s3 K) res Hsep H).
Qed.

(** The match of [rgbArrayPattern] on the triplet of three bytes. *)
Lemma exec_triplet (r g b : Z) :
  (0 <= r <= 255)%Z -> (0 <= g <= 255)%Z -> (0 <= b <= 255)%Z ->
  let wr := toStringRadix 10 (IInt r) in
  let wg := toStringRadix 10 (IInt g) in
  let wb := toStringRadix 10 (IInt b) in
  let text := js "{" ++ wr ++ js "," ++ wg ++ js "," ++ wb ++ js "}" in
  exists m,
    exec rgbArrayPattern text 0 = Some m
    /\ index m = 0
    /\ matched m = text
    /\ group m 2 = Some wr /\ group m 5 = Some wg /\ group m 8 = Some wb.
Proof.
  intros Hr Hg Hb wr wg wb text.
  unfold exec. change (Nat.ltb (length text) 0) with false.
  cbn [prevChar skipn].
  eexists. split.
  - apply scan_head_match.
    unfold text, rgbArrayPattern.
    change (js "{" ++ wr ++ js "," ++ wg ++ js "," ++ wb ++ js "}")
      with (cu "{" :: (wr ++ cu "," :: (wg ++ cu "," :: (wb ++ [cu "}"])))).
    rewrite mt_Char_seq.
    apply (mt_component_seq r); [exact Hr | left; reflexivity |].
    unfold afterComponent; cbn [m_pos m_acc m_caps].
    rewrite mt_Char_seq.
    apply (mt_component_seq g); [exact Hg | left; reflexivity |].
    unfold afterComponent; cbn [m_pos m_acc m_caps].
    rewrite mt_Char_seq.
    apply (mt_component_seq b); [exact Hb | right; reflexivity |].
    unfold afterComponent; cbn [m_pos m_acc m_caps].
    apply mt_Char_end.
  - cbn [index matched groups group assoc_nat Nat.eqb m_acc m_caps].
    split; [reflexivity|]. split; [|repeat split; reflexivity].
    unfold text.
    repeat (progress cbn [rev app js map list_ascii_of_string]
            || rewrite rev_app_distr || rewrite rev_involutive
            || rewrite <- app_assoc).
    reflexivity.
Qed.

(** C7, as stated, fails: the red of [halfRed] is 0.5, which the triplet
    renders as 127 and reads back as [127 / 255]. *)
Lemma decodeTriplet_halfRed_counterexample :
  alpha halfRed = 1%float
  /\ colorToRgbArray halfRed = js "{127,0,0}"
  /\ decodeTriplet (colorToRgbArray halfRed) = Some (rgb 127 0 0)
  /\ decodeTriplet (colorToRgbArray halfRed) <> Some halfRed.
Proof.
  repeat split; try (vm_compute; reflexivity).
  intros H.
  apply (f_equal (fun o => match o with
                           | Some c => (red c <? 0.5)%float
                           | None => false
                           end)) in H.
  vm_compute in H. discriminate H.
Qed.

(** C7, amended. For a colour whose red, green and blue are [k / 255]
    for bytes [k] and whose alpha is 1, the triplet that
    [colorToRgbArray] renders is matched by [rgbArrayPattern] from its
    first code unit to its last and decoded to the same colour. *)
Theorem decodeTriplet_colorToRgbArray (c : Color) (r g b : Z) :
  (0 <= r <= 255)%Z -> (0 <= g <= 255)%Z -> (0 <= b <= 255)%Z ->
  red c = channel r -> green c = channel g -> blue c = channel b ->
  alpha c = 1%float ->
  decodeTriplet (colorToRgbArray c) = Some c
  /\ matchesWhole rgbArrayPattern (colorToRgbArray c) = true.
Proof.
  intros Hr Hg Hb Er Eg Eb Ea.
  destruct (hexByte r Hr) as (Fr & _).
  destruct (hexByte g Hg) as (Fg & _).
  destruct (hexByte b Hb) as (Fb & _).
  destruct (tripletByte r Hr) as (Pr & Xr & Nr & _).
  destruct (tripletByte g Hg) as (Pg & Xg & Ng & _).
  destruct (tripletByte b Hb) as (Pb & Xb & Nb & _).
  unfold colorToRgbArray. rewrite Er, Eg, Eb, Fr, Fg, Fb.
  destruct (exec_triplet r g b Hr Hg Hb)
    as (m & Hexec & Hindex & Hmatched & G2 & G5 & G8).
  cbv zeta in Hexec, Hmatched. split.
  - unfold decodeTriplet. rewrite Hexec.
    unfold rgbMatchToHex, component. rewrite G2, G5, G8, Pr, Pg, Pb.
    rewrite Xr, Xg, Xb. unfold hexDigits in *. cbn [app].
    rewrite parseColor_7. f_equal. apply Color_eq; congruence.
  - unfold matchesWhole. rewrite Hexec, Hindex, Hmatched.
    rewrite jsstring_eqb_refl. reflexivity.
Qed.

Lemma decodeTriplet_colorToRgbArray_witness :
  decodeTriplet (colorToRgbArray (rgb 255 165 0)) = Some (rgb 255 165 0)
  /\ matchesWhole rgbArrayPattern (colorToRgbArray (rgb 255 165 0)) = true.
Proof.
  apply (decodeTriplet_colorToRgbArray (rgb 255 165 0) 255 165 0);
    try lia; reflexivity.
Defined.

(** ** A triplet written by the colour picker, read by the detection

    The same round trip through the handlers: the presentation offered
    for a colour in a C++ document, once it is the text of the document,
    is detected as one token of that colour. *)

Lemma scan_without_hash (s : jsstring) :
  forall p prev,
    forallb (fun x => negb (N.eqb (cu "#") x)) s = true ->
    scan colorTokenPattern p prev s = None.
Proof.
  induction s as [|c s IH]; intros p prev H; [reflexivity|].
  cbn [forallb] in H. apply andb_true_iff in H. destruct H as [Hc Hs].
  apply negb_true_iff in Hc.
  rewrite scan_cons_fail; [apply IH; exact Hs|].
  unfold colorTokenPattern, Char. cbn [mt m_rest]. rewrite Hc. reflexivity.
Qed.

Lemma exec_at_end (r : regex) (text : jsstring) :
  consuming r = true -> exec r text (length text) = None.
Proof.
  intros Hc. destruct (exec r text (length text)) as [m|] eqn:E;
    [|reflexivity].
  destruct (exec_bounds _ _ _ _ E) as (_ & He & Hp).
  specialize (Hp Hc). lia.
Qed.

Lemma digits_without_hash (w : jsstring) :
  forallb digit w = true ->
  forallb (fun x => negb (N.eqb (cu "#") x)) w = true.
Proof.
  rewrite !forallb_forall. intros H x Hx. specialize (H x Hx).
  apply negb_true_iff, N.eqb_neq. intros <-. discriminate H.
Qed.

(** X21. The presentation offered for an opaque colour of bytes in a
    C++ document, once it is the whole text of that document, is
    detected by [onDocumentColor], which does not throw, as one token,
    of that very colour. *)
Lemma onDocumentColor_written_triplet (st : Server)
  (textDocument : TextDocument) (c : Color) (r g b : Z) :
  (0 <= r <= 255)%Z -> (0 <= g <= 255)%Z -> (0 <= b <= 255)%Z ->
  red c = channel r -> green c = channel g -> blue c = channel b ->
  alpha c = 1%float ->
  fst (documentsGet (uri textDocument) st) = Some textDocument ->
  colorDocument st textDocument = true ->
  isCpp (languageId textDocument) = true ->
  (1 <= capOf st)%Z ->
  fst (onColorPresentation (uri textDocument) c st) = [getText textDocument] ->
  exists informations,
    fst (onDocumentColor (uri textDocument) st) = Normal informations
    /\ map ci_color informations = [c].
Proof.
  intros Hr Hg Hb Er Eg Eb Ea Hget Hcolor Hcpp Hcap Hpres.
  (* the presentation offered is the triplet *)
  assert (Htext : getText textDocument = colorToRgbArray c).
  { revert Hpres. unfold onColorPresentation, bind.
    unfold documentsGet, bind, get, ret in Hget |- *. simpl in Hget.
    cbn [fst snd]. rewrite Hget. unfold colorDocument in Hcolor.
    destruct (isColorLanguage (languageId textDocument) st) as [b0 st1].
    simpl in Hcolor; subst b0.
    destruct (getGlobalSettings st1) as [settings st2].
    rewrite Hcpp. simpl. intros [= ->]. reflexivity. }
  destruct (hexByte r Hr) as (Fr & _).
  destruct (hexByte g Hg) as (Fg & _).
  destruct (hexByte b Hb) as (Fb & _).
  destruct (tripletByte r Hr) as (Pr & Xr & Nr & Dr).
  destruct (tripletByte g Hg) as (Pg & Xg & Ng & Dg).
  destruct (tripletByte b Hb) as (Pb & Xb & Nb & Db).
  unfold colorToRgbArray in Htext. rewrite Er, Eg, Eb, Fr, Fg, Fb in Htext.
  destruct (exec_triplet r g b Hr Hg Hb)
    as (m & Hexec & Hindex & Hmatched & G2 & G5 & G8).
  cbv zeta in Hexec, Hmatched. rewrite <- Htext in Hexec, Hmatched.
  (* no hexadecimal token, one triplet *)
  assert (Hhex : matchesIn colorTokenPattern textDocument = []).
  { unfold matchesIn. cbn [execAll]. unfold exec at 1.
    change (Nat.ltb (length (getText textDocument)) 0) with false.
    cbn [prevChar skipn]. rewrite scan_without_hash; [reflexivity|].
    rewrite Htext. rewrite !forallb_app.
    rewrite (digits_without_hash _ Dr), (digits_without_hash _ Dg),
      (digits_without_hash _ Db). reflexivity. }
  assert (Hrgb : matchesIn rgbArrayPattern textDocument = [m]).
  { unfold matchesIn. cbn [execAll]. rewrite Hexec. f_equal.
    unfold endIndex. rewrite Hindex, Hmatched. cbn [Nat.add].
    destruct (length (getText textDocument)) eqn:El; [reflexivity|].
    rewrite <- El. cbn [execAll]. rewrite El at 1. cbn [execAll].
    rewrite exec_at_end; reflexivity. }
  unfold onDocumentColor, bind.
  unfold documentsGet, bind, get, ret in Hget |- *. simpl in Hget.
  cbn [fst snd]. rewrite Hget.
  rewrite (findColorTokens_color_language textDocument st Hcolor).
  rewrite Hhex, Hrgb, Hcpp. rewrite firstn_nil. cbn [length map app].
  assert (Hbudget : budget (capOf st) (Z.of_nat 0) = S (Nat.pred (budget (capOf st) 0)))
    by (unfold budget; simpl; lia).
  rewrite Hbudget. cbn [firstn map fst ret].
  rewrite firstn_nil.
  cbn [colorInformationArray rgbToken tokenAt ic_color ic_range].
  eexists. split; [reflexivity|]. cbn [map ci_color].
  unfold rgbMatchToHex, component. rewrite G2, G5, G8, Pr, Pg, Pb.
  rewrite Xr, Xg, Xb. unfold hexDigits in *. cbn [app].
  rewrite parseColor_7. f_equal. apply Color_eq; congruence.
Qed.

Lemma onDocumentColor_written_triplet_witness :
  exists informations,
    fst (onDocumentColor (uri redCpp) (startServer true capThree [redCpp]))
    = Normal informations
    /\ map ci_color informations = [rgb 255 0 0].
Proof.
  apply (onDocumentColor_written_triplet
           (startServer true capThree [redCpp]) redCpp (rgb 255 0 0)
           255 0 0); try lia; try reflexivity.
  vm_compute. discriminate.
Defined.

(* ================================================================== *)
(** * The token cache: what an update and a close touch *)

Lemma lookup_assign_other {V : Type} (key k : jsstring) (v : V)
  (obj : list (jsstring * V)) :
  key <> k -> lookup key (assign k v obj) = lookup key obj.
Proof.
  intros Hne. rewrite lookup_assign.
  destruct (jsstring_eqb key k) eqn:E; [|reflexivity].
  apply jsstring_eqb_eq in E. contradiction.
Qed.

Lemma lookup_remove {V : Type} (key k : jsstring) (obj : list (jsstring * V)) :
  lookup key (remove k obj)
  = if jsstring_eqb key k then None else lookup key obj.
Proof.
  induction obj as [|[k' w] obj IH]; simpl.
  - destruct (jsstring_eqb key k); reflexivity.
  - destruct (jsstring_eqb k k') eqn:Ek; simpl.
    + apply jsstring_eqb_eq in Ek; subst k'. rewrite IH.
      destruct (jsstring_eqb key k); reflexivity.
    + rewrite IH. destruct (jsstring_eqb key k') eqn:Ek'; [|reflexivity].
      apply jsstring_eqb_eq in Ek'; subst k'.
      destruct (jsstring_eqb key k) eqn:E; [|reflexivity].
      apply jsstring_eqb_eq in E; subst k.
      rewrite jsstring_eqb_refl in Ek. discriminate.
Qed.

Lemma assign_assign {V : Type} (k : jsstring) (v w : V)
  (obj : list (jsstring * V)) :
  assign k w (assign k v obj) = assign k w obj.
Proof.
  induction obj as [|[k' x] obj IH]; simpl.
  - rewrite jsstring_eqb_refl. reflexivity.
  - destruct (jsstring_eqb k k') eqn:E; simpl; rewrite E; [reflexivity|].
    rewrite IH. reflexivity.
Qed.

(** What [updateColorTokenCache] does to the cache, case by case. *)
Lemma updateColorTokenCache_cache (textDocument : TextDocument) (st : Server) :
  colorTokenCache (snd (updateColorTokenCache textDocument st))
  = if colorDocument st textDocument then
      match tryCatch (updateBody textDocument) None with
      | Some entry => assign (uri textDocument) entry (colorTokenCache st)
      | None => colorTokenCache st
      end
    else colorTokenCache st.
Proof.
  unfold colorDocument, updateColorTokenCache, bind.
  destruct (isColorLanguage_frame (languageId textDocument) st) as (Hc & _).
  destruct (isColorLanguage (languageId textDocument) st) as [b st1].
  simpl in Hc. cbn [fst]. destruct b; [|simpl; exact Hc].
  destruct (tryCatch (updateBody textDocument) None); simpl; rewrite Hc;
    reflexivity.
Qed.

(** X1. An update touches the entry of its own document only, and touches
    nothing when the document is not a json or jsonc document that is
    classified as a colour language: a C++ document never defines a
    variable. *)
Theorem updateColorTokenCache_touches_own_entry
  (textDocument : TextDocument) (st : Server) :
  (forall u,
     u <> uri textDocument ->
     lookup u (colorTokenCache (snd (updateColorTokenCache textDocument st)))
     = lookup u (colorTokenCache st))
  /\ (isJson (languageId textDocument) && colorDocument st textDocument = false ->
      colorTokenCache (snd (updateColorTokenCache textDocument st))
      = colorTokenCache st)
  /\ sent (snd (updateColorTokenCache textDocument st)) = sent st.
Proof.
  split; [|split].
  - intros u Hu. rewrite updateColorTokenCache_cache.
    destruct (colorDocument st textDocument); [|reflexivity].
    destruct (tryCatch _ _); [|reflexivity].
    apply lookup_assign_other. exact Hu.
  - intros H. rewrite updateColorTokenCache_cache.
    destruct (colorDocument st textDocument); [|reflexivity].
    rewrite andb_true_r in H. unfold updateBody. rewrite H. reflexivity.
  - unfold updateColorTokenCache, bind.
    destruct (isColorLanguage_frame (languageId textDocument) st) as (_ & Hs & _).
    destruct (isColorLanguage (languageId textDocument) st) as [b st1].
    simpl in Hs. destruct b; [|simpl; exact Hs].
    destruct (tryCatch (updateBody textDocument) None); simpl; exact Hs.
Qed.

(** X2. Closing a document removes its entry, whatever it held, and leaves
    the entries of the other documents and the messages sent as they
    were. *)
Theorem onDidClose_removes_entry (textDocument : TextDocument) (st : Server) :
  lookup (uri textDocument) (colorTokenCache (snd (onDidClose textDocument st)))
  = None
  /\ (forall u,
        u <> uri textDocument ->
        lookup u (colorTokenCache (snd (onDidClose textDocument st)))
        = lookup u (colorTokenCache st))
  /\ (forall variableName,
        cached (colorTokenCache (snd (onDidClose textDocument st)))
          (uri textDocument) variableName = None)
  /\ sent (snd (onDidClose textDocument st)) = sent st.
Proof.
  unfold onDidClose, bind, get, has. cbn [fst snd].
  destruct (lookup (uri textDocument) (colorTokenCache st)) eqn:E;
    cbn [setColorTokenCache ret snd colorTokenCache sent].
  - assert (Hnone : lookup (uri textDocument)
                      (remove (uri textDocument) (colorTokenCache st)) = None)
      by (rewrite lookup_remove, jsstring_eqb_refl; reflexivity).
    split; [exact Hnone|]. split; [|split; [|reflexivity]].
    + intros u Hu. rewrite lookup_remove.
      destruct (jsstring_eqb u (uri textDocument)) eqn:Eu; [|reflexivity].
      apply jsstring_eqb_eq in Eu. contradiction.
    + intros variableName. unfold cached. rewrite Hnone. reflexivity.
  - split; [exact E|]. split; [reflexivity|]. split; [|reflexivity].
    intros variableName. unfold cached. rewrite E. reflexivity.
Qed.

(** ** The last version of a document is the one cached *)

Lemma isColorLanguage_depends (l : jsstring) (st st' : Server) :
  cachedLanguages st = cachedLanguages st' ->
  cachedCSSLanguages st = cachedCSSLanguages st' ->
  remoteConfiguration st = remoteConfiguration st' ->
  fst (isColorLanguage l st) = fst (isColorLanguage l st').
Proof.
  unfold isColorLanguage, bind, get, ret, getRemoteConfiguration,
    setCachedLanguages, setCachedCSSLanguages.
  intros H1 H2 H3. rewrite <- H1, <- H2.
  destruct (undefined (cachedLanguages st) || undefined (cachedCSSLanguages st));
    simpl; rewrite <- ?H1, <- ?H2, <- ?H3; reflexivity.
Qed.

Lemma isColorLanguage_again (l0 l : jsstring) (st : Server) :
  fst (isColorLanguage l (snd (isColorLanguage l0 st)))
  = fst (isColorLanguage l st).
Proof.
  unfold isColorLanguage, bind, get, ret, getRemoteConfiguration,
    setCachedLanguages, setCachedCSSLanguages.
  destruct (cachedLanguages st) as [langs|] eqn:El;
    destruct (cachedCSSLanguages st) as [css|] eqn:Ec; simpl;
    rewrite ?El, ?Ec; simpl; rewrite ?El, ?Ec; reflexivity.
Qed.

Lemma updateColorTokenCache_classification (textDocument : TextDocument)
  (st : Server) :
  let st1 := snd (isColorLanguage (languageId textDocument) st) in
  let st' := snd (updateColorTokenCache textDocument st) in
  cachedLanguages st' = cachedLanguages st1
  /\ cachedCSSLanguages st' = cachedCSSLanguages st1
  /\ remoteConfiguration st' = remoteConfiguration st1.
Proof.
  unfold updateColorTokenCache, bind. cbv zeta.
  destruct (isColorLanguage (languageId textDocument) st) as [b st1].
  cbn [snd]. destruct b; [|simpl; auto].
  destruct (tryCatch (updateBody textDocument) None); simpl; auto.
Qed.

(** X3. Two versions of a document in a row: when the second is recorded,
    the cache is what recording the second alone gives; nothing of the
    first is left. *)
Theorem updateColorTokenCache_last_version (first second : TextDocument)
  (st : Server) (entry : VariableMap) :
  uri first = uri second ->
  colorDocument st second = true ->
  updateBody second = Normal (Some entry) ->
  colorTokenCache
    (snd (updateColorTokenCache second
            (snd (updateColorTokenCache first st))))
  = colorTokenCache (snd (updateColorTokenCache second st))
  /\ lookup (uri second)
       (colorTokenCache
          (snd (updateColorTokenCache second
                  (snd (updateColorTokenCache first st)))))
     = Some entry.
Proof.
  intros Huri Hcolor Hbody.
  assert (Hcolor' :
    colorDocument (snd (updateColorTokenCache first st)) second = true).
  { unfold colorDocument in *.
    destruct (updateColorTokenCache_classification first st) as (H1 & H2 & H3).
    cbv zeta in H1, H2, H3.
    rewrite (isColorLanguage_depends (languageId second) _ _ H1 H2 H3).
    rewrite isColorLanguage_again. exact Hcolor. }
  rewrite !updateColorTokenCache_cache. rewrite Hcolor, Hcolor', Hbody.
  cbn [tryCatch].
  assert (Hsame : forall c,
    assign (uri second) entry
      (match tryCatch (updateBody first) None with
       | Some e => assign (uri first) e c
       | None => c
       end) = assign (uri second) entry c).
  { intros c. destruct (tryCatch _ _); [|reflexivity].
    rewrite Huri. apply assign_assign. }
  split.
  - destruct (colorDocument st first); [apply Hsame | reflexivity].
  - rewrite lookup_assign, jsstring_eqb_refl. reflexivity.
Qed.

Lemma updateColorTokenCache_last_version_witness :
  colorTokenCache
    (snd (updateColorTokenCache themeJsonV2
            (snd (updateColorTokenCache themeJson
                    (startServer false defaultSettings [])))))
  = colorTokenCache
      (snd (updateColorTokenCache themeJsonV2
              (startServer false defaultSettings [])))
  /\ option_map (map (fun kv => (fst kv, color (snd kv))))
       (lookup (uri themeJsonV2)
          (colorTokenCache
             (snd (updateColorTokenCache themeJsonV2
                     (snd (updateColorTokenCache themeJson
                             (startServer false defaultSettings [])))))))
     = Some [(js "primary", js "#00ff00")].
Proof.
  destruct (updateColorTokenCache_last_version themeJson themeJsonV2
              (startServer false defaultSettings [])
              [(js "primary",
                {| color := js "#00ff00";
                   range := {| start := {| line := 0; character := 2 |};
                               end_ := {| line := 0; character := 9 |} |} |})])
    as [H1 H2]; [vm_compute; reflexivity ..|].
  split; [exact H1|]. rewrite H2. vm_compute. reflexivity.
Defined.

(* ================================================================== *)
(** * Where a match lies in the text *)

Lemma skipn_cons_inv {A : Type} (p : nat) :
  forall (text : list A) (c : A) (s : list A),
    skipn p text = c :: s ->
    skipn (S p) text = s /\ nth_error text p = Some c /\ p < length text.
Proof.
  induction p as [|p IH]; intros [|a text] c s; simpl; try discriminate.
  - intros [= -> ->]. repeat split. lia.
  - intros H. destruct (IH text c s H) as (H1 & H2 & H3). repeat split; auto.
    lia.
Qed.

Lemma scan_reach (r : regex) (text : jsstring) :
  forall s p m,
    s = skipn p text ->
    scan r p (prevChar text p) s = Some m ->
    exists st,
      reach r (MState (index m) (prevChar text (index m)) [] []
                 (skipn (index m) text)) st
      /\ groups m = m_caps st
      /\ matched m = rev (m_acc st).
Proof.
  induction s as [|c s IH]; intros p m Hs; simpl.
  - destruct (mt r _ Some) as [st|] eqn:E; [|discriminate].
    intros [= <-]. apply mt_sound in E. destruct E as (st' & Hreach & [= <-]).
    exists st'. simpl. rewrite <- Hs. auto.
  - destruct (mt r _ Some) as [st|] eqn:E.
    + intros [= <-]. apply mt_sound in E.
      destruct E as (st' & Hreach & [= <-]).
      exists st'. simpl. rewrite <- Hs. auto.
    + symmetry in Hs. destruct (skipn_cons_inv _ _ _ _ Hs) as (H1 & H2 & _).
      intros H. apply (IH (S p) m); [symmetry; exact H1|].
      simpl. rewrite H2. exact H.
Qed.

Lemma exec_reach (r : regex) (text : jsstring) (i : nat) (m : Match) :
  exec r text i = Some m ->
  exists st,
    reach r (MState (index m) (prevChar text (index m)) [] []
               (skipn (index m) text)) st
    /\ groups m = m_caps st
    /\ matched m = rev (m_acc st).
Proof.
  unfold exec. destruct (Nat.ltb (length text) i); [discriminate|].
  apply scan_reach. reflexivity.
Qed.

(** The text of a match is the text of the document between its two
    indices. *)
Lemma exec_matched_text (r : regex) (text : jsstring) (i : nat) (m : Match) :
  exec r text i = Some m ->
  slice (index m) (endIndex m) text = matched m.
Proof.
  intros H. destruct (exec_reach _ _ _ _ H) as (st & Hreach & _ & Hm).
  destruct (reach_consumes _ _ _ Hreach) as (w & Hrest & _ & Hacc).
  simpl in Hrest, Hacc. rewrite app_nil_r in Hacc.
  rewrite Hm, Hacc, rev_involutive. unfold slice, endIndex.
  rewrite Hm, Hacc, rev_involutive, Hrest.
  replace (index m + length w - index m) with (length w + 0) by lia.
  rewrite firstn_app_2. simpl. apply app_nil_r.
Qed.

(** Each match of the loop is a result of [exec]. *)
Lemma execAll_In (r : regex) (text : jsstring) (m : Match) :
  forall fuel i,
    In m (execAll fuel r text i) -> exists j, exec r text j = Some m.
Proof.
  induction fuel as [|fuel IH]; intros i; simpl; [tauto|].
  destruct (exec r text i) as [m0|] eqn:E; [|simpl; tauto].
  intros [<- | Hin]; [exists i; exact E | exact (IH _ Hin)].
Qed.

Lemma reach_Star_Class (p : N -> bool) (st st' : mstate) :
  reach (Star (Class p)) st st' ->
  exists w,
    forallb p w = true
    /\ m_rest st = w ++ m_rest st'
    /\ m_acc st' = rev w ++ m_acc st
    /\ m_caps st' = m_caps st.
Proof.
  intros H. remember (Star (Class p)) as r eqn:Er.
  induction H; try discriminate.
  - exists []. auto.
  - injection Er as ->. specialize (IHreach2 eq_refl).
    destruct IHreach2 as (w & Hw & Hrest & Hacc & Hcaps).
    inv H. exists (c :: w). simpl in *.
    match goal with Hp : p c = true |- _ => rewrite Hp end.
    match goal with Hr : m_rest _ = c :: _ |- _ => rewrite Hr end.
    rewrite Hrest, Hacc, Hcaps, <- app_assoc. auto.
Qed.

Lemma reach_Plus_Class (p : N -> bool) (st st' : mstate) :
  reach (Plus (Class p)) st st' ->
  exists w,
    w <> [] /\ forallb p w = true
    /\ m_rest st = w ++ m_rest st'
    /\ m_acc st' = rev w ++ m_acc st
    /\ m_caps st' = m_caps st.
Proof.
  unfold Plus. intros H. inv H.
  match goal with H : reach (Star _) _ _ |- _ =>
    apply reach_Star_Class in H; destruct H as (w & Hw & Hrest & Hacc & Hcaps)
  end.
  match goal with H : reach (Class _) _ _ |- _ => inv H end.
  exists (c :: w). simpl in *.
  match goal with Hp : p c = true |- _ => rewrite Hp end.
  match goal with Hr : m_rest _ = c :: _ |- _ => rewrite Hr end.
  rewrite Hrest, Hacc, Hcaps, <- app_assoc.
  repeat split; auto. discriminate.
Qed.

(** ** The keys [jsonKeyPattern] finds *)

(** A match of [jsonKeyPattern] is a run of key characters that a quote
    precedes, and the name the loop reads from its groups is the text
    matched. *)
Lemma exec_jsonKeyPattern (text : jsstring) (i : nat) (m : Match) :
  exec jsonKeyPattern text i = Some m ->
  nullish (group m varDoulbeQuote) (group m varSingleQuote) = Some (matched m)
  /\ truthy (matched m) = true
  /\ forallb jsonKeyChar (matched m) = true
  /\ (prevChar text (index m) = Some dquote
      \/ prevChar text (index m) = Some (cu "'")).
Proof.
  intros H. destruct (exec_reach _ _ _ _ H) as (st & Hreach & Hg & Hm).
  unfold group. rewrite Hg, Hm. clear H Hg Hm.
  unfold jsonKeyPattern in Hreach. inv Hreach.
  match goal with H : reach (Alt _ _) _ _ |- _ => inv H end.
  all: match goal with H : reach (Group _ _) _ _ |- _ => inv H end.
  all: match goal with H : reach (Seq _ _) _ _ |- _ => inv H end.
  all: match goal with H : reach (Seq _ _) _ _ |- _ => inv H end.
  all: match goal with H : reach (PrecededBy _) _ _ |- _ => inv H end.
  all: match goal with H : reach (LookAhead _) _ _ |- _ => inv H end.
  all: match goal with H : reach (Group _ _) _ _ |- _ => inv H end.
  all: match goal with H : reach (Plus _) _ _ |- _ =>
         apply reach_Plus_Class in H;
         destruct H as (w & Hne & Hw & _ & Hacc & Hcaps)
       end.
  all: match goal with H : N.eqb _ _ = true |- _ => apply N.eqb_eq in H end.
  all: simpl in *; rewrite ?Hacc, ?Hcaps; simpl;
    rewrite ?app_nil_r, ?rev_involutive.
  all: split; [reflexivity|]; split; [destruct w; [contradiction|reflexivity]|];
    split; [exact Hw|]; subst c; auto.
Qed.

(** ** The range recorded for a variable *)

Section KeyRange.
Variable textDocument : TextDocument.
Variable text : jsstring.
Variable jsonObj : json.

Lemma keyLoop_last_key (fuel : nat) :
  forall lastIndex obj res name v,
    keyLoop fuel textDocument text jsonObj lastIndex obj = Normal res ->
    lookup name res = Some v ->
    (lookup name obj = Some v
     /\ ((exists token, getProp jsonObj name = Some token
                        /\ isColorToken token = true) ->
         Forall (fun m' => matched m' <> name)
           (execAll fuel jsonKeyPattern text lastIndex)))
    \/ (exists before m after,
          execAll fuel jsonKeyPattern text lastIndex = before ++ m :: after
          /\ matched m = name
          /\ range v
             = {| start := positionAt textDocument (index m);
                  end_ := positionAt textDocument (index m + length name) |}
          /\ Forall (fun m' => matched m' <> name) after).
Proof.
  induction fuel as [|fuel IH]; intros lastIndex obj res name v; simpl.
  - intros [= <-] Hv. left. split; [exact Hv|]. intros _. constructor.
  - destruct (exec jsonKeyPattern text lastIndex) as [m|] eqn:E.
    2:{ intros [= <-] Hv. left. split; [exact Hv|]. intros _. constructor. }
    destruct (exec_jsonKeyPattern _ _ _ E) as (Hname & Htruthy & _).
    rewrite Hname, Htruthy.
    destruct (getProp jsonObj (matched m)) as [token|] eqn:Eprop;
      [|discriminate].
    assert (Hlater : forall before m0 after,
      execAll fuel jsonKeyPattern text (endIndex m) = before ++ m0 :: after ->
      m :: execAll fuel jsonKeyPattern text (endIndex m)
      = (m :: before) ++ m0 :: after)
      by (intros before m0 after ->; reflexivity).
    destruct (isColorToken token) eqn:Etok; intros Hloop Hv;
      destruct (IH _ _ _ _ _ Hloop Hv)
        as [[Hobj Hnone] | (before & m0 & after & Hall & Hrest)];
      try (right; exists (m :: before), m0, after;
           split; [apply Hlater; exact Hall | exact Hrest]).
    + rewrite lookup_assign in Hobj.
      destruct (jsstring_eqb name (matched m)) eqn:Ename.
      * apply jsstring_eqb_eq in Ename; subst name. injection Hobj as <-.
        right. exists [], m, (execAll fuel jsonKeyPattern text (endIndex m)).
        repeat split. apply Hnone. exists token. auto.
      * left. split; [exact Hobj|]. intros Hc. constructor; [|auto].
        intros <-. rewrite jsstring_eqb_refl in Ename. discriminate.
    + left. split; [exact Hobj|]. intros Hc. constructor; [|auto].
      intros <-. destruct Hc as (token' & Hp & Ht). congruence.
Qed.
End KeyRange.

(** X4. The range recorded for a variable is that of a key of the text: of
    the last place where [jsonKeyPattern] finds the name, which a quote
    precedes, from its first character to its last.  An earlier place
    where the same name is a key, in a nested object for one, is
    overwritten. *)
Theorem updateColorTokenCache_range_of_last_key
  (textDocument : TextDocument) (entry : VariableMap)
  (name : jsstring) (v : CachedVariable) :
  updateBody textDocument = Normal (Some entry) ->
  lookup name entry = Some v ->
  exists before m after,
    matchesIn jsonKeyPattern textDocument = before ++ m :: after
    /\ Forall (fun m' => matched m' <> name) after
    /\ slice (index m) (index m + length name) (getText textDocument) = name
    /\ (prevChar (getText textDocument) (index m) = Some dquote
        \/ prevChar (getText textDocument) (index m) = Some (cu "'"))
    /\ range v
       = {| start := positionAt textDocument (index m);
            end_ := positionAt textDocument (index m + length name) |}.
Proof.
  unfold updateBody, matchesIn.
  destruct (isJson (languageId textDocument)); [|discriminate].
  destruct (JSON.parse (getText textDocument)) as [jsonObj|]; [|discriminate].
  destruct (keyLoop _ _ _ _ _ _) as [obj|] eqn:Eloop; [|discriminate].
  intros [= <-] Hv.
  destruct (keyLoop_last_key _ _ _ _ _ _ _ _ _ Eloop Hv)
    as [[Hobj _] | (before & m & after & Hall & Hname & Hrange & Hafter)];
    [discriminate|].
  exists before, m, after.
  assert (Hin : In m (execAll (S (length (getText textDocument)))
                        jsonKeyPattern (getText textDocument) 0))
    by (rewrite Hall; apply in_or_app; right; left; reflexivity).
  destruct (execAll_In _ _ _ _ _ Hin) as (i & Hexec).
  destruct (exec_jsonKeyPattern _ _ _ Hexec) as (_ & _ & _ & Hquote).
  pose proof (exec_matched_text _ _ _ _ Hexec) as Htext.
  unfold endIndex in Htext. rewrite Hname in Htext.
  repeat split; assumption.
Qed.

Lemma updateColorTokenCache_range_of_last_key_witness :
  exists before m after,
    matchesIn jsonKeyPattern shadowedJson = before ++ m :: after
    /\ Forall (fun m' => matched m' <> js "accent") after
    /\ slice (index m) (index m + length (js "accent")) (getText shadowedJson)
       = js "accent"
    /\ (prevChar (getText shadowedJson) (index m) = Some dquote
        \/ prevChar (getText shadowedJson) (index m) = Some (cu "'"))
    /\ {| start := {| line := 0; character := 32 |};
          end_ := {| line := 0; character := 38 |} |}
       = {| start := positionAt shadowedJson (index m);
            end_ := positionAt shadowedJson (index m + length (js "accent")) |}.
Proof.
  apply (updateColorTokenCache_range_of_last_key shadowedJson
           [(js "accent",
             {| color := js "#ff0000";
                range := {| start := {| line := 0; character := 32 |};
                            end_ := {| line := 0; character := 38 |} |} |})]
           (js "accent")
           {| color := js "#ff0000";
              range := {| start := {| line := 0; character := 32 |};
                          end_ := {| line := 0; character := 38 |} |} |});
    vm_compute; reflexivity.
Defined.

(* ================================================================== *)
(** * References and keys *)

Lemma reach_Lit (s : jsstring) :
  forall st st',
    reach (Lit s) st st' ->
    m_rest st = s ++ m_rest st'
    /\ m_acc st' = rev s ++ m_acc st
    /\ m_caps st' = m_caps st.
Proof.
  induction s as [|c s IH]; intros st st' H; cbn [Lit] in H.
  - inv H. auto.
  - inv H.
    match goal with H : reach (Class _) _ _ |- _ => inv H end.
    match goal with H : N.eqb _ _ = true |- _ => apply N.eqb_eq in H; subst end.
    match goal with H : reach (Lit _) _ _ |- _ =>
      destruct (IH _ _ H) as (R & A & C)
    end.
    simpl in *. rewrite A, C, <- app_assoc.
    match goal with Hr : m_rest st = _ |- _ => rewrite Hr end.
    rewrite R. auto.
Qed.

Lemma reach_Seq_inv (a b : regex) (st st' : mstate) :
  reach (Seq a b) st st' ->
  exists st1, reach a st st1 /\ reach b st1 st'.
Proof. intros H. inv H. eauto. Qed.

(** X5. A reference found in a text lies in it, where its indices say: it
    is [var(--], a name of one or more letters, digits and hyphens, and
    a closing parenthesis, and the name is the variable looked up. *)
Theorem cssVariablePattern_match (text : jsstring) (lastIndex : nat)
  (m : Match) :
  exec cssVariablePattern text lastIndex = Some m ->
  slice (index m) (endIndex m) text = matched m
  /\ lastIndex <= index m /\ endIndex m <= length text
  /\ matched m = js "var(--" ++ cssVarOf m ++ js ")"
  /\ cssVarOf m <> []
  /\ forallb cssVarChar (cssVarOf m) = true.
Proof.
  intros H. split; [exact (exec_matched_text _ _ _ _ H)|].
  destruct (exec_bounds _ _ _ _ H) as (Hlo & Hhi & _).
  split; [exact Hlo|]. split; [exact Hhi|].
  destruct (exec_reach _ _ _ _ H) as (st & Hreach & Hg & Hm).
  unfold cssVarOf, group. rewrite Hg, Hm. clear H Hg Hm Hlo Hhi.
  unfold cssVariablePattern in Hreach.
  apply reach_Seq_inv in Hreach. destruct Hreach as (st1 & Hlit & Hreach).
  apply reach_Seq_inv in Hreach. destruct Hreach as (st2 & Hgroup & Hchar).
  apply reach_Lit in Hlit. destruct Hlit as (_ & A1 & C1).
  match goal with H : reach (Group _ _) _ _ |- _ => inv H end.
  match goal with H : reach (Plus _) _ _ |- _ =>
    apply reach_Plus_Class in H;
    destruct H as (w & Hne & Hw & _ & A2 & C2)
  end.
  match goal with H : reach (Char _) _ _ |- _ => inv H end.
  match goal with H : N.eqb _ _ = true |- _ => apply N.eqb_eq in H; subst end.
  simpl in *. rewrite A2, A1, app_nil_r, rev_app_distr, rev_involutive.
  simpl. rewrite <- ?app_assoc. repeat split; auto.
Qed.

Lemma cssVariablePattern_match_witness :
  exists m,
    exec cssVariablePattern (getText styleCss) 20 = Some m
    /\ slice (index m) (endIndex m) (getText styleCss) = js "var(--missing)"
    /\ cssVarOf m = js "missing".
Proof.
  eexists. split; [vm_compute; reflexivity|].
  destruct (cssVariablePattern_match (getText styleCss) 20
              {| index := 40; matched := js "var(--missing)";
                 groups := [(1, js "missing")] |})
    as (Hslice & _); [vm_compute; reflexivity|].
  split; [exact Hslice | reflexivity].
Defined.

(** ** Every key that names a colour is recorded *)

Section KeyLoopComplete.
Variable textDocument : TextDocument.
Variable text : jsstring.
Variable jsonObj : json.

Lemma keyLoop_keeps (name : jsstring) (token : option json) (fuel : nat) :
  getProp jsonObj name = Some token ->
  forall lastIndex obj res,
    (exists v, lookup name obj = Some v /\ color v = stringValue token) ->
    keyLoop fuel textDocument text jsonObj lastIndex obj = Normal res ->
    exists v, lookup name res = Some v /\ color v = stringValue token.
Proof.
  intros Hprop. induction fuel as [|fuel IH]; intros lastIndex obj res Hobj;
    simpl.
  - intros [= <-]; exact Hobj.
  - destruct (exec jsonKeyPattern text lastIndex) as [m|];
      [|intros [= <-]; exact Hobj].
    destruct (nullish (group m varDoulbeQuote) (group m varSingleQuote))
      as [variableName|]; [|apply IH; exact Hobj].
    destruct (truthy variableName); [|apply IH; exact Hobj].
    destruct (getProp jsonObj variableName) as [token'|] eqn:Eprop;
      [|discriminate].
    destruct (isColorToken token'); [|apply IH; exact Hobj].
    apply IH. rewrite lookup_assign.
    destruct (jsstring_eqb name variableName) eqn:Ename; [|exact Hobj].
    apply jsstring_eqb_eq in Ename; subst variableName.
    eexists. split; [reflexivity|]. simpl. congruence.
Qed.

Lemma keyLoop_complete (fuel : nat) :
  forall lastIndex obj res m token,
    keyLoop fuel textDocument text jsonObj lastIndex obj = Normal res ->
    In m (execAll fuel jsonKeyPattern text lastIndex) ->
    getProp jsonObj (matched m) = Some token ->
    isColorToken token = true ->
    exists v, lookup (matched m) res = Some v /\ color v = stringValue token.
Proof.
  induction fuel as [|fuel IH]; intros lastIndex obj res m token; simpl;
    [tauto|].
  destruct (exec jsonKeyPattern text lastIndex) as [m0|] eqn:E;
    [|simpl; tauto].
  destruct (exec_jsonKeyPattern _ _ _ E) as (Hname & Htruthy & _).
  rewrite Hname, Htruthy.
  destruct (getProp jsonObj (matched m0)) as [token0|] eqn:Eprop;
    [|discriminate].
  intros Hloop [<- | Hin] Hprop Htok.
  - rewrite Eprop in Hprop. injection Hprop as <-. rewrite Htok in Hloop.
    refine (keyLoop_keeps _ _ _ Eprop _ _ _ _ Hloop).
    rewrite lookup_assign, jsstring_eqb_refl.
    eexists. split; reflexivity.
  - destruct (isColorToken token0); exact (IH _ _ _ _ _ Hloop Hin Hprop Htok).
Qed.
End KeyLoopComplete.

(** X6. After an update that succeeds, every key that [jsonKeyPattern]
    finds in the text, at any depth, whose name is not [__proto__] and
    whose name the parsed value maps at its top level to a string that
    [isColorToken] accepts, is a variable of the entry, with that string
    for its colour; and the names of the entry are made of key
    characters only, so that a key with a dot or a space in it is never
    a variable. *)
Theorem updateColorTokenCache_records_every_colour_key
  (textDocument : TextDocument) (entry : VariableMap) (jsonObj : json) :
  updateBody textDocument = Normal (Some entry) ->
  JSON.parse (getText textDocument) = Some jsonObj ->
  (forall m s,
     In m (matchesIn jsonKeyPattern textDocument) ->
     matched m <> protoKey ->
     getProp jsonObj (matched m) = Some (Some (JString s)) ->
     test colorTokenPattern s = true ->
     exists v, lookup (matched m) entry = Some v /\ color v = s)
  /\ (forall name v,
        lookup name entry = Some v ->
        name <> [] /\ forallb jsonKeyChar name = true).
Proof.
  unfold updateBody, matchesIn. intros Hbody Hparse.
  destruct (isJson (languageId textDocument)); [|discriminate].
  rewrite Hparse in Hbody.
  destruct (keyLoop _ _ _ _ _ _) as [obj|] eqn:Eloop; [|discriminate].
  injection Hbody as <-. split.
  - intros m s Hin _ Hprop Htest.
    exact (keyLoop_complete _ _ _ _ _ _ _ _ _ Eloop Hin Hprop Htest).
  - intros name v Hv.
    destruct (keyLoop_last_key _ _ _ _ _ _ _ _ _ Eloop Hv)
      as [[Hobj _] | (before & m & after & Hall & Hname & _)];
      [discriminate|].
    assert (Hin : In m (execAll (S (length (getText textDocument)))
                          jsonKeyPattern (getText textDocument) 0))
      by (rewrite Hall; apply in_or_app; right; left; reflexivity).
    destruct (execAll_In _ _ _ _ _ Hin) as (i & Hexec).
    destruct (exec_jsonKeyPattern _ _ _ Hexec) as (_ & Ht & Hchars & _).
    rewrite Hname in Ht, Hchars. split; [|exact Hchars].
    intros ->. discriminate Ht.
Qed.

Lemma updateColorTokenCache_records_every_colour_key_witness :
  (forall m s,
     In m (matchesIn jsonKeyPattern dottedJson) ->
     matched m <> protoKey ->
     getProp
       (JObject [(js "brand.primary", JString (js "#336699"));
                 (js "accent", JString (js "#ff0000"))])
       (matched m) = Some (Some (JString s)) ->
     test colorTokenPattern s = true ->
     exists v,
       lookup (matched m)
         [(js "accent",
           {| color := js "#ff0000";
              range := {| start := {| line := 0; character := 30 |};
                          end_ := {| line := 0; character := 36 |} |} |})]
       = Some v /\ color v = s)
  /\ (forall name v,
        lookup name
          [(js "accent",
            {| color := js "#ff0000";
               range := {| start := {| line := 0; character := 30 |};
                           end_ := {| line := 0; character := 36 |} |} |})]
        = Some v ->
        name <> [] /\ forallb jsonKeyChar name = true).
Proof.
  apply (updateColorTokenCache_records_every_colour_key dottedJson);
    vm_compute; reflexivity.
Defined.

(* ================================================================== *)
(** * Classification and settings *)

(** X7. A language listed both as a colour language and as a reference
    language is a reference language: its documents are not colour
    documents, and opening one records no variable, be it a JSON
    document. *)
Theorem colliding_language_is_reference (st : Server)
  (textDocument : TextDocument) :
  cachedLanguages st = None ->
  includes (languageId textDocument) (cssLanguages (remoteConfiguration st))
  = true ->
  colorDocument st textDocument = false
  /\ referenceDocument st textDocument = true
  /\ colorTokenCache (snd (updateColorTokenCache textDocument st))
     = colorTokenCache st.
Proof.
  intros Hnone Hcss.
  assert (Hcolor : colorDocument st textDocument = false).
  { unfold colorDocument, isColorLanguage, bind, get, ret,
      getRemoteConfiguration, setCachedLanguages, setCachedCSSLanguages.
    rewrite Hnone. simpl. rewrite Hcss. reflexivity. }
  split; [exact Hcolor|]. split.
  - unfold referenceDocument, isCSSLanguage, isColorLanguage, bind, get, ret,
      getRemoteConfiguration, setCachedLanguages, setCachedCSSLanguages.
    rewrite Hnone. simpl. exact Hcss.
  - rewrite updateColorTokenCache_cache, Hcolor. reflexivity.
Qed.

Lemma colliding_language_is_reference_witness :
  colorDocument (startServer true collidingSettings [themeJson]) themeJson
  = false
  /\ referenceDocument (startServer true collidingSettings [themeJson])
       themeJson = true
  /\ colorTokenCache
       (snd (updateColorTokenCache themeJson
               (startServer true collidingSettings [themeJson])))
     = colorTokenCache (startServer true collidingSettings [themeJson]).
Proof.
  apply (colliding_language_is_reference
           (startServer true collidingSettings [themeJson]) themeJson);
    reflexivity.
Defined.

(** X8. The language lists are read from the configuration once: after a
    first classification, a change of configuration changes the
    classification of no language.  The cap is read on every request:
    it follows the change, when the client has the configuration
    capability, and is the default otherwise. *)
Theorem classification_survives_reconfiguration (first l : jsstring)
  (settings : JSONColorTokenSettings) (st : Server) :
  let st1 := snd (isColorLanguage first st) in
  let st2 := reconfigure settings st1 in
  fst (isColorLanguage l st2) = fst (isColorLanguage l st1)
  /\ fst (isCSSLanguage l st2) = fst (isCSSLanguage l st1)
  /\ capOf st2
     = if hasConfigurationCapability st
       then maxNumberOfColorTokens settings
       else maxNumberOfColorTokens defaultSettings.
Proof.
  cbv zeta. unfold capOf, getGlobalSettings, isCSSLanguage, isColorLanguage,
    bind, get, ret, getRemoteConfiguration, setCachedLanguages,
    setCachedCSSLanguages, reconfigure, globalSettings.
  destruct (cachedLanguages st) as [langs|] eqn:El;
    destruct (cachedCSSLanguages st) as [css|] eqn:Ec; simpl;
    rewrite ?El, ?Ec; simpl; rewrite ?El, ?Ec;
    destruct (hasConfigurationCapability st); simpl; auto.
Qed.

(* ================================================================== *)
(** * Detection and requests: what they change and in what order they
      report *)

(** X9. Detection and the three requests read the cache and the documents
    and write neither.  The one message any of them can send is the
    notification of the cap, at most once for a detection, and a
    document that is not a colour document never causes it; a document
    that is neither a colour document nor a reference document has no
    tokens. *)
Theorem requests_are_read_only (textDocument : TextDocument)
  (textDocumentUri : jsstring) (position : Position) (c : Color)
  (st : Server) :
  let found := snd (findColorTokens textDocument st) in
  let defined := snd (onDefinition textDocumentUri position st) in
  let coloured := snd (onDocumentColor textDocumentUri st) in
  let presented := snd (onColorPresentation textDocumentUri c st) in
  (colorTokenCache found = colorTokenCache st
   /\ documents found = documents st
   /\ (sent found = sent st
       \/ sent found = sent st ++ [capNotification (capOf st)])
   /\ (colorDocument st textDocument = false ->
       sent found = sent st
       /\ (referenceDocument st textDocument = false ->
           fst (findColorTokens textDocument st) = [])))
  /\ (colorTokenCache defined = colorTokenCache st
      /\ documents defined = documents st
      /\ sent defined = sent st)
  /\ (colorTokenCache coloured = colorTokenCache st
      /\ documents coloured = documents st
      /\ (sent coloured = sent st
          \/ sent coloured = sent st ++ [capNotification (capOf st)]))
  /\ (colorTokenCache presented = colorTokenCache st
      /\ documents presented = documents st
      /\ sent presented = sent st).
Proof.
  cbv zeta.
  assert (Hfind : forall d,
    let found := snd (findColorTokens d st) in
    colorTokenCache found = colorTokenCache st
    /\ documents found = documents st
    /\ (sent found = sent st
        \/ sent found = sent st ++ [capNotification (capOf st)])
    /\ (colorDocument st d = false ->
        sent found = sent st
        /\ (referenceDocument st d = false ->
            fst (findColorTokens d st) = []))).
  { intros d. cbv zeta.
    destruct (colorDocument st d) eqn:Hcolor.
    - rewrite (findColorTokens_color_language d st Hcolor).
      destruct (isColorLanguage_frame (languageId d) st)
        as (Hc & Hs & Hd & _).
      cbv zeta in Hc, Hs, Hd. cbn [snd].
      destruct (_ =? _)%Z;
        cbn [sendNotification snd colorTokenCache documents sent];
        rewrite ?Hc, ?Hs, ?Hd; unfold capNotification;
        repeat split; auto; discriminate.
    - unfold referenceDocument. unfold colorDocument in Hcolor.
      unfold findColorTokens, bind.
      pose proof (getGlobalSettings_state st) as Hst.
      destruct (getGlobalSettings st) as [settings st0].
      simpl in Hst; subst st0.
      destruct (isColorLanguage_frame (languageId d) st)
        as (Hc & Hs & Hd & _).
      destruct (isColorLanguage (languageId d) st) as [b st1].
      simpl in Hcolor; subst b. cbv zeta in Hc, Hs, Hd. cbn [snd] in *.
      destruct (isCSSLanguage_frame (languageId d) st1)
        as (Hc' & Hs' & Hd' & _).
      destruct (isCSSLanguage (languageId d) st1) as [b st2].
      cbv zeta in Hc', Hs', Hd'. cbn [snd fst] in *.
      destruct b; cbn [get ret snd fst]; rewrite Hc', Hs', Hd', Hc, Hs, Hd;
        repeat split; auto; discriminate. }
  split; [exact (Hfind textDocument)|]. split; [|split].
  - unfold onDefinition, documentsGet, bind, get, ret. cbv beta iota zeta.
    destruct (find (fun d => jsstring_eqb (uri d) textDocumentUri) (documents st))
      as [d|]; [|auto].
    destruct (isCSSLanguage_frame (languageId d) st) as (Hc & Hs & Hd & _).
    destruct (isCSSLanguage (languageId d) st) as [b st1].
    cbv zeta in Hc, Hs, Hd. cbn [snd] in *.
    destruct b; [|auto].
    match goal with
    | |- context [exec cssVariablePattern ?lineText 0] =>
        destruct (exec cssVariablePattern lineText 0)
    end; cbn [snd]; auto.
  - unfold onDocumentColor, documentsGet, bind, get, ret. cbv beta iota zeta.
    destruct (find (fun d => jsstring_eqb (uri d) textDocumentUri) (documents st))
      as [d|]; [|auto].
    destruct (Hfind d) as (Hc & Hd & Hs & _).
    destruct (findColorTokens d st) as [colors st1]. cbn [snd] in *. auto.
  - unfold onColorPresentation, documentsGet, bind, get, ret. cbv beta iota zeta.
    destruct (find (fun d => jsstring_eqb (uri d) textDocumentUri) (documents st))
      as [d|]; [|auto].
    destruct (isColorLanguage_frame (languageId d) st) as (Hc & Hs & Hd & _).
    destruct (isColorLanguage (languageId d) st) as [b st1].
    cbv zeta in Hc, Hs, Hd. cbn [snd] in *.
    destruct b; [|auto].
    pose proof (getGlobalSettings_state st1) as Hst.
    destruct (getGlobalSettings st1) as [settings st2].
    simpl in Hst; subst st2.
    destruct (isCpp (languageId d)); cbn [snd]; auto.
Qed.

(** X10. The tokens of a colour document: the hexadecimal tokens in text
    order, as many as the cap allows, and after all of them, in a C++
    document, the arrays in text order, as many as the cap still allows;
    the notification is sent exactly when the number of tokens is the
    cap. *)
Theorem findColorTokens_hex_then_arrays (textDocument : TextDocument)
  (st : Server) :
  colorDocument st textDocument = true ->
  let cap := capOf st in
  let hex := firstn (budget cap 0) (matchesIn colorTokenPattern textDocument) in
  let arrays :=
    if isCpp (languageId textDocument)
    then firstn (budget cap (Z.of_nat (length hex)))
           (matchesIn rgbArrayPattern textDocument)
    else [] in
  fst (findColorTokens textDocument st)
  = map (hexToken textDocument) hex ++ map (rgbToken textDocument) arrays
  /\ sent (snd (findColorTokens textDocument st))
     = sent st
         ++ (if (Z.of_nat (length hex + length arrays) =? cap)%Z
             then [capNotification cap] else []).
Proof.
  intros Hcolor. cbv zeta.
  rewrite (findColorTokens_color_language textDocument st Hcolor).
  destruct (isColorLanguage_frame (languageId textDocument) st)
    as (_ & Hs & _).
  cbv zeta in Hs. cbn [fst snd]. split; [reflexivity|].
  rewrite Nat2Z.inj_add.
  destruct (_ =? _)%Z; cbn [sendNotification snd sent]; rewrite Hs;
    [reflexivity | symmetry; apply app_nil_r].
Qed.

Lemma findColorTokens_hex_then_arrays_witness :
  map ic_color
    (fst (findColorTokens paletteCpp (startServer true capThree [paletteCpp])))
  = [Some (js "#f00"); Some (js "#0080ff"); Some (js "#ff0000")]
  /\ sent (snd (findColorTokens paletteCpp
                  (startServer true capThree [paletteCpp])))
     = [capNotification 3].
Proof.
  destruct (findColorTokens_hex_then_arrays paletteCpp
              (startServer true capThree [paletteCpp])) as [H1 H2];
    [reflexivity|].
  rewrite H1, H2. split; vm_compute; reflexivity.
Defined.

(* ================================================================== *)
(** * What the patterns find, decoded *)

Local Open Scope Z_scope.

Lemma hexDigit_cases (c : N) :
  hexDigit c = true ->
  In c (map cu ["0"; "1"; "2"; "3"; "4"; "5"; "6"; "7"; "8"; "9";
                "a"; "b"; "c"; "d"; "e"; "f";
                "A"; "B"; "C"; "D"; "E"; "F"]%char).
Proof.
  unfold hexDigit. rewrite !orb_true_iff. intros [[H|H]|H]; enum H; subst c;
    simpl; tauto.
Qed.

Lemma hexValue_range (c : N) : hexDigit c = true -> 0 <= hexValue c <= 15.
Proof.
  intros H. apply hexDigit_cases in H. simpl in H.
  repeat (destruct H as [<-|H]; [vm_compute; split; discriminate|]).
  contradiction.
Qed.

(** Two hexadecimal digits are read as the byte they write. *)
Lemma parseInt_hex_pair (h l : N) :
  hexDigit h = true -> hexDigit l = true ->
  parseInt [h; l] 16 = IInt (16 * hexValue h + hexValue l).
Proof.
  intros Hh Hl. apply hexDigit_cases in Hh, Hl. simpl in Hh, Hl.
  repeat (destruct Hh as [<-|Hh];
    [repeat (destruct Hl as [<-|Hl]; [vm_compute; reflexivity|]);
     contradiction|]).
  contradiction.
Qed.

Lemma channel_hex_pair (h l : N) :
  hexDigit h = true -> hexDigit l = true ->
  (toNumber (parseInt [h; l] 16) / 255)%float
  = channel (16 * hexValue h + hexValue l)
  /\ 0 <= 16 * hexValue h + hexValue l <= 255.
Proof.
  intros Hh Hl. rewrite (parseInt_hex_pair _ _ Hh Hl).
  pose proof (hexValue_range _ Hh). pose proof (hexValue_range _ Hl).
  split; [reflexivity | lia].
Qed.

(** A match of [colorTokenPattern] is a hash sign and three, four, six
    or eight hexadecimal digits. *)
Lemma exec_colorTokenPattern (text : jsstring) (i : nat) (m : Match) :
  exec colorTokenPattern text i = Some m ->
  exists ds,
    matched m = cu "#" :: ds
    /\ forallb hexDigit ds = true
    /\ In (length ds) [3; 4; 6; 8]%nat.
Proof.
  intros H. destruct (exec_reach _ _ _ _ H) as (st & Hreach & _ & Hm).
  rewrite Hm. clear H Hm.
  unfold colorTokenPattern, Opt in Hreach. cbn [Rep] in Hreach.
  inv Hreach.
  match goal with H : reach (Char _) _ _ |- _ => inv H end.
  match goal with H : reach (Group _ _) _ _ |- _ => inv H end.
  match goal with H : reach (Alt _ _) _ _ |- _ => inv H end.
  all: match goal with H : reach (Seq _ _) _ _ |- _ => inv H end.
  all: match goal with H : reach (Alt _ _) _ _ |- _ => inv H end.
  all: try match goal with H : reach (Group _ _) _ _ |- _ => inv H end.
  all: invert_reach.
  all: match goal with H : N.eqb _ _ = true |- _ =>
         apply N.eqb_eq in H; subst end.
  all: simpl; eexists; split; [reflexivity|].
  all: split; [simpl;
               repeat match goal with H : hexDigit _ = true |- _ =>
                        rewrite H; clear H end; reflexivity
              | simpl; tauto].
Qed.

(** The digits of a token, decoded. *)
Lemma parseColor_hex_digits (ds : jsstring) :
  forallb hexDigit ds = true ->
  In (length ds) [3; 4; 6; 8]%nat ->
  byteColor (parseColor (cu "#" :: ds)).
Proof.
  intros Hds Hlen. unfold byteColor.
  destruct ds as [|d1 [|d2 [|d3 [|d4 [|d5 [|d6 [|d7 [|d8 [|d9 ds]]]]]]]]];
    simpl in Hlen; try (exfalso; intuition discriminate).
  all: cbn [forallb] in Hds; rewrite ?andb_true_iff in Hds.
  - destruct Hds as (H1 & H2 & H3 & _).
    destruct (channel_hex_pair _ _ H1 H1) as [E1 B1].
    destruct (channel_hex_pair _ _ H2 H2) as [E2 B2].
    destruct (channel_hex_pair _ _ H3 H3) as [E3 B3].
    exists (16 * hexValue d1 + hexValue d1), (16 * hexValue d2 + hexValue d2),
      (16 * hexValue d3 + hexValue d3), 255.
    repeat (split; [assumption || lia|]).
    change (parseColor [cu "#"; d1; d2; d3])
      with (parseColor [cu "#"; d1; d1; d2; d2; d3; d3]).
    rewrite parseColor_7, E1, E2, E3. reflexivity.
  - destruct Hds as (H1 & H2 & H3 & H4 & _).
    destruct (channel_hex_pair _ _ H1 H1) as [E1 B1].
    destruct (channel_hex_pair _ _ H2 H2) as [E2 B2].
    destruct (channel_hex_pair _ _ H3 H3) as [E3 B3].
    destruct (channel_hex_pair _ _ H4 H4) as [E4 B4].
    exists (16 * hexValue d1 + hexValue d1), (16 * hexValue d2 + hexValue d2),
      (16 * hexValue d3 + hexValue d3), (16 * hexValue d4 + hexValue d4).
    repeat (split; [assumption|]).
    change (parseColor [cu "#"; d1; d2; d3; d4])
      with (parseColor [cu "#"; d1; d1; d2; d2; d3; d3; d4; d4]).
    rewrite parseColor_9, E1, E2, E3, E4. reflexivity.
  - destruct Hds as (H1 & H2 & H3 & H4 & H5 & H6 & _).
    destruct (channel_hex_pair _ _ H1 H2) as [E1 B1].
    destruct (channel_hex_pair _ _ H3 H4) as [E2 B2].
    destruct (channel_hex_pair _ _ H5 H6) as [E3 B3].
    exists (16 * hexValue d1 + hexValue d2), (16 * hexValue d3 + hexValue d4),
      (16 * hexValue d5 + hexValue d6), 255.
    repeat (split; [assumption || lia|]).
    rewrite parseColor_7, E1, E2, E3. reflexivity.
  - destruct Hds as (H1 & H2 & H3 & H4 & H5 & H6 & H7 & H8 & _).
    destruct (channel_hex_pair _ _ H1 H2) as [E1 B1].
    destruct (channel_hex_pair _ _ H3 H4) as [E2 B2].
    destruct (channel_hex_pair _ _ H5 H6) as [E3 B3].
    destruct (channel_hex_pair _ _ H7 H8) as [E4 B4].
    exists (16 * hexValue d1 + hexValue d2), (16 * hexValue d3 + hexValue d4),
      (16 * hexValue d5 + hexValue d6), (16 * hexValue d7 + hexValue d8).
    repeat (split; [assumption|]).
    rewrite parseColor_9, E1, E2, E3, E4. reflexivity.
Qed.

(** X11. Every hexadecimal token found in a text lies in it, where its
    indices say; it is a hash sign and three, four, six or eight
    hexadecimal digits, and it decodes to components that are bytes over
    255: the digits taken in pairs, or each digit doubled for the short
    forms.  No component of a token found is ever not a number. *)
Theorem colorTokenPattern_match_decodes (text : jsstring) (lastIndex : nat)
  (m : Match) :
  exec colorTokenPattern text lastIndex = Some m ->
  slice (index m) (endIndex m) text = matched m
  /\ (lastIndex <= index m)%nat /\ (endIndex m <= length text)%nat
  /\ (exists ds,
        matched m = cu "#" :: ds
        /\ forallb hexDigit ds = true
        /\ In (length ds) [3; 4; 6; 8]%nat)
  /\ byteColor (parseColor (matched m)).
Proof.
  intros H. split; [exact (exec_matched_text _ _ _ _ H)|].
  destruct (exec_bounds _ _ _ _ H) as (Hlo & Hhi & _).
  split; [exact Hlo|]. split; [exact Hhi|].
  destruct (exec_colorTokenPattern _ _ _ H) as (ds & E & Hds & Hlen).
  split; [exists ds; auto|].
  rewrite E. exact (parseColor_hex_digits ds Hds Hlen).
Qed.

Lemma colorTokenPattern_match_decodes_witness :
  exists m,
    exec colorTokenPattern (js "color: #1af8;") 3 = Some m
    /\ slice (index m) (endIndex m) (js "color: #1af8;") = js "#1af8"
    /\ parseColor (matched m) = rgba 17 170 255 136.
Proof.
  eexists. split; [vm_compute; reflexivity|].
  destruct (colorTokenPattern_match_decodes (js "color: #1af8;") 3
              {| index := 7; matched := js "#1af8";
                 groups := [(1%nat, js "1af8"); (3%nat, js "8")] |})
    as (Hslice & _); [vm_compute; reflexivity|].
  split; [exact Hslice | vm_compute; reflexivity].
Defined.

(** X12. The short forms: each digit stands for itself doubled, so that a
    digit of value [v] gives the byte [17 * v], in the alpha as in the
    colours. *)
Theorem parseColor_short_form (x d1 d2 d3 d4 : N) :
  hexDigit d1 = true -> hexDigit d2 = true -> hexDigit d3 = true ->
  hexDigit d4 = true ->
  parseColor [x; d1; d2; d3] = parseColor [x; d1; d1; d2; d2; d3; d3]
  /\ parseColor [x; d1; d2; d3]
     = rgb (17 * hexValue d1) (17 * hexValue d2) (17 * hexValue d3)
  /\ parseColor [x; d1; d2; d3; d4]
     = parseColor [x; d1; d1; d2; d2; d3; d3; d4; d4]
  /\ parseColor [x; d1; d2; d3; d4]
     = rgba (17 * hexValue d1) (17 * hexValue d2) (17 * hexValue d3)
         (17 * hexValue d4).
Proof.
  intros H1 H2 H3 H4.
  destruct (channel_hex_pair _ _ H1 H1) as [E1 _].
  destruct (channel_hex_pair _ _ H2 H2) as [E2 _].
  destruct (channel_hex_pair _ _ H3 H3) as [E3 _].
  destruct (channel_hex_pair _ _ H4 H4) as [E4 _].
  replace (16 * hexValue d1 + hexValue d1) with (17 * hexValue d1) in E1 by lia.
  replace (16 * hexValue d2 + hexValue d2) with (17 * hexValue d2) in E2 by lia.
  replace (16 * hexValue d3 + hexValue d3) with (17 * hexValue d3) in E3 by lia.
  replace (16 * hexValue d4 + hexValue d4) with (17 * hexValue d4) in E4 by lia.
  split; [reflexivity|]. split.
  - change (parseColor [x; d1; d2; d3])
      with (parseColor [x; d1; d1; d2; d2; d3; d3]).
    rewrite parseColor_7, E1, E2, E3. reflexivity.
  - split; [reflexivity|].
    change (parseColor [x; d1; d2; d3; d4])
      with (parseColor [x; d1; d1; d2; d2; d3; d3; d4; d4]).
    rewrite parseColor_9, E1, E2, E3, E4. reflexivity.
Qed.

Lemma parseColor_short_form_witness :
  parseColor (js "#f00") = parseColor (js "#ff0000")
  /\ parseColor (js "#f00") = rgb 255 0 0
  /\ parseColor (js "#f00a") = parseColor (js "#ff0000aa")
  /\ parseColor (js "#f00a") = rgba 255 0 0 170.
Proof.
  apply (parseColor_short_form (cu "#") (cu "f") (cu "0") (cu "0") (cu "a"));
    reflexivity.
Defined.

Local Close Scope Z_scope.

Local Open Scope Z_scope.

(** The numbers of an array that [rgbArrayPattern] matches, and the
    internal hexadecimal form made of them. *)
Lemma exec_rgbArrayPattern (text : jsstring) (lastIndex : nat) (m : Match) :
  exec rgbArrayPattern text lastIndex = Some m ->
  exists r g b,
    0 <= r <= 255 /\ 0 <= g <= 255 /\ 0 <= b <= 255
    /\ component m 2 = IInt r /\ component m 5 = IInt g
    /\ component m 8 = IInt b
    /\ rgbMatchToHex m = cu "#" :: hexDigits r ++ hexDigits g ++ hexDigits b
    /\ parseColor (rgbMatchToHex m) = rgb r g b.
Proof.
  unfold exec. destruct (Nat.ltb _ _); [discriminate|].
  intros H. apply scan_sound in H.
  destruct H as (st0 & st & Hcaps0 & Hreach & Hgroups).
  unfold rgbArrayPattern in Hreach.
  repeat match goal with
         | H : reach (Seq _ _) _ _ |- _ => inv H
         end.
  repeat match goal with
         | H : reach (Char _) _ _ |- _ => apply reach_Char in H
         | H : reach (Group _ rgbComponent) _ _ |- _ =>
             apply reach_component_group in H;
             let w := fresh "w" in
             let Hw := fresh "Hw" in
             destruct H as (w & Hw & H)
         | H : reach (Group _ (Star _)) _ _ |- _ =>
             apply reach_space_group in H; destruct H as (? & H)
         end.
  assert (Hcomp : exists w2 w5 w8,
    group m 2 = Some w2 /\ group m 5 = Some w5 /\ group m 8 = Some w8
    /\ byteLiteral w2 /\ byteLiteral w5 /\ byteLiteral w8).
  { unfold group. rewrite Hgroups.
    repeat match goal with
           | H : m_caps _ = _ |- _ => rewrite H; clear H
           end.
    do 3 eexists.
    split; [reflexivity|]. split; [reflexivity|]. split; [reflexivity|].
    split; [eassumption|]. split; eassumption. }
  destruct Hcomp as (w2 & w5 & w8 & G2 & G5 & G8 & (B2 & _ & _ & P2)
                       & (B5 & _ & _ & P5) & (B8 & _ & _ & P8)).
  exists (decimalValue w2), (decimalValue w5), (decimalValue w8).
  destruct (tripletByte _ B2) as (_ & X2 & N2 & _).
  destruct (tripletByte _ B5) as (_ & X5 & N5 & _).
  destruct (tripletByte _ B8) as (_ & X8 & N8 & _).
  assert (Hhex : rgbMatchToHex m
                 = cu "#" :: hexDigits (decimalValue w2)
                     ++ hexDigits (decimalValue w5)
                     ++ hexDigits (decimalValue w8)).
  { unfold rgbMatchToHex, component. rewrite G2, G5, G8, P2, P5, P8.
    rewrite X2, X5, X8. reflexivity. }
  unfold component. rewrite G2, G5, G8.
  repeat (split; [assumption|]).
  rewrite Hhex. unfold hexDigits in *. cbn [app].
  rewrite parseColor_7, N2, N5, N8. reflexivity.
Qed.

(** X13. Every array found in a text lies in it, where its indices say, and
    decodes to the colour of its three numbers: each is a byte, the
    internal hexadecimal form holds two digits for each, and
    [parseColor] reads that form back as the three bytes over 255,
    opaque, whatever white space the array holds. *)
Theorem rgbArrayPattern_match_decodes (text : jsstring) (lastIndex : nat)
  (m : Match) :
  exec rgbArrayPattern text lastIndex = Some m ->
  slice (index m) (endIndex m) text = matched m
  /\ (lastIndex <= index m)%nat /\ (endIndex m <= length text)%nat
  /\ exists r g b,
       0 <= r <= 255 /\ 0 <= g <= 255 /\ 0 <= b <= 255
       /\ component m 2 = IInt r /\ component m 5 = IInt g
       /\ component m 8 = IInt b
       /\ rgbMatchToHex m
          = cu "#" :: hexDigits r ++ hexDigits g ++ hexDigits b
       /\ parseColor (rgbMatchToHex m) = rgb r g b.
Proof.
  intros H. split; [exact (exec_matched_text _ _ _ _ H)|].
  destruct (exec_bounds _ _ _ _ H) as (Hlo & Hhi & _).
  split; [exact Hlo|]. split; [exact Hhi|].
  exact (exec_rgbArrayPattern _ _ _ H).
Qed.

Lemma rgbArrayPattern_match_decodes_witness :
  exists m,
    exec rgbArrayPattern (js "x = { 0,128 , 255 };") 2 = Some m
    /\ index m = 4%nat
    /\ rgbMatchToHex m = js "#0080ff"
    /\ parseColor (rgbMatchToHex m) = rgb 0 128 255.
Proof.
  eexists. split; [vm_compute; reflexivity|].
  split; [reflexivity|].
  destruct (rgbArrayPattern_match_decodes (js "x = { 0,128 , 255 };") 2
              {| index := 4;
                 matched := js "{ 0,128 , 255 }";
                 groups := [(9%nat, js " "); (8%nat, js "255"); (7%nat, js " ");
                            (6%nat, js " "); (5%nat, js "128"); (4%nat, []);
                            (3%nat, []); (2%nat, js "0"); (1%nat, js " ")] |})
    as (Hslice & _); [vm_compute; reflexivity|].
  split; vm_compute; reflexivity.
Defined.

Local Close Scope Z_scope.

(* ================================================================== *)
(** * How much of a run of digits is a token *)

Ltac eval_hex :=
  cbn -[hexDigit];
  repeat match goal with
         | H : hexDigit ?d = _ |- context [hexDigit ?d] =>
             rewrite H; cbn -[hexDigit]
         end.

(** X14. At a hash sign that at least three hexadecimal digits follow, the
    token found is the hash sign and the first eight of them, or six
    when there are fewer than eight, four when fewer than six, three
    when fewer than four: the pattern looks at no boundary, so that of
    five digits the token takes four and of seven it takes six. *)
Theorem colorTokenPattern_takes_longest_form (s : jsstring) :
  3 <= hexRun s ->
  exists m,
    exec colorTokenPattern (cu "#" :: s) 0 = Some m
    /\ index m = 0
    /\ matched m = cu "#" :: firstn (tokenDigits (hexRun s)) s.
Proof.
  intros Hrun. unfold exec.
  change (Nat.ltb (length (cu "#" :: s)) 0) with false.
  cbn [skipn prevChar].
  assert (Hmt : exists st,
    mt colorTokenPattern (MState 0 None [] [] (cu "#" :: s)) Some = Some st
    /\ rev (m_acc st) = cu "#" :: firstn (tokenDigits (hexRun s)) s).
  { destruct s as [|d1 s]; cbn [hexRun] in *; [lia|].
    destruct (hexDigit d1) eqn:H1; [|lia].
    destruct s as [|d2 s]; cbn [hexRun] in *; [lia|].
    destruct (hexDigit d2) eqn:H2; [|lia].
    destruct s as [|d3 s]; cbn [hexRun] in *; [lia|].
    destruct (hexDigit d3) eqn:H3; [|lia].
    clear Hrun.
    destruct s as [|d4 s]; cbn [hexRun];
      [eexists; split; [eval_hex; reflexivity | reflexivity]|].
    destruct (hexDigit d4) eqn:H4;
      [|eexists; split; [eval_hex; reflexivity | reflexivity]].
    destruct s as [|d5 s]; cbn [hexRun];
      [eexists; split; [eval_hex; reflexivity | reflexivity]|].
    destruct (hexDigit d5) eqn:H5;
      [|eexists; split; [eval_hex; reflexivity | reflexivity]].
    destruct s as [|d6 s]; cbn [hexRun];
      [eexists; split; [eval_hex; reflexivity | reflexivity]|].
    destruct (hexDigit d6) eqn:H6;
      [|eexists; split; [eval_hex; reflexivity | reflexivity]].
    destruct s as [|d7 s]; cbn [hexRun];
      [eexists; split; [eval_hex; reflexivity | reflexivity]|].
    destruct (hexDigit d7) eqn:H7;
      [|eexists; split; [eval_hex; reflexivity | reflexivity]].
    destruct s as [|d8 s]; cbn [hexRun];
      [eexists; split; [eval_hex; reflexivity | reflexivity]|].
    destruct (hexDigit d8) eqn:H8;
      [|eexists; split; [eval_hex; reflexivity | reflexivity]].
    eexists; split; [eval_hex; reflexivity | reflexivity]. }
  destruct Hmt as (st & Hmt & Hacc).
  eexists. split; [exact (scan_head_match _ _ _ _ _ Hmt)|].
  split; [reflexivity | exact Hacc].
Qed.

Lemma colorTokenPattern_takes_longest_form_witness :
  exists m,
    exec colorTokenPattern (js "#12345;") 0 = Some m
    /\ index m = 0
    /\ matched m = js "#1234".
Proof.
  apply (colorTokenPattern_takes_longest_form (js "12345;")).
  vm_compute. lia.
Defined.

(* ================================================================== *)
(** * What the presentations write *)

Lemma mt_colorTokenPattern_6 (a b c d e f : N) :
  hexDigit a = true -> hexDigit b = true -> hexDigit c = true ->
  hexDigit d = true -> hexDigit e = true -> hexDigit f = true ->
  mt colorTokenPattern
    (MState 0 None [] [] [cu "#"; a; b; c; d; e; f]) Some
  = Some (MState 7 (Some f) [f; e; d; c; b; a; cu "#"]
            [(1, [a; b; c; d; e; f])] []).
Proof.
  intros Ha Hb Hc Hd He Hf.
  cbn -[hexDigit]. rewrite Ha. cbn -[hexDigit]. rewrite Hb. cbn -[hexDigit].
  rewrite Hc. cbn -[hexDigit]. rewrite Hd. cbn -[hexDigit].
  rewrite He. cbn -[hexDigit]. rewrite Hf. reflexivity.
Qed.

Lemma mt_colorTokenPattern_8 (a b c d e f g h : N) :
  hexDigit a = true -> hexDigit b = true -> hexDigit c = true ->
  hexDigit d = true -> hexDigit e = true -> hexDigit f = true ->
  hexDigit g = true -> hexDigit h = true ->
  mt colorTokenPattern
    (MState 0 None [] [] [cu "#"; a; b; c; d; e; f; g; h]) Some
  = Some (MState 9 (Some h) [h; g; f; e; d; c; b; a; cu "#"]
            [(1, [a; b; c; d; e; f; g; h]); (2, [g; h])] []).
Proof.
  intros Ha Hb Hc Hd He Hf Hg Hh.
  cbn -[hexDigit]. rewrite Ha. cbn -[hexDigit]. rewrite Hb. cbn -[hexDigit].
  rewrite Hc. cbn -[hexDigit]. rewrite Hd. cbn -[hexDigit].
  rewrite He. cbn -[hexDigit]. rewrite Hf. cbn -[hexDigit].
  rewrite Hg. cbn -[hexDigit]. rewrite Hh. reflexivity.
Qed.

Lemma presentationByte_table : Forall presentationByteFacts bytes.
Proof. byte_table ltac:(vm_compute; repeat split; reflexivity). Qed.

Lemma presentationByte (k : Z) (casing : Casing) :
  (0 <= k <= 255)%Z ->
  exists h l,
    toCase casing (hexDigits k) = [h; l]
    /\ hexDigit h = true /\ hexDigit l = true
    /\ inCase casing h = true /\ inCase casing l = true.
Proof.
  intros Hk. pose proof presentationByte_table as H.
  rewrite Forall_forall in H. specialize (H k (in_bytes k Hk)).
  destruct H as (H1 & H2 & H3 & H4).
  unfold hexDigits in *.
  destruct casing; cbn [toCase toUpperCase toLowerCase map forallb] in *;
    rewrite ?andb_true_iff in *; do 2 eexists; (split; [reflexivity|]);
    tauto.
Qed.

Lemma validColorToken_6 (a b c d e f : N) :
  hexDigit a = true -> hexDigit b = true -> hexDigit c = true ->
  hexDigit d = true -> hexDigit e = true -> hexDigit f = true ->
  validColorToken [cu "#"; a; b; c; d; e; f] = true.
Proof.
  intros Ha Hb Hc Hd He Hf.
  unfold validColorToken, matchesWhole, exec.
  cbn [length Nat.ltb Nat.leb skipn prevChar].
  rewrite (scan_head_match _ _ _ _ _
             (mt_colorTokenPattern_6 a b c d e f Ha Hb Hc Hd He Hf)).
  cbn [index matched m_acc rev app Nat.eqb andb].
  apply jsstring_eqb_refl.
Qed.

Lemma validColorToken_8 (a b c d e f g h : N) :
  hexDigit a = true -> hexDigit b = true -> hexDigit c = true ->
  hexDigit d = true -> hexDigit e = true -> hexDigit f = true ->
  hexDigit g = true -> hexDigit h = true ->
  validColorToken [cu "#"; a; b; c; d; e; f; g; h] = true.
Proof.
  intros Ha Hb Hc Hd He Hf Hg Hh.
  unfold validColorToken, matchesWhole, exec.
  cbn [length Nat.ltb Nat.leb skipn prevChar].
  rewrite (scan_head_match _ _ _ _ _
             (mt_colorTokenPattern_8 a b c d e f g h
                Ha Hb Hc Hd He Hf Hg Hh)).
  cbn [index matched m_acc rev app Nat.eqb andb].
  apply jsstring_eqb_refl.
Qed.

(** The text [stringifyColor] writes for a colour of bytes. *)
Lemma stringifyColor_bytes (c : Color) (casing : Casing) (r g b a : Z) :
  (0 <= r <= 255)%Z -> (0 <= g <= 255)%Z -> (0 <= b <= 255)%Z ->
  (0 <= a <= 255)%Z ->
  red c = channel r -> green c = channel g -> blue c = channel b ->
  alpha c = channel a ->
  stringifyColor c casing
  = cu "#" :: toCase casing (hexDigits r) ++ toCase casing (hexDigits g)
      ++ toCase casing (hexDigits b)
      ++ (if (a <? 255)%Z then toCase casing (hexDigits a) else []).
Proof.
  intros Hr Hg Hb Ha Er Eg Eb Ea.
  destruct (hexByte r Hr) as (_ & C1 & _).
  destruct (hexByte g Hg) as (_ & C2 & _).
  destruct (hexByte b Hb) as (_ & C3 & _).
  destruct (hexByte a Ha) as (_ & C4 & _ & _ & Hlt).
  unfold stringifyColor. rewrite Er, Eg, Eb, Ea, C1, C2, C3, Hlt.
  destruct (a <? 255)%Z; [rewrite C4|];
    destruct casing; unfold toCase, toUpperCase, toLowerCase;
    rewrite !map_app; reflexivity.
Qed.

(** X15. What [stringifyColor] writes for a colour of bytes is a colour
    token, from its first character to its last, of seven characters,
    or nine when the colour is not opaque, and has no letter of the
    other case than the one asked for. *)
Theorem stringifyColor_writes_token (c : Color) (casing : Casing)
  (r g b a : Z) :
  (0 <= r <= 255)%Z -> (0 <= g <= 255)%Z -> (0 <= b <= 255)%Z ->
  (0 <= a <= 255)%Z ->
  red c = channel r -> green c = channel g -> blue c = channel b ->
  alpha c = channel a ->
  validColorToken (stringifyColor c casing) = true
  /\ forallb (inCase casing) (stringifyColor c casing) = true
  /\ length (stringifyColor c casing) = (if (a <? 255)%Z then 9 else 7).
Proof.
  intros Hr Hg Hb Ha Er Eg Eb Ea.
  rewrite (stringifyColor_bytes c casing r g b a Hr Hg Hb Ha Er Eg Eb Ea).
  destruct (presentationByte r casing Hr) as (r1 & r2 & -> & R1 & R2 & R3 & R4).
  destruct (presentationByte g casing Hg) as (g1 & g2 & -> & G1 & G2 & G3 & G4).
  destruct (presentationByte b casing Hb) as (b1 & b2 & -> & B1 & B2 & B3 & B4).
  destruct (presentationByte a casing Ha) as (a1 & a2 & -> & A1 & A2 & A3 & A4).
  assert (Hhash : inCase casing (cu "#") = true) by (destruct casing; reflexivity).
  destruct (a <? 255)%Z; cbn [app forallb length].
  - split; [apply validColorToken_8; assumption|].
    rewrite Hhash, R3, R4, G3, G4, B3, B4, A3, A4. auto.
  - split; [apply validColorToken_6; assumption|].
    rewrite Hhash, R3, R4, G3, G4, B3, B4. auto.
Qed.

Lemma stringifyColor_writes_token_witness :
  validColorToken (stringifyColor steelBlue Lowercase) = true
  /\ forallb (inCase Lowercase) (stringifyColor steelBlue Lowercase) = true
  /\ length (stringifyColor steelBlue Lowercase) = 9.
Proof.
  apply (stringifyColor_writes_token steelBlue Lowercase 51 102 153 128);
    try lia; reflexivity.
Defined.

(** X16. The label offered for a colour of bytes is text that detection finds
    again in a document of the same language: the whole of it is an
    array for a C++ document, and a hexadecimal token in the casing of
    the settings for the other colour languages. *)
Theorem onColorPresentation_label_is_detected (st : Server)
  (textDocument : TextDocument) (c : Color) (r g b a : Z) :
  (0 <= r <= 255)%Z -> (0 <= g <= 255)%Z -> (0 <= b <= 255)%Z ->
  (0 <= a <= 255)%Z ->
  red c = channel r -> green c = channel g -> blue c = channel b ->
  alpha c = channel a ->
  fst (documentsGet (uri textDocument) st) = Some textDocument ->
  colorDocument st textDocument = true ->
  exists label,
    fst (onColorPresentation (uri textDocument) c st) = [label]
    /\ if isCpp (languageId textDocument)
       then matchesWhole rgbArrayPattern label = true
       else validColorToken label = true
            /\ forallb (inCase (colorTokenCasing (fst (getGlobalSettings st))))
                 label = true.
Proof.
  intros Hr Hg Hb Ha Er Eg Eb Ea Hget Hcolor.
  unfold onColorPresentation, bind.
  unfold documentsGet, bind, get, ret in Hget |- *. simpl in Hget.
  cbn [fst snd]. rewrite Hget. unfold colorDocument in Hcolor.
  destruct (isColorLanguage_frame (languageId textDocument) st)
    as (_ & _ & _ & Hconf & Hcap).
  destruct (isColorLanguage (languageId textDocument) st) as [b0 st1].
  simpl in Hcolor; subst b0. cbv zeta in Hconf, Hcap. cbn [snd] in Hconf, Hcap.
  assert (Hsettings : fst (getGlobalSettings st1) = fst (getGlobalSettings st)).
  { unfold getGlobalSettings, bind, get, ret, getRemoteConfiguration.
    rewrite Hcap. destruct (negb (hasConfigurationCapability st)); simpl;
      congruence. }
  destruct (getGlobalSettings st1) as [settings st2].
  cbn [fst] in Hsettings. subst settings.
  destruct (isCpp (languageId textDocument)); cbn [ret fst].
  - eexists. split; [reflexivity|].
    destruct (hexByte r Hr) as (Fr & _).
    destruct (hexByte g Hg) as (Fg & _).
    destruct (hexByte b Hb) as (Fb & _).
    unfold colorToRgbArray. rewrite Er, Eg, Eb, Fr, Fg, Fb.
    destruct (exec_triplet r g b Hr Hg Hb)
      as (m & Hexec & Hindex & Hmatched & _).
    cbv zeta in Hexec, Hmatched. unfold matchesWhole.
    rewrite Hexec, Hindex, Hmatched. apply jsstring_eqb_refl.
  - eexists. split; [reflexivity|].
    generalize (colorTokenCasing (fst (getGlobalSettings st))).
    intros casing.
    rewrite (stringifyColor_bytes c casing r g b a Hr Hg Hb Ha Er Eg Eb Ea).
    destruct (presentationByte r casing Hr)
      as (r1 & r2 & -> & R1 & R2 & R3 & R4).
    destruct (presentationByte g casing Hg)
      as (g1 & g2 & -> & G1 & G2 & G3 & G4).
    destruct (presentationByte b casing Hb)
      as (b1 & b2 & -> & B1 & B2 & B3 & B4).
    destruct (presentationByte a casing Ha)
      as (a1 & a2 & -> & A1 & A2 & A3 & A4).
    assert (Hhash : inCase casing (cu "#") = true)
      by (destruct casing; reflexivity).
    destruct (a <? 255)%Z; cbn [app forallb].
    + split; [apply validColorToken_8; assumption|].
      rewrite Hhash, R3, R4, G3, G4, B3, B4, A3, A4. reflexivity.
    + split; [apply validColorToken_6; assumption|].
      rewrite Hhash, R3, R4, G3, G4, B3, B4. reflexivity.
Qed.

Lemma onColorPresentation_label_is_detected_witness :
  exists label,
    fst (onColorPresentation (uri themeJson) steelBlue
           (startServer true capThree [themeJson])) = [label]
    /\ validColorToken label = true
    /\ forallb (inCase Lowercase) label = true.
Proof.
  destruct (onColorPresentation_label_is_detected
              (startServer true capThree [themeJson]) themeJson steelBlue
              51 102 153 128) as (label & Hlabel & Hvalid);
    try lia; try reflexivity.
  exists label. split; [exact Hlabel | exact Hvalid].
Defined.

(* ================================================================== *)
(** * Tokens do not overlap *)

Lemma reach_within (P : N -> Prop) (r : regex) (st st' : mstate) :
  reach r st st' ->
  within P r ->
  exists w,
    m_rest st = w ++ m_rest st'
    /\ m_acc st' = rev w ++ m_acc st
    /\ Forall P w.
Proof.
  induction 1; cbn [within]; intros Hin.
  - exists []. auto.
  - exists [c]. simpl. auto.
  - destruct Hin as [Ha Hb].
    destruct (IHreach1 Ha) as (w1 & R1 & A1 & F1).
    destruct (IHreach2 Hb) as (w2 & R2 & A2 & F2).
    exists (w1 ++ w2). rewrite R1, R2, A2, A1, rev_app_distr, !app_assoc.
    repeat split; auto. apply Forall_app; auto.
  - destruct Hin as [Ha _]. auto.
  - destruct Hin as [_ Hb]. auto.
  - exists []. auto.
  - destruct (IHreach1 Hin) as (w1 & R1 & A1 & F1).
    destruct (IHreach2 Hin) as (w2 & R2 & A2 & F2).
    exists (w1 ++ w2). rewrite R1, R2, A2, A1, rev_app_distr, !app_assoc.
    repeat split; auto. apply Forall_app; auto.
  - destruct (IHreach Hin) as (w & R & A & F).
    exists w. simpl in *. rewrite R, A, app_nil_r. auto.
  - exists []. auto.
  - exists []. auto.
Qed.

Lemma exec_within (P : N -> Prop) (r : regex) (text : jsstring) (i : nat)
  (m : Match) :
  exec r text i = Some m -> within P r -> Forall P (matched m).
Proof.
  intros H Hin. destruct (exec_reach _ _ _ _ H) as (st & Hreach & _ & Hm).
  destruct (reach_within P _ _ _ Hreach Hin) as (w & _ & A & F).
  simpl in A. rewrite Hm, A, app_nil_r, rev_involutive. exact F.
Qed.

Lemma slice_nth_error (text w : jsstring) (i e j : nat) :
  slice i e text = w ->
  i <= j < i + length w ->
  nth_error text j = nth_error w (j - i).
Proof.
  unfold slice. intros <- Hj. rewrite length_firstn in Hj.
  rewrite nth_error_firstn.
  destruct (Nat.ltb_spec (j - i) (e - i)) as [_|Hge]; [|lia].
  rewrite nth_error_skipn. f_equal. lia.
Qed.

Lemma colorTokenPattern_no_brace :
  within (fun c => c <> cu "{") colorTokenPattern.
Proof.
  unfold colorTokenPattern, Char, Opt. cbn [Rep within].
  repeat split; intros c H ->; vm_compute in H; discriminate H.
Qed.

Lemma rgbArrayPattern_no_hash :
  within (fun c => c <> cu "#") rgbArrayPattern.
Proof.
  unfold rgbArrayPattern, rgbComponent, Char, Opt. cbn [Rep within].
  repeat split; intros c H ->; vm_compute in H; discriminate H.
Qed.

(** A match of [rgbArrayPattern] starts with a brace. *)
Lemma exec_rgbArrayPattern_brace (text : jsstring) (i : nat) (m : Match) :
  exec rgbArrayPattern text i = Some m ->
  exists w, matched m = cu "{" :: w.
Proof.
  intros H. destruct (exec_reach _ _ _ _ H) as (st & Hreach & _ & Hm).
  unfold rgbArrayPattern in Hreach. inv Hreach.
  match goal with H : reach (Char _) _ _ |- _ => inv H end.
  match goal with H : N.eqb _ _ = true |- _ => apply N.eqb_eq in H; subst end.
  match goal with H : reach _ (advance _ _ _) _ |- _ =>
    destruct (reach_consumes _ _ _ H) as (w & _ & _ & A)
  end.
  exists w. rewrite Hm, A. simpl. rewrite rev_app_distr, rev_involutive.
  reflexivity.
Qed.

(** X17. The tokens [findColorTokens] makes of the matches of one text never
    overlap: the hexadecimal tokens follow one another in the text, so
    do the arrays, and no hexadecimal token shares a character with an
    array. *)
Theorem matches_do_not_overlap (textDocument : TextDocument) :
  ForallOrdPairs (fun m m' => endIndex m <= index m')
    (matchesIn colorTokenPattern textDocument)
  /\ ForallOrdPairs (fun m m' => endIndex m <= index m')
       (matchesIn rgbArrayPattern textDocument)
  /\ forall m m',
       In m (matchesIn colorTokenPattern textDocument) ->
       In m' (matchesIn rgbArrayPattern textDocument) ->
       endIndex m <= index m' \/ endIndex m' <= index m.
Proof.
  split; [apply execAll_ordered|]. split; [apply execAll_ordered|].
  intros m m' Hm Hm'. unfold matchesIn in Hm, Hm'.
  destruct (execAll_In _ _ _ _ _ Hm) as (i & E).
  destruct (execAll_In _ _ _ _ _ Hm') as (i' & E').
  pose proof (exec_matched_text _ _ _ _ E) as S1.
  pose proof (exec_matched_text _ _ _ _ E') as S2.
  pose proof (exec_within _ _ _ _ _ E colorTokenPattern_no_brace) as F1.
  pose proof (exec_within _ _ _ _ _ E' rgbArrayPattern_no_hash) as F2.
  destruct (exec_colorTokenPattern _ _ _ E) as (ds & M1 & _).
  destruct (exec_rgbArrayPattern_brace _ _ _ E') as (w & M2).
  rewrite Forall_forall in F1, F2.
  unfold endIndex in *.
  destruct (Nat.le_gt_cases (index m + length (matched m)) (index m'))
    as [|H1]; [left; assumption|].
  destruct (Nat.le_gt_cases (index m' + length (matched m')) (index m))
    as [|H2]; [right; assumption|].
  exfalso.
  destruct (Nat.le_gt_cases (index m') (index m)) as [Hle|Hlt].
  - (* the hash sign of [m] would lie in the array *)
    pose proof (slice_nth_error _ _ _ _ (index m) S2 ltac:(lia)) as N2.
    assert (N1 : nth_error (getText textDocument) (index m) = Some (cu "#")).
    { rewrite (slice_nth_error _ _ _ _ (index m) S1)
        by (rewrite M1; simpl; lia).
      rewrite Nat.sub_diag, M1. reflexivity. }
    rewrite N1 in N2. symmetry in N2. apply nth_error_In in N2.
    exact (F2 _ N2 eq_refl).
  - (* the brace of [m'] would lie in the token *)
    pose proof (slice_nth_error _ _ _ _ (index m') S1 ltac:(lia)) as N1.
    assert (N2 : nth_error (getText textDocument) (index m') = Some (cu "{")).
    { rewrite (slice_nth_error _ _ _ _ (index m') S2)
        by (rewrite M2; simpl; lia).
      rewrite Nat.sub_diag, M2. reflexivity. }
    rewrite N2 in N1. symmetry in N1. apply nth_error_In in N1.
    exact (F1 _ N1 eq_refl).
Qed.

(* ================================================================== *)
(** * The requests, end to end *)

Lemma In_firstn {A : Type} (n : nat) (l : list A) (x : A) :
  In x (firstn n l) -> In x l.
Proof.
  intros H. rewrite <- (firstn_skipn n l). apply in_or_app. left. exact H.
Qed.

(** When every token has a colour, no token makes [parseColor]
    throw. *)
Lemma colorInformationArray_Normal (P : Color -> Prop)
  (colors : list IColors) :
  Forall (fun colorObj =>
            exists c, ic_color colorObj = Some c /\ P (parseColor c)) colors ->
  exists informations,
    colorInformationArray colors = Normal informations
    /\ Forall (fun information => P (ci_color information)) informations
    /\ length informations = length colors.
Proof.
  induction 1 as [|colorObj colors (c & Hc & HP) _ IH]; simpl.
  - exists []. repeat split. constructor.
  - destruct IH as (informations & -> & Hall & Hlen). rewrite Hc.
    eexists. split; [reflexivity|]. split.
    + constructor; [exact HP | exact Hall].
    + simpl. rewrite Hlen. reflexivity.
Qed.

(** X18. For a colour document [onDocumentColor] does not throw, and
    every colour it reports is a colour of bytes: no component is ever
    not a number, below zero or above one. *)
Theorem onDocumentColor_reports_byte_colours (st : Server)
  (textDocumentUri : jsstring) (textDocument : TextDocument) :
  fst (documentsGet textDocumentUri st) = Some textDocument ->
  colorDocument st textDocument = true ->
  exists informations,
    fst (onDocumentColor textDocumentUri st) = Normal informations
    /\ Forall (fun information => byteColor (ci_color information))
         informations.
Proof.
  intros Hget Hcolor.
  unfold onDocumentColor, bind.
  unfold documentsGet, bind, get, ret in Hget |- *. simpl in Hget.
  cbn [fst snd]. rewrite Hget.
  rewrite (findColorTokens_color_language textDocument st Hcolor).
  cbn [fst ret].
  match goal with
  | |- exists informations, colorInformationArray ?colors = _ /\ _ =>
      destruct (colorInformationArray_Normal byteColor colors)
        as (informations & Hrun & Hall & _);
        [|exists informations; split; assumption]
  end.
  apply Forall_app. split.
  - apply Forall_forall. intros colorObj Hin. apply in_map_iff in Hin.
    destruct Hin as (m & <- & Hin). apply In_firstn in Hin.
    destruct (execAll_In _ _ _ _ _ Hin) as (i & E).
    destruct (exec_colorTokenPattern _ _ _ E) as (ds & M & Hds & Hlen).
    exists (matched m). split; [reflexivity|]. rewrite M.
    exact (parseColor_hex_digits ds Hds Hlen).
  - apply Forall_forall. intros colorObj Hin. apply in_map_iff in Hin.
    destruct Hin as (m & <- & Hin).
    destruct (isCpp (languageId textDocument)); [|contradiction].
    apply In_firstn in Hin.
    destruct (execAll_In _ _ _ _ _ Hin) as (i & E).
    destruct (exec_rgbArrayPattern _ _ _ E)
      as (r & g & b & Hr & Hg & Hb & _ & _ & _ & _ & Hparse).
    exists (rgbMatchToHex m). split; [reflexivity|]. rewrite Hparse.
    exists r, g, b, 255%Z. repeat (split; [assumption || lia|]).
    reflexivity.
Qed.

Lemma onDocumentColor_reports_byte_colours_witness :
  exists informations,
    fst (onDocumentColor (uri paletteCpp)
           (startServer true capThree [paletteCpp])) = Normal informations
    /\ Forall (fun information => byteColor (ci_color information))
         informations
    /\ length informations = 3.
Proof.
  destruct (onDocumentColor_reports_byte_colours
              (startServer true capThree [paletteCpp]) (uri paletteCpp)
              paletteCpp) as (informations & Hrun & Hall);
    [reflexivity ..|].
  exists informations. split; [exact Hrun|]. split; [exact Hall|].
  assert (Hlen : length
            (match fst (onDocumentColor (uri paletteCpp)
                          (startServer true capThree [paletteCpp])) with
             | Normal l => l
             | Throw => []
             end) = 3) by (vm_compute; reflexivity).
  rewrite Hrun in Hlen. exact Hlen.
Defined.

(* ================================================================== *)
(** * From a token to its colour and back *)

Local Open Scope Z_scope.

(** The digits [stringifyColor] writes for the byte of two digits are
    these digits, in the case asked for, and the byte is 255 for [ff]
    only. *)
Lemma hexDigits_hexPair (casing : Casing) (h l : N) :
  hexDigit h = true -> hexDigit l = true ->
  toCase casing (hexDigits (hexPair h l)) = toCase casing [h; l]
  /\ (hexPair h l <? 255) = negb ((hexValue h =? 15) && (hexValue l =? 15)).
Proof.
  intros Hh Hl. apply hexDigit_cases in Hh, Hl. simpl in Hh, Hl.
  destruct casing;
    repeat (destruct Hh as [<-|Hh];
      [repeat (destruct Hl as [<-|Hl]; [vm_compute; split; reflexivity|]);
       contradiction|]);
    contradiction.
Qed.

Lemma parseColor_6_bytes (x d1 d2 d3 d4 d5 d6 : N) :
  hexDigit d1 = true -> hexDigit d2 = true -> hexDigit d3 = true ->
  hexDigit d4 = true -> hexDigit d5 = true -> hexDigit d6 = true ->
  parseColor [x; d1; d2; d3; d4; d5; d6]
  = rgba (hexPair d1 d2) (hexPair d3 d4) (hexPair d5 d6) 255.
Proof.
  intros H1 H2 H3 H4 H5 H6.
  destruct (channel_hex_pair _ _ H1 H2) as [E1 _].
  destruct (channel_hex_pair _ _ H3 H4) as [E2 _].
  destruct (channel_hex_pair _ _ H5 H6) as [E3 _].
  rewrite parseColor_7, E1, E2, E3. reflexivity.
Qed.

Lemma parseColor_8_bytes (x d1 d2 d3 d4 d5 d6 d7 d8 : N) :
  hexDigit d1 = true -> hexDigit d2 = true -> hexDigit d3 = true ->
  hexDigit d4 = true -> hexDigit d5 = true -> hexDigit d6 = true ->
  hexDigit d7 = true -> hexDigit d8 = true ->
  parseColor [x; d1; d2; d3; d4; d5; d6; d7; d8]
  = rgba (hexPair d1 d2) (hexPair d3 d4) (hexPair d5 d6) (hexPair d7 d8).
Proof.
  intros H1 H2 H3 H4 H5 H6 H7 H8.
  destruct (channel_hex_pair _ _ H1 H2) as [E1 _].
  destruct (channel_hex_pair _ _ H3 H4) as [E2 _].
  destruct (channel_hex_pair _ _ H5 H6) as [E3 _].
  destruct (channel_hex_pair _ _ H7 H8) as [E4 _].
  rewrite parseColor_9, E1, E2, E3, E4. reflexivity.
Qed.

Lemma hexPair_range (h l : N) :
  hexDigit h = true -> hexDigit l = true -> 0 <= hexPair h l <= 255.
Proof.
  intros Hh Hl. exact (proj2 (channel_hex_pair _ _ Hh Hl)).
Qed.

Lemma stringifyColor_6 (casing : Casing) (x d1 d2 d3 d4 d5 d6 : N) :
  hexDigit d1 = true -> hexDigit d2 = true -> hexDigit d3 = true ->
  hexDigit d4 = true -> hexDigit d5 = true -> hexDigit d6 = true ->
  stringifyColor (parseColor [x; d1; d2; d3; d4; d5; d6]) casing
  = toCase casing [cu "#"; d1; d2; d3; d4; d5; d6].
Proof.
  intros H1 H2 H3 H4 H5 H6.
  rewrite (parseColor_6_bytes x _ _ _ _ _ _ H1 H2 H3 H4 H5 H6).
  rewrite (stringifyColor_bytes _ casing
             (hexPair d1 d2) (hexPair d3 d4) (hexPair d5 d6) 255);
    try reflexivity; try (apply hexPair_range; assumption); try lia.
  destruct (hexDigits_hexPair casing _ _ H1 H2) as [-> _].
  destruct (hexDigits_hexPair casing _ _ H3 H4) as [-> _].
  destruct (hexDigits_hexPair casing _ _ H5 H6) as [-> _].
  destruct casing; reflexivity.
Qed.

Lemma stringifyColor_8 (casing : Casing) (x d1 d2 d3 d4 d5 d6 d7 d8 : N) :
  hexDigit d1 = true -> hexDigit d2 = true -> hexDigit d3 = true ->
  hexDigit d4 = true -> hexDigit d5 = true -> hexDigit d6 = true ->
  hexDigit d7 = true -> hexDigit d8 = true ->
  stringifyColor (parseColor [x; d1; d2; d3; d4; d5; d6; d7; d8]) casing
  = toCase casing
      (if (hexValue d7 =? 15) && (hexValue d8 =? 15)
       then [cu "#"; d1; d2; d3; d4; d5; d6]
       else [cu "#"; d1; d2; d3; d4; d5; d6; d7; d8]).
Proof.
  intros H1 H2 H3 H4 H5 H6 H7 H8.
  rewrite (parseColor_8_bytes x _ _ _ _ _ _ _ _ H1 H2 H3 H4 H5 H6 H7 H8).
  rewrite (stringifyColor_bytes _ casing
             (hexPair d1 d2) (hexPair d3 d4) (hexPair d5 d6) (hexPair d7 d8));
    try reflexivity; try (apply hexPair_range; assumption).
  destruct (hexDigits_hexPair casing _ _ H1 H2) as [-> _].
  destruct (hexDigits_hexPair casing _ _ H3 H4) as [-> _].
  destruct (hexDigits_hexPair casing _ _ H5 H6) as [-> _].
  destruct (hexDigits_hexPair casing _ _ H7 H8) as [-> ->].
  destruct ((hexValue d7 =? 15) && (hexValue d8 =? 15));
    destruct casing; reflexivity.
Qed.

(** X19. The colour of a token, written back, is the token in its normal
    form and in the case of the settings: a short form comes back
    spelled out, an alpha of [ff] is dropped, and nothing else
    changes. *)
Theorem stringifyColor_parseColor (ds : jsstring) (casing : Casing) :
  forallb hexDigit ds = true ->
  In (length ds) [3; 4; 6; 8]%nat ->
  stringifyColor (parseColor (cu "#" :: ds)) casing
  = toCase casing (normalForm (cu "#" :: ds)).
Proof.
  intros Hds Hlen.
  destruct ds as [|d1 [|d2 [|d3 [|d4 [|d5 [|d6 [|d7 [|d8 [|d9 ds]]]]]]]]];
    simpl in Hlen; try (exfalso; intuition discriminate).
  all: cbn [forallb] in Hds; rewrite ?andb_true_iff in Hds.
  - destruct Hds as (H1 & H2 & H3 & _).
    change (parseColor [cu "#"; d1; d2; d3])
      with (parseColor [cu "#"; d1; d1; d2; d2; d3; d3]).
    rewrite stringifyColor_6 by assumption. reflexivity.
  - destruct Hds as (H1 & H2 & H3 & H4 & _).
    change (parseColor [cu "#"; d1; d2; d3; d4])
      with (parseColor [cu "#"; d1; d1; d2; d2; d3; d3; d4; d4]).
    rewrite stringifyColor_8 by assumption.
    unfold normalForm. cbn [length Nat.ltb Nat.leb
      convertShortHexCodeToFullHexCode skipn flat_map app firstn].
    destruct ((hexValue d4 =? 15) && (hexValue d4 =? 15)); reflexivity.
  - destruct Hds as (H1 & H2 & H3 & H4 & H5 & H6 & _).
    rewrite stringifyColor_6 by assumption. reflexivity.
  - destruct Hds as (H1 & H2 & H3 & H4 & H5 & H6 & H7 & H8 & _).
    rewrite stringifyColor_8 by assumption.
    unfold normalForm. cbn [length Nat.ltb Nat.leb skipn firstn].
    destruct ((hexValue d7 =? 15) && (hexValue d8 =? 15)); reflexivity.
Qed.

Lemma stringifyColor_parseColor_witness :
  stringifyColor (parseColor (js "#FaBf")) Lowercase = js "#ffaabb"
  /\ stringifyColor (parseColor (js "#FaBf")) Lowercase
     = toCase Lowercase (normalForm (js "#FaBf")).
Proof.
  split; [vm_compute; reflexivity|].
  apply (stringifyColor_parseColor (js "FaBf") Lowercase);
    [reflexivity | simpl; tauto].
Defined.

Local Close Scope Z_scope.

Local Open Scope Z_scope.

(** X20. The colour of an array, written back for a C++ document, is the
    array with its three numbers and no white space. *)
Theorem colorToRgbArray_of_match (text : jsstring) (lastIndex : nat)
  (m : Match) :
  exec rgbArrayPattern text lastIndex = Some m ->
  colorToRgbArray (parseColor (rgbMatchToHex m))
  = js "{" ++ toStringRadix 10 (component m 2) ++ js ","
      ++ toStringRadix 10 (component m 5) ++ js ","
      ++ toStringRadix 10 (component m 8) ++ js "}".
Proof.
  intros H.
  destruct (exec_rgbArrayPattern _ _ _ H)
    as (r & g & b & Hr & Hg & Hb & -> & -> & -> & _ & ->).
  destruct (hexByte r Hr) as (Fr & _).
  destruct (hexByte g Hg) as (Fg & _).
  destruct (hexByte b Hb) as (Fb & _).
  unfold colorToRgbArray, rgb. cbn [red green blue].
  rewrite Fr, Fg, Fb. reflexivity.
Qed.

Lemma colorToRgbArray_of_match_witness :
  exists m,
    exec rgbArrayPattern (js "x = { 0,128 , 255 };") 2 = Some m
    /\ colorToRgbArray (parseColor (rgbMatchToHex m)) = js "{0,128,255}".
Proof.
  eexists. split; [vm_compute; reflexivity|].
  rewrite (colorToRgbArray_of_match (js "x = { 0,128 , 255 };") 2);
    vm_compute; reflexivity.
Defined.

Local Close Scope Z_scope.

(* ================================================================== *)
(** * From a table to the style sheets that refer to it *)












(* ================================================================== *)
(** * Which table wins *)

Lemma assign_new {V : Type} (k : jsstring) (v : V) (obj : list (jsstring * V)) :
  lookup k obj = None -> assign k v obj = obj ++ [(k, v)].
Proof.
  induction obj as [|[k' w] obj IH]; simpl; [reflexivity|].
  destruct (jsstring_eqb k k'); [discriminate|].
  intros H. rewrite (IH H). reflexivity.
Qed.

Lemma lookup_app_names {V : Type} (k : jsstring) (obj more : list (jsstring * V)) :
  In k (names obj) -> lookup k (obj ++ more) = lookup k obj.
Proof.
  unfold names. induction obj as [|[k' w] obj IH]; simpl; [tauto|].
  destruct (jsstring_eqb k k') eqn:E; [reflexivity|].
  intros [Hk|Hin]; [|exact (IH Hin)].
  subst k'. rewrite jsstring_eqb_refl in E. discriminate.
Qed.

Lemma find_app_Some {A : Type} (f : A -> bool) (l1 l2 : list A) (x : A) :
  find f l1 = Some x -> find f (l1 ++ l2) = Some x.
Proof.
  induction l1 as [|a l1 IH]; simpl; [discriminate|].
  destruct (f a); [auto | exact IH].
Qed.

(** An assignment under a name that is not an array index: a new key
    comes last among the keys, an old one keeps its place. *)
Lemma keys_assign_ordinary {V : Type} (k : jsstring) (v : V)
  (obj : list (jsstring * V)) :
  isIndex k = false ->
  keys (assign k v obj) = if has k obj then keys obj else keys obj ++ [k].
Proof.
  intros Hk. unfold has.
  destruct (lookup k obj) eqn:E.
  - unfold keys. rewrite names_assign. unfold has. rewrite E. reflexivity.
  - rewrite (assign_new _ _ _ E). apply keys_app_ordinary. exact Hk.
Qed.

(** X24. The table opened first wins.  In a cache whose keys are
    distinct document URIs, opening a table under a document URI that
    the cache does not hold yet puts it last among the keys of the
    cache; a table that is updated keeps its place.  So a name for which
    an already cached table yields something keeps resolving to that
    table, and to the same colour, after another table that defines it
    too is opened. *)
Theorem first_opened_table_wins (st : Server) (table : TextDocument)
  (entry : VariableMap) :
  documentCache (colorTokenCache st) ->
  documentUri (uri table) = true ->
  colorDocument st table = true ->
  updateBody table = Normal (Some entry) ->
  let cache := colorTokenCache st in
  let cache' := colorTokenCache (snd (onDidChangeContent table st)) in
  keys cache'
  = (if has (uri table) cache then keys cache else keys cache ++ [uri table])
  /\ (lookup (uri table) cache = None ->
      forall variableName first,
        findDocument cache variableName = Some first ->
        findDocument cache' variableName = Some first
        /\ cachedColor cache' first variableName
           = cachedColor cache first variableName).
Proof.
  intros Hcache Huri Hcolor Hbody. cbv zeta. unfold onDidChangeContent.
  rewrite updateColorTokenCache_cache, Hcolor, Hbody. cbn [tryCatch].
  pose proof (proj1 (documentUri_facts _ Huri)) as Hordinary.
  split; [apply keys_assign_ordinary; exact Hordinary|].
  intros Hnew variableName first Hfind.
  rewrite (assign_new _ _ _ Hnew).
  set (cache := colorTokenCache st) in *.
  assert (Hmember : forall u,
    In u (keys cache) ->
    cacheMember (cache ++ [(uri table, entry)]) u variableName
    = cacheMember cache u variableName).
  { intros u Hu. unfold cacheMember.
    rewrite lookup_app_names by exact (In_keys_names _ _ Hu). reflexivity. }
  unfold findDocument in *. split.
  - rewrite (keys_app_ordinary _ _ _ Hordinary).
    apply find_app_Some.
    rewrite (find_ext_in _ (hasMember cache variableName) (keys cache));
      [exact Hfind|].
    intros u Hu. unfold hasMember. rewrite (Hmember u Hu). reflexivity.
  - apply find_some in Hfind. destruct Hfind as [Hin _].
    unfold cachedColor. rewrite (Hmember _ Hin). reflexivity.
Qed.

Lemma first_opened_table_wins_witness :
  keys (colorTokenCache (snd (onDidChangeContent otherJson themeLoaded)))
  = [uri themeJson; uri otherJson]
  /\ findDocument
       (colorTokenCache (snd (onDidChangeContent otherJson themeLoaded)))
       (js "primary") = Some (uri themeJson)
  /\ cachedColor
       (colorTokenCache (snd (onDidChangeContent otherJson themeLoaded)))
       (uri themeJson) (js "primary") = Some (js "#336699").
Proof.
  destruct (first_opened_table_wins themeLoaded otherJson
              [(js "primary", {| color := js "#fff"; range := primaryKey |})])
    as [Hkeys Hwins];
    [split; [repeat constructor; vm_compute; intuition discriminate
            | repeat constructor]
    | vm_compute; reflexivity ..|].
  split; [rewrite Hkeys; vm_compute; reflexivity|].
  destruct (Hwins eq_refl (js "primary") (uri themeJson))
    as [Hfind Hcolour]; [vm_compute; reflexivity|].
  split; [exact Hfind|]. rewrite Hcolour. vm_compute. reflexivity.
Defined.
